(** * The state-mapping conversion engine of OLMo-core

    A shallow embedding of [src/olmo_core/nn/conversion/state_mapping.py]:
    the placeholder enumeration, [StateMappingTemplate] with its resolver
    [to_mapping], the resolved [StateMapping], and [StateConverter] with
    [get_mappings] and [convert].

    Python values are modelled as follows.
    - [str] is [string] (the UTF-8 bytes; byte-wise lexicographic order agrees
      with Python's code-point order), [int] is [Z].
    - A dictionary keyed by placeholders is an association list in insertion
      order, because the code iterates over [.items()].
    - A state dictionary is a [gmap string value]; the dictionaries live in a
      heap of objects, since [convert] builds its result by mutation.
    - An exception is a value of [exn]; a computation that may raise returns
      a [result]. *)

From stdpp Require Import gmap strings list sorting pretty.
From Stdlib Require Import Ascii.

#[local] Set Warnings "-clear-no-such-hyp".

#[local] Open Scope Z_scope.

(** ** Exceptions and results *)

(** The tensor operations [convert] calls; an exception raised inside one of
    them is propagated unchanged. The tensor library raises [IndexError] for
    a dimension out of range and [TypeError] for arguments of the wrong
    type; its other errors are [RuntimeError]s, recorded with the
    operation. *)
Inductive torch_op := OpCat | OpUnflatten | OpPermute | OpFlatten | OpChunk.

Inductive exn :=
  | AssertionError
  | KeyError
  | IndexError
  | TypeError
  (** [ValueError] of [StateMappingTemplate.__post_init__]. *)
  | ValueError
  (** [RuntimeError] raised by the tensor library inside the given
      operation. *)
  | TensorError (op : torch_op)
  (** [RuntimeError("Attempting to map {n} non-tensor states to {m} keys")]. *)
  | NonTensorStates (n m : nat)
  (** [RuntimeError("Some state keys were not converted: {keys}")]. *)
  | KeysNotConverted (keys : list string).

Inductive result (A : Type) :=
  | Ok (a : A)
  | Raise (e : exn).
Arguments Ok {A} a.
Arguments Raise {A} e.

Global Instance result_ret : MRet result := λ A a, Ok a.
Global Instance result_bind : MBind result := λ A B f m,
  match m with
  | Ok a => f a
  | Raise e => Raise e
  end.

(** ** Python built-ins used by the module *)

Module Py.

(** [s.startswith(p)]. *)
Fixpoint startswith (p s : string) : bool :=
  match p, s with
  | EmptyString, _ => true
  | String a p', String b s' => bool_decide (a = b) && startswith p' s'
  | String _ _, EmptyString => false
  end.

(** [p in s] for strings: [p] occurs in [s] as a substring. *)
Fixpoint contains (p s : string) : bool :=
  startswith p s ||
  match s with
  | EmptyString => false
  | String _ s' => contains p s'
  end.

(** The text that follows the prefix [p] of [s], when [p] is a prefix. *)
Fixpoint strip_prefix (p s : string) : option string :=
  match p, s with
  | EmptyString, _ => Some s
  | String a p', String b s' =>
      if bool_decide (a = b) then strip_prefix p' s' else None
  | String _ _, EmptyString => None
  end.

(** [s.partition(p)] when [p] occurs in [s]: the text before and the text
    after the leftmost occurrence. *)
Fixpoint partition (p s : string) : option (string * string) :=
  match strip_prefix p s with
  | Some rest => Some (EmptyString, rest)
  | None =>
      match s with
      | EmptyString => None
      | String c s' =>
          match partition p s' with
          | Some (u, v) => Some (String c u, v)
          | None => None
          end
      end
  end.

(** [s.replace(old, new, count)]: the first [count] non-overlapping
    occurrences of [old], scanning from the left, are replaced. *)
Fixpoint replace_count (count : nat) (old new s : string) : string :=
  match count with
  | O => s
  | S count' =>
      match partition old s with
      | None => s
      | Some (u, v) => u +:+ new +:+ replace_count count' old new v
      end
  end.

(** [s.replace(old, new)] for a non-empty [old] (the module only ever
    replaces a placeholder token): [s] has at most [length s]
    non-overlapping occurrences, so that count replaces them all. *)
Definition replace (old new s : string) : string :=
  replace_count (String.length s) old new s.

(** [str(n)] for an integer. *)
Definition str (n : Z) : string := pretty n.

(** [list(range(n))]. *)
Definition range (n : Z) : list Z := seqZ 0 n.

(** [itertools.product] over the lists [ls]: the rightmost component
    varies fastest. *)
Fixpoint product {A} (ls : list (list A)) : list (list A) :=
  match ls with
  | [] => [[]]
  | l :: ls' => x ← l; (x ::.) <$> product ls'
  end.

(** [dict(items)]: a later item with a key already present overwrites the
    value and keeps the position of the first. *)
Fixpoint dict_set {K V} `{EqDecision K} (k : K) (v : V) (d : list (K * V))
    : list (K * V) :=
  match d with
  | [] => [(k, v)]
  | (k', v') :: d' =>
      if decide (k' = k) then (k', v) :: d' else (k', v') :: dict_set k v d'
  end.
Definition dict {K V} `{EqDecision K} (items : list (K * V)) : list (K * V) :=
  foldl (λ d kv, dict_set kv.1 kv.2 d) [] items.

(** [d[k]] as an option, and [k in d]. *)
Fixpoint get {K V} `{EqDecision K} (k : K) (d : list (K * V)) : option V :=
  match d with
  | [] => None
  | (k', v) :: d' => if decide (k' = k) then Some v else get k d'
  end.

(** [sorted(s)] for a set of strings. *)
Definition sorted (s : gset string) : list string :=
  merge_sort String.le (elements s).

End Py.

(** ** Placeholders *)

(** [class TemplatePlaceholder(StrEnum)]. *)
Inductive TemplatePlaceholder := LAYER | EXPERT.

Global Instance TemplatePlaceholder_eq_dec : EqDecision TemplatePlaceholder.
Proof. solve_decision. Defined.

Global Instance TemplatePlaceholder_countable : Countable TemplatePlaceholder.
Proof.
  refine (inj_countable'
    (λ p, match p with LAYER => 0%nat | EXPERT => 1%nat end)
    (λ n, match n with O => LAYER | _ => EXPERT end) _).
  by intros [].
Defined.

(** The string value of a member; a member is used as a string wherever the
    code searches for it in a template or replaces it. *)
Definition token (p : TemplatePlaceholder) : string :=
  match p with
  | LAYER => "[layer]"
  | EXPERT => "[expert]"
  end.

(** [Dict[TemplatePlaceholder, int | None]]: [None] is the value that asks for
    the expansion over all indices. *)
Abbreviation placeholder_values_t := (list (TemplatePlaceholder * option Z)).
(** [Dict[TemplatePlaceholder, int]]. *)
Abbreviation placeholder_bounds_t := (list (TemplatePlaceholder * Z)).

(** [str | Tuple[str, ...]]. *)
Inductive template_keys :=
  | KeyStr (s : string)
  | KeyTuple (l : list string).

(** An entry of the shape of [unflatten_dim]: [TemplatePlaceholder | int]. *)
Inductive dim_entry :=
  | DimPlaceholder (p : TemplatePlaceholder)
  | DimInt (n : Z).

(** ** Resolved mappings *)

Module StateMapping.
Record t := mk {
  source_keys : list string;
  dest_keys : list string;
  source_concat_dim : Z;
  unflatten_dim : option (Z * list Z);
  dims_permutation : option (list Z);
  flatten_dims : option (Z * Z);
  dest_chunk_dim : Z
}.
End StateMapping.

(** ** Mapping templates *)

Module StateMappingTemplate.
Record t := mk {
  source_template_keys : template_keys;
  dest_template_keys : template_keys;
  source_key_per_placeholder : option TemplatePlaceholder;
  dest_key_per_placeholder : option TemplatePlaceholder;
  source_concat_dim : Z;
  unflatten_dim : option (Z * list dim_entry);
  dims_permutation : option (list Z);
  flatten_dims : option (Z * Z);
  dest_chunk_dim : Z
}.

Definition is_tuple (k : template_keys) : bool :=
  match k with KeyTuple _ => true | KeyStr _ => false end.

(** [__post_init__]: the check the dataclass runs at construction. *)
Definition __post_init__ (self : t) : result unit :=
  if bool_decide (is_Some (source_key_per_placeholder self))
     && is_tuple (source_template_keys self)
  then Raise ValueError
  else if bool_decide (is_Some (dest_key_per_placeholder self))
          && is_tuple (dest_template_keys self)
  then Raise ValueError
  else Ok ().

(** Lines 115-132 for one template: the loop over
    [placeholder_values.items()]. The membership test reads [template], the
    replacement acts on the running [key]; [None] is the early
    [return None]. *)
Fixpoint fill_key (template key : string) (items : placeholder_values_t)
    : option string :=
  match items with
  | [] => Some key
  | (placeholder, value) :: items' =>
      match Py.contains (token placeholder) template, value with
      | true, Some v =>
          fill_key template
            (Py.replace (token placeholder) (Py.str v) key) items'
      | false, None => fill_key template key items'
      | _, _ => None
      end
  end.

(** Lines 115-132: the loop over [templates]. *)
Definition fill_keys (templates : list string)
    (placeholder_values : placeholder_values_t) : option (list string) :=
  mapM (λ template, fill_key template template placeholder_values) templates.

(** [_templates_to_keys]. The outer [result] carries a failed [assert], the
    inner [option] the [None] the method returns. *)
Definition _templates_to_keys (templates : template_keys)
    (placeholder_values : placeholder_values_t)
    (key_per_placeholder : option TemplatePlaceholder)
    (key_per_placeholder_values : option (list Z))
    : result (option (list string)) :=
  match key_per_placeholder with
  | Some p =>
      match key_per_placeholder_values with
      | None => Ok None
      | Some values =>
          match templates with
          | KeyTuple _ => Raise AssertionError
          | KeyStr s =>
              if Py.contains (token p) s
              then Ok (fill_keys
                         ((λ value, Py.replace (token p) (Py.str value) s)
                            <$> values)
                         placeholder_values)
              else Raise AssertionError
          end
      end
  | None =>
      match templates with
      | KeyStr s => Ok (fill_keys [s] placeholder_values)
      | KeyTuple l => Ok (fill_keys l placeholder_values)
      end
  end.

(** Lines 139-147: the placeholders that must have a bound. *)
Definition required_placeholders (self : t) : gset TemplatePlaceholder :=
  list_to_set (option_list (source_key_per_placeholder self))
  ∪ list_to_set (option_list (dest_key_per_placeholder self))
  ∪ match unflatten_dim self with
    | Some (_, shape) =>
        list_to_set
          (omap (λ d, match d with
                      | DimPlaceholder p => Some p
                      | DimInt _ => None
                      end) shape)
    | None => ∅
    end.

(** The argument [key_per_placeholder_values] of lines 157-162 and 168-173:
    [list(range(bounds[p])) if p and values[p] is None else None]. *)
Definition per_placeholder_values (p : option TemplatePlaceholder)
    (placeholder_values : placeholder_values_t)
    (placeholder_bounds : placeholder_bounds_t) : result (option (list Z)) :=
  match p with
  | None => Ok None
  | Some p =>
      match Py.get p placeholder_values with
      | None => Raise KeyError
      | Some (Some _) => Ok None
      | Some None =>
          match Py.get p placeholder_bounds with
          | None => Raise KeyError
          | Some bound => Ok (Some (Py.range bound))
          end
      end
  end.

(** Lines 181-184: an entry of the shape resolved against the bounds. *)
Definition resolve_dim (placeholder_bounds : placeholder_bounds_t)
    (d : dim_entry) : result Z :=
  match d with
  | DimPlaceholder p =>
      match Py.get p placeholder_bounds with
      | Some bound => Ok bound
      | None => Raise KeyError
      end
  | DimInt n => Ok n
  end.

(** [to_mapping]. [Ok None] is the not-applicable result. *)
Definition to_mapping (self : t) (placeholder_values : placeholder_values_t)
    (placeholder_bounds : placeholder_bounds_t)
    : result (option StateMapping.t) :=
  let missing_required_placeholders :=
    required_placeholders self ∖ list_to_set placeholder_bounds.*1 in
  if bool_decide (missing_required_placeholders ≠ ∅) then Ok None else
  source_values ← per_placeholder_values (source_key_per_placeholder self)
                    placeholder_values placeholder_bounds;
  source_keys ← _templates_to_keys (source_template_keys self)
                  placeholder_values (source_key_per_placeholder self)
                  source_values;
  dest_values ← per_placeholder_values (dest_key_per_placeholder self)
                  placeholder_values placeholder_bounds;
  dest_keys ← _templates_to_keys (dest_template_keys self)
                placeholder_values (dest_key_per_placeholder self)
                dest_values;
  match source_keys, dest_keys with
  | Some source_keys, Some dest_keys =>
      unflatten_dim ←
        match unflatten_dim self with
        | None => Ok None
        | Some (dim, shape) =>
            shape' ← mapM (resolve_dim placeholder_bounds) shape;
            Ok (Some (dim, shape'))
        end;
      Ok (Some (StateMapping.mk source_keys dest_keys
                  (source_concat_dim self) unflatten_dim
                  (dims_permutation self) (flatten_dims self)
                  (dest_chunk_dim self)))
  | _, _ => Ok None
  end.

End StateMappingTemplate.

(** ** Tensors

    The tensor library is outside the repository. A tensor is modelled by its
    element type, its shape and its elements in row-major order; an element
    is an opaque scalar, stood for by an integer, or the conversion of an
    element to another element type. The operations follow the documented
    behaviour of PyTorch, including the conditions under which they raise
    and the class of the exception. None of them writes to its argument, so
    tensors are immutable values here. The model covers dense tensors that
    live on one device, and integer arguments that fit a machine word. *)

Module Torch.

(** [torch.dtype]: the element types the model tells apart. *)
Inductive scalar_type :=
  | Bool | UInt8 | Int8 | Int16 | Int32 | Int64
  | Float16 | BFloat16 | Float32 | Float64.

Global Instance scalar_type_eq_dec : EqDecision scalar_type.
Proof. solve_decision. Defined.

(** [torch.promote_types]: the smallest element type both can be converted
    to. *)
Definition promote_types (a b : scalar_type) : scalar_type :=
  if decide (a = b) then a else
  match a, b with
  | Float64, _ | _, Float64 => Float64
  | Float32, _ | _, Float32 => Float32
  | Float16, BFloat16 | BFloat16, Float16 => Float32
  | Float16, _ | _, Float16 => Float16
  | BFloat16, _ | _, BFloat16 => BFloat16
  | Int64, _ | _, Int64 => Int64
  | Int32, _ | _, Int32 => Int32
  | Int16, _ | _, Int16 => Int16
  | UInt8, Int8 | Int8, UInt8 => Int16
  | UInt8, _ | _, UInt8 => UInt8
  | Int8, _ | _, Int8 => Int8
  | Bool, Bool => Bool
  end.

(** An element as it is stored: a value, stood for by an integer, or the
    result of converting an element to another element type. The conversion
    is not interpreted: nothing is assumed about the value it gives. *)
Inductive scalar :=
  | Elem (n : Z)
  | Cast (to : scalar_type) (x : scalar).

Global Instance scalar_inhabited : Inhabited scalar := populate (Elem 0).

Record Tensor :=
  mk { dtype : scalar_type; shape : list nat; data : list scalar }.

Definition numel (shape : list nat) : nat := foldr Nat.mul 1%nat shape.

(** The invariant of the representation. *)
Definition wf (t : Tensor) : Prop := length (data t) = numel (shape t).

Definition ndim (t : Tensor) : nat := length (shape t).

(** A dimension index may be negative and then counts from the end; a
    zero-dimensional tensor accepts [-1] and [0]. *)
Definition wrap_dim (ndim : nat) (dim : Z) : option nat :=
  let n := Z.of_nat (Nat.max ndim 1) in
  if bool_decide (- n ≤ dim < n)
  then Some (Z.to_nat (if bool_decide (dim < 0) then dim + n else dim))
  else None.

(** The part of [t] a concatenation or a split along dimension [d] moves at
    once: the elements [start .. start + len) of dimension [d] under the
    outer index [o]. *)
Definition slab (t : Tensor) (d o start len : nat) : list scalar :=
  let inner := numel (drop (S d) (shape t)) in
  take (len * inner)
    (drop ((o * (shape t !!! d) + start) * inner) (data t)).

Definition same_except (d : nat) (s1 s2 : list nat) : bool :=
  bool_decide (<[d := 0%nat]> s1 = <[d := 0%nat]> s2).

(** [t.to(dtype)]: the tensor itself when it has this element type, and
    otherwise its elements converted. *)
Definition to (dt : scalar_type) (t : Tensor) : Tensor :=
  if decide (dtype t = dt) then t
  else mk dt (shape t) (Cast dt <$> data t).

(** [torch.result_type] of the tensors of a list, all with at least one
    dimension: their element types promoted, from the left. *)
Definition result_type (t0 : Tensor) (tensors : list Tensor) : scalar_type :=
  foldl promote_types (dtype t0) (dtype <$> tensors).

(** [torch.cat(tensors, dim)] on tensors. A tensor of shape [(0,)] is
    skipped; no tensor may be zero-dimensional; the others must agree on
    every dimension but [dim]. The result has the promoted element type of
    all the tensors, and the elements of a tensor of another element type
    are converted. *)
Definition cat (tensors : list Tensor) (dim : Z) : result Tensor :=
  if bool_decide (Exists (λ t, shape t = []) tensors)
  then Raise (TensorError OpCat) else
  match tensors with
  | [] => Raise (TensorError OpCat)
  | t1 :: tensors' =>
      let out := result_type t1 tensors' in
      match filter (λ t, shape t ≠ [0%nat]) tensors with
      | [] => Ok (mk out [0%nat] [])
      | (t0 :: _) as kept =>
          match wrap_dim (ndim t0) dim with
          | None => Raise IndexError
          | Some d =>
              if forallb (λ t, same_except d (shape t0) (shape t)) kept
              then Ok (mk out
                (<[d := sum_list ((λ t, shape t !!! d) <$> kept)]> (shape t0))
                (o ← seq 0 (numel (take d (shape t0)));
                 t ← kept; slab (to out t) d o 0 (shape t !!! d)))
              else Raise (TensorError OpCat)
          end
      end
  end.

(** [t.narrow(d, start, len)]. *)
Definition narrow (t : Tensor) (d start len : nat) : Tensor :=
  mk (dtype t) (<[d := len]> (shape t))
     (o ← seq 0 (numel (take d (shape t))); slab t d o start len).

(** [torch.chunk(t, chunks, dim)]: pieces of [ceil(size / chunks)] along
    [dim], the last one with what is left; when the size is not a multiple
    of [chunks] the pieces are unequal and may be fewer than [chunks]. *)
Definition chunk (t : Tensor) (chunks : nat) (dim : Z)
    : result (list Tensor) :=
  if bool_decide (ndim t = 0%nat) then Raise (TensorError OpChunk) else
  if bool_decide (chunks = 0%nat) then Raise (TensorError OpChunk) else
  match wrap_dim (ndim t) dim with
  | None => Raise IndexError
  | Some d =>
      let dim_size := shape t !!! d in
      let split_size := ((dim_size + chunks - 1) / chunks)%nat in
      if bool_decide (split_size = 0%nat)
      then Ok (replicate chunks (narrow t d 0 0))
      else
        let num_splits :=
          Nat.max ((dim_size + split_size - 1) / split_size) 1 in
        Ok ((λ i, narrow t d (i * split_size)
                    (if bool_decide (i < num_splits - 1)%nat
                     then split_size
                     else dim_size - split_size * (num_splits - 1))%nat)
              <$> seq 0 num_splits)
  end.

(** The sizes a view replaces a dimension of [size] elements with; one
    entry may be [-1] and is then inferred. *)
Definition infer_size (sizes : list Z) (size : nat) : option (list nat) :=
  if bool_decide (Exists (λ n, n < -1) sizes) then None else
  let known := Z.to_nat <$> filter (λ n, 0 ≤ n) sizes in
  let newsize := numel known in
  match length (filter (λ n, n = -1) sizes) with
  | O => if bool_decide (size = newsize) then Some known else None
  | S O =>
      if bool_decide (0 < newsize ∧ size `mod` newsize = 0)%nat
      then Some ((λ n, if bool_decide (n = -1)
                       then (size / newsize)%nat else Z.to_nat n) <$> sizes)
      else None
  | _ => None
  end.

(** [t.unflatten(dim, sizes)]: empty [sizes] are rejected first, then a
    dimension out of range, then sizes that do not multiply up to the size of
    the dimension. *)
Definition unflatten (t : Tensor) (dim : Z) (sizes : list Z)
    : result Tensor :=
  match sizes with
  | [] => Raise (TensorError OpUnflatten)
  | _ :: _ =>
      match wrap_dim (ndim t) dim with
      | None => Raise IndexError
      | Some d =>
          match shape t !! d with
          | None => Raise IndexError
          | Some size =>
              match infer_size sizes size with
              | None => Raise (TensorError OpUnflatten)
              | Some sizes' =>
                  Ok (mk (dtype t)
                        (take d (shape t) ++ sizes' ++ drop (S d) (shape t))
                        (data t))
              end
          end
      end
  end.

(** The multi-indices of a shape in row-major order. *)
Fixpoint indices (shape : list nat) : list (list nat) :=
  match shape with
  | [] => [[]]
  | n :: shape' => i ← seq 0 n; (i ::.) <$> indices shape'
  end.

(** The row-major stride of every dimension. *)
Fixpoint strides (shape : list nat) : list nat :=
  match shape with
  | [] => []
  | _ :: shape' => numel shape' :: strides shape'
  end.

(** The loop of [permute] over the dimensions, in order: a dimension out of
    range is an [IndexError], one that was [seen] before an error of the
    operation. *)
Fixpoint permute_dims (ndim : nat) (dims : list Z) (seen : list nat)
    : result (list nat) :=
  match dims with
  | [] => Ok []
  | dim :: dims' =>
      match wrap_dim ndim dim with
      | None => Raise IndexError
      | Some d =>
          if bool_decide (d ∈ seen) then Raise (TensorError OpPermute)
          else ds ← permute_dims ndim dims' (d :: seen); Ok (d :: ds)
      end
  end.

(** [t.permute] applied to the dimensions [dims]: dimension [k] of the
    result is dimension [dims[k]] of [t]. The call without any dimension is
    rejected as a call with wrong arguments. *)
Definition permute (t : Tensor) (dims : list Z) : result Tensor :=
  if bool_decide (dims = []) then Raise TypeError else
  if bool_decide (length dims ≠ ndim t) then Raise (TensorError OpPermute)
  else
    ds ← permute_dims (ndim t) dims [];
    let shape' := (λ d, shape t !!! d) <$> ds in
    let strides' := (λ d, strides (shape t) !!! d) <$> ds in
    Ok (mk (dtype t) shape'
          ((λ idx, data t !!! sum_list (zip_with Nat.mul idx strides'))
             <$> indices shape')).

(** [t.flatten(start_dim, end_dim)]. *)
Definition flatten (t : Tensor) (start_dim end_dim : Z) : result Tensor :=
  match wrap_dim (ndim t) start_dim, wrap_dim (ndim t) end_dim with
  | Some s, Some e =>
      if bool_decide (e < s)%nat then Raise (TensorError OpFlatten)
      else if bool_decide (ndim t = 0%nat)
      then Ok (mk (dtype t) [1%nat] (data t))
      else Ok (mk (dtype t)
                 (take s (shape t)
                    ++ numel (take (S e - s) (drop s (shape t)))
                    :: drop (S e) (shape t))
                 (data t))
  | _, _ => Raise IndexError
  end.

(** [t.contiguous()]: the same elements in a buffer of their own. *)
Definition contiguous (t : Tensor) : Tensor := t.

End Torch.

(** ** State dictionaries and the object store *)

(** [Dict[str, Any]]: a value is a tensor or some other Python object (a
    number stands for it). *)
Inductive value :=
  | VTensor (t : Torch.Tensor)
  | VObject (n : Z).

Definition loc := positive.

(** The dictionaries that exist, by reference. *)
Abbreviation store := (gmap loc (gmap string value)).

(** A reference always designates an allocated dictionary; the default is
    never read. *)
Definition deref (h : store) (l : loc) : gmap string value :=
  default ∅ (h !! l).

(** A computation that reads and writes the store and may raise; the store
    an exception leaves behind is kept. *)
Definition Run (A : Type) : Type := store → store * result A.

Global Instance Run_ret : MRet Run := λ A a h, (h, Ok a).
Global Instance Run_bind : MBind Run := λ A B f m h,
  match m h with
  | (h', Ok a) => f a h'
  | (h', Raise e) => (h', Raise e)
  end.

Definition raise {A} (e : exn) : Run A := λ h, (h, Raise e).
Definition lift {A} (r : result A) : Run A := λ h, (h, r).

(** [{}]. *)
Definition new_dict : Run loc :=
  λ h, let l := fresh (dom h) in (<[l := ∅]> h, Ok l).
(** [set(d.keys())]. *)
Definition dict_keys (d : loc) : Run (gset string) :=
  λ h, (h, Ok (dom (deref h d))).
(** [d[k]]. *)
Definition getitem (d : loc) (k : string) : Run value :=
  λ h, (h, match deref h d !! k with
           | Some v => Ok v
           | None => Raise KeyError
           end).
(** [d[k] = v]. *)
Definition setitem (d : loc) (k : string) (v : value) : Run unit :=
  λ h, (<[d := <[k := v]> (deref h d)]> h, Ok ()).

(** A [for] loop that threads the local state [s]. *)
Fixpoint for_each {A S} (body : S → A → Run S) (s : S) (l : list A) : Run S :=
  match l with
  | [] => mret s
  | x :: l' => s' ← body s x; for_each body s' l'
  end.

(** [torch.cat] as Python calls it: every element of the list has to be a
    tensor. *)
Definition torch_cat (states : list value) (dim : Z) : result Torch.Tensor :=
  match mapM (λ v, match v with
                   | VTensor t => Some t
                   | VObject _ => None
                   end) states with
  | Some tensors => Torch.cat tensors dim
  | None => Raise TypeError
  end.

(** ** The converter *)

Module StateConverter.
Import StateMapping.

Record t := mk { mapping_templates : list StateMappingTemplate.t }.

Definition _fill_placeholders (self : t) (mapping : StateMappingTemplate.t)
    (placeholder_values : placeholder_values_t)
    (placeholder_bounds : placeholder_bounds_t)
    : result (option StateMapping.t) :=
  StateMappingTemplate.to_mapping mapping placeholder_values
    placeholder_bounds.

(** Lines 266-276: every placeholder of the bounds takes each value below
    its bound, or [None]. *)
Definition placeholder_value_combinations
    (placeholder_bounds : placeholder_bounds_t) : list placeholder_values_t :=
  Py.dict <$>
    Py.product
      ((λ '(placeholder, bound),
          ((λ i, (placeholder, Some i)) <$> Py.range bound)
          ++ [(placeholder, None)]) <$> placeholder_bounds).

(** Lines 279-288: the resolved mappings, template by template and, for a
    template, assignment by assignment. *)
Definition resolved_mappings (self : t)
    (placeholder_bounds : placeholder_bounds_t)
    : result (list StateMapping.t) :=
  state_mappings ←
    mapM (λ '(mapping_template, placeholder_value_combination),
            _fill_placeholders self mapping_template
              placeholder_value_combination placeholder_bounds)
         (mapping_template ← mapping_templates self;
          (mapping_template,.)
            <$> placeholder_value_combinations placeholder_bounds);
  Ok (omap id state_mappings).

(** Lines 291-296: the filter by the keys of the state dictionary. *)
Definition relevant (state_keys : gset string) (mapping : StateMapping.t)
    : bool :=
  forallb (λ k, bool_decide (k ∈ state_keys)) (source_keys mapping).

Definition _get_mappings (self : t) (state_dict : loc)
    (placeholder_bounds : placeholder_bounds_t)
    : Run (list StateMapping.t) :=
  state_mappings ← lift (resolved_mappings self placeholder_bounds);
  state_keys ← dict_keys state_dict;
  mret (List.filter (relevant state_keys) state_mappings).

Definition get_mappings (self : t) (state_dict : loc)
    (placeholder_bounds : placeholder_bounds_t)
    : Run (list StateMapping.t) :=
  _get_mappings self state_dict placeholder_bounds.

(** Lines 338-343: the optional steps between concatenation and chunking. *)
Definition transform (mapping : StateMapping.t)
    (original_state : Torch.Tensor) : result Torch.Tensor :=
  original_state ←
    match unflatten_dim mapping with
    | Some (dim, sizes) => Torch.unflatten original_state dim sizes
    | None => Ok original_state
    end;
  original_state ←
    match dims_permutation mapping with
    | Some dims => Torch.permute original_state dims
    | None => Ok original_state
    end;
  match flatten_dims mapping with
  | Some (start_dim, end_dim) =>
      Torch.flatten original_state start_dim end_dim
  | None => Ok original_state
  end.

(** Lines 330-355: the body of the loop over the mappings. *)
Definition convert_mapping (state_dict converted_state_dict : loc)
    (unused_original_keys : gset string) (mapping : StateMapping.t)
    : Run (gset string) :=
  let original_keys := source_keys mapping in
  let converted_keys := dest_keys mapping in
  first ← match original_keys with
          | [] => raise IndexError
          | key :: _ => getitem state_dict key
          end;
  match first with
  | VTensor _ =>
      states ← mapM (getitem state_dict) original_keys;
      original_state ← lift (torch_cat states (source_concat_dim mapping));
      original_state ← lift (transform mapping original_state);
      state_chunks ← lift (Torch.chunk original_state
                             (length converted_keys)
                             (dest_chunk_dim mapping));
      _ ← mapM (λ '(hf_key, state_chunk),
                  setitem converted_state_dict hf_key
                    (VTensor (Torch.contiguous state_chunk)))
               (zip converted_keys state_chunks);
      mret (unused_original_keys ∖ list_to_set original_keys)
  | VObject _ =>
      raise (NonTensorStates (length original_keys) (length converted_keys))
  end.

(** [convert]: the reference of the new dictionary, or the exception. *)
Definition convert (self : t) (state_dict : loc)
    (placeholder_bounds : placeholder_bounds_t) : Run loc :=
  state_mappings ← _get_mappings self state_dict placeholder_bounds;
  unused_original_keys ← dict_keys state_dict;
  converted_state_dict ← new_dict;
  unused_original_keys ←
    for_each (convert_mapping state_dict converted_state_dict)
      unused_original_keys state_mappings;
  if bool_decide (0 < size unused_original_keys)%nat
  then raise (KeysNotConverted (Py.sorted unused_original_keys))
  else mret converted_state_dict.

End StateConverter.

(** ** The loop of [convert] as a function of the source dictionary

    [convert] only reads the source dictionary, so what an iteration writes
    is a function of its contents. These definitions are the functional
    reading of [convert_mapping] that the lemmas below relate to the code. *)

Section functional_reading.
Import StateMapping.

Definition lookup_key (d : gmap string value) (k : string) : result value :=
  match d !! k with
  | Some v => Ok v
  | None => Raise KeyError
  end.

(** The items one iteration assigns, in order, or the exception it ends
    with. *)
Definition mapping_output (d : gmap string value) (mapping : StateMapping.t)
    : result (list (string * value)) :=
  first ← match source_keys mapping with
          | [] => Raise IndexError
          | key :: _ => lookup_key d key
          end;
  match first with
  | VTensor _ =>
      states ← mapM (lookup_key d) (source_keys mapping);
      original_state ← torch_cat states (source_concat_dim mapping);
      original_state ← StateConverter.transform mapping original_state;
      state_chunks ← Torch.chunk original_state (length (dest_keys mapping))
                       (dest_chunk_dim mapping);
      Ok (zip (dest_keys mapping)
              (VTensor ∘ Torch.contiguous <$> state_chunks))
  | VObject _ =>
      Raise (NonTensorStates (length (source_keys mapping))
               (length (dest_keys mapping)))
  end.

(** [acc[k] = v] for every item, in order. *)
Definition write_items (items : list (string * value))
    (acc : gmap string value) : gmap string value :=
  foldl (λ acc kv, <[kv.1 := kv.2]> acc) acc items.

(** The loop: the destination dictionary and the unused keys after the
    mappings that were applied, with the exception that ended it, if any. *)
Fixpoint apply_mappings (d acc : gmap string value) (unused : gset string)
    (mappings : list StateMapping.t)
    : gmap string value * result (gset string) :=
  match mappings with
  | [] => (acc, Ok unused)
  | mapping :: mappings' =>
      match mapping_output d mapping with
      | Ok items =>
          apply_mappings d (write_items items acc)
            (unused ∖ list_to_set (source_keys mapping)) mappings'
      | Raise e => (acc, Raise e)
      end
  end.

(** The keys some mapping reads. *)
Definition claimed (mappings : list StateMapping.t) : gset string :=
  ⋃ (list_to_set ∘ source_keys <$> mappings).
End functional_reading.

(** An iteration of the loop that ends without an exception. *)
Definition applies (d : gmap string value) (m : StateMapping.t) : Prop :=
  ∃ items, mapping_output d m = Ok items.

(** The exceptions an iteration of the loop can end with. *)
Definition mapping_error (e : exn) : Prop :=
  match e with
  | IndexError | KeyError | TypeError | TensorError _ | NonTensorStates _ _ =>
      True
  | _ => False
  end.

(** ** Notions used in the statements *)


(** The characters of a printed integer. *)
Definition numeral (c : ascii) : bool :=
  bool_decide (c ∈ ["0"; "1"; "2"; "3"; "4"; "5"; "6"; "7"; "8"; "9"; "-"]%char).

Fixpoint all_chars (P : ascii → bool) (s : string) : bool :=
  match s with
  | EmptyString => true
  | String c s' => P c && all_chars P s'
  end.

(** A string that can stand for a placeholder: not empty, and free of the
    characters of a printed integer. *)
Definition token_like (p : string) : Prop :=
  p ≠ EmptyString ∧ all_chars (negb ∘ numeral) p = true.

(** The template with every placeholder that has a value replaced by the
    decimal form of the value, in the order of the assignment. *)
Definition substitute (items : placeholder_values_t) (template : string)
    : string :=
  foldl (λ key '(placeholder, value),
           match value with
           | Some v => Py.replace (token placeholder) (Py.str v) key
           | None => key
           end) template items.

(** A side of a template passes the assertions of [_templates_to_keys]: with
    a per-placeholder expansion the template is one string and holds the
    placeholder. *)
Definition side_well_formed (keys : template_keys)
    (per : option TemplatePlaceholder) : Prop :=
  match per with
  | None => True
  | Some p => ∃ s, keys = KeyStr s ∧ Py.contains (token p) s = true
  end.

(** ** Templates and inputs of the examples *)

(** The template of the per-layer attention weight. *)
Definition attn_q_template : StateMappingTemplate.t :=
  StateMappingTemplate.mk
    (KeyStr "blocks.[layer].attn.w_q")
    (KeyStr "model.layers.[layer].self_attn.q_proj.weight")
    (Some LAYER) (Some LAYER) 0 None None None 0.

(** A tensor of 32-bit floating-point numbers with the given shape and
    elements. *)
Definition float32 (shape : list nat) (data : list Z) : Torch.Tensor :=
  Torch.mk Torch.Float32 shape (Torch.Elem <$> data).

(** A one-dimensional tensor. *)
Definition vec (data : list Z) : Torch.Tensor :=
  float32 [length data] data.

(** A template with the default transform parameters. *)
Definition plain_template (source dest : template_keys)
    (source_per dest_per : option TemplatePlaceholder)
    : StateMappingTemplate.t :=
  StateMappingTemplate.mk source dest source_per dest_per 0 None None None 0.

(** A mapping with the default transform parameters. *)
Definition plain_mapping (source dest : list string) : StateMapping.t :=
  StateMapping.mk source dest 0 None None None 0.

Definition attn_converter : StateConverter.t :=
  StateConverter.mk [attn_q_template].

(** The two attention weights and a key no template claims. *)
Definition attn_source_extra : gmap string value :=
  {[ "blocks.0.attn.w_q" := VTensor (vec [1; 2]);
     "blocks.1.attn.w_q" := VTensor (vec [3; 4]);
     "lm_head.weight" := VTensor (vec [5]) ]}.

(** One source tensor of size 10 split over three destination keys. *)
Definition split3_converter : StateConverter.t :=
  StateConverter.mk
    [plain_template (KeyStr "w") (KeyTuple ["a"; "b"; "c"]) None None].
Definition split3_source : gmap string value :=
  {[ "w" := VTensor (vec [0; 1; 2; 3; 4; 5; 6; 7; 8; 9]) ]}.

(** One source tensor of size 5 split over four destination keys. *)
Definition split4_converter : StateConverter.t :=
  StateConverter.mk
    [plain_template (KeyStr "w") (KeyTuple ["a"; "b"; "c"; "d"]) None None].
Definition split4_source : gmap string value :=
  {[ "w" := VTensor (vec [0; 1; 2; 3; 4]) ]}.


(** Two source keys merged into one destination key. *)
Definition merge_converter : StateConverter.t :=
  StateConverter.mk
    [plain_template (KeyTuple ["a"; "b"]) (KeyStr "c") None None].
(** One key copied. *)
Definition copy_converter : StateConverter.t :=
  StateConverter.mk [plain_template (KeyStr "a") (KeyStr "c") None None].

(** A template whose destination names the layer without expanding it. *)
Definition layer_to_one_template : StateMappingTemplate.t :=
  plain_template (KeyStr "blocks.[layer].w") (KeyStr "model.[layer].w")
    (Some LAYER) None.
(** A template that stacks the layers into one destination key. *)
Definition layer_stack_template : StateMappingTemplate.t :=
  plain_template (KeyStr "blocks.[layer].w") (KeyStr "model.w")
    (Some LAYER) None.

(** A template whose destination expands over the layer without naming
    it. *)
Definition layer_dest_no_token_template : StateMappingTemplate.t :=
  plain_template (KeyStr "blocks.[layer].w") (KeyStr "model.w")
    (Some LAYER) (Some LAYER).

(** Two templates that read the same source key. *)
Definition double_converter : StateConverter.t :=
  StateConverter.mk
    [plain_template (KeyStr "a") (KeyStr "b") None None;
     plain_template (KeyStr "a") (KeyStr "c") None None].

(** A template that expands over a placeholder its string does not hold. *)
Definition no_token_template : StateMappingTemplate.t :=
  plain_template (KeyStr "blocks.w") (KeyStr "model.w") (Some LAYER) None.

(** A template that unflattens a dimension by the number of experts. *)
Definition experts_unflatten_template : StateMappingTemplate.t :=
  StateMappingTemplate.mk (KeyStr "experts.w") (KeyStr "mlp.w") None None
    0 (Some (0, [DimPlaceholder EXPERT; DimInt (-1)])) (Some [1; 0; 2])
    (Some (0, 1)) 1.

(** ** Auxiliary notions for the tensors *)

(** The parts of [t] of the given sizes along dimension [d], one after the
    other from [start] on: what [split_with_sizes] of the tensor library
    returns, and what [torch.chunk] is computed by. *)
Fixpoint split_with_sizes (t : Torch.Tensor) (d start : nat)
    (sizes : list nat) : list Torch.Tensor :=
  match sizes with
  | [] => []
  | size :: sizes' =>
      Torch.narrow t d start size
      :: split_with_sizes t d (start + size) sizes'
  end.

(** The number of elements of the tensors of a list, by their shapes. *)
Definition total_numel (ts : list Torch.Tensor) : nat :=
  sum_list ((λ t, Torch.numel (Torch.shape t)) <$> ts).

(** ** Proof automation *)

(** Case analysis on every branch and every decision of a definition. *)
Ltac torch_cases :=
  repeat first [case_match | case_bool_decide]; simplify_eq/=; try done.

(** * Properties *)

Import StateMapping.

(** ** The [result] and [Run] monads *)

Lemma run_bind {A B} (m : Run A) (f : A → Run B) (h : store) :
  (m ≫= f) h =
  match m h with
  | (h', Ok a) => f a h'
  | (h', Raise e) => (h', Raise e)
  end.
Proof. reflexivity. Qed.

Lemma getitem_run sd k (h : store) :
  getitem sd k h = (h, lookup_key (deref h sd) k).
Proof. reflexivity. Qed.

Lemma mapM_getitem sd (keys : list string) (h : store) :
  mapM (getitem sd) keys h = (h, mapM (lookup_key (deref h sd)) keys).
Proof.
  induction keys as [|k keys IH]; [reflexivity|].
  cbn [mapM]. rewrite run_bind, getitem_run.
  destruct (lookup_key (deref h sd) k) as [v|]; [|reflexivity].
  rewrite run_bind, IH. simpl.
  by destruct (mapM (lookup_key (deref h sd)) keys).
Qed.

Lemma deref_insert_ne (h : store) l l' d :
  l ≠ l' → deref (<[l := d]> h) l' = deref h l'.
Proof. intros. unfold deref. by rewrite lookup_insert_ne. Qed.
Lemma deref_Some (h : store) l d : h !! l = Some d → deref h l = d.
Proof. unfold deref. by intros ->. Qed.

Lemma mapM_setitem out (items : list (string * Torch.Tensor)) (h : store) acc :
  h !! out = Some acc →
  ∃ us, mapM (λ '(hf_key, state_chunk),
          setitem out hf_key (VTensor (Torch.contiguous state_chunk))) items h
  = (<[out := write_items
                (prod_map id (VTensor ∘ Torch.contiguous) <$> items) acc]> h,
     Ok us).
Proof.
  revert h acc. induction items as [|[k c] items IH]; intros h acc Hout.
  - exists []. simpl. rewrite insert_id; done.
  - cbn [mapM]. setoid_rewrite run_bind. unfold setitem at 1.
    rewrite (deref_Some _ _ _ Hout).
    edestruct (IH (<[out:=<[k:=VTensor (Torch.contiguous c)]> acc]> h)) as [us Hus].
    { apply lookup_insert_eq. }
    setoid_rewrite run_bind. rewrite Hus. eexists. simpl.
    by rewrite insert_insert_eq.
Qed.

Lemma zip_fmap_r' {A B C} (f : B → C) (l : list A) (k : list B) :
  zip l (f <$> k) = prod_map id f <$> zip l k.
Proof.
  revert k. induction l as [|x l IH]; intros [|y k]; simpl; f_equal; auto.
Qed.

Lemma convert_mapping_run sd out unused m (h : store) acc :
  h !! out = Some acc →
  StateConverter.convert_mapping sd out unused m h =
  match mapping_output (deref h sd) m with
  | Ok items =>
      (<[out := write_items items acc]> h,
       Ok (unused ∖ list_to_set (source_keys m)))
  | Raise e => (h, Raise e)
  end.
Proof.
  intros Hout. unfold StateConverter.convert_mapping, mapping_output.
  rewrite run_bind.
  assert (match source_keys m with
          | [] => raise IndexError
          | key :: _ => getitem sd key
          end h = (h, match source_keys m with
                      | [] => Raise IndexError
                      | key :: _ => lookup_key (deref h sd) key
                      end)) as ->.
  { by destruct (source_keys m). }
  destruct (match source_keys m with [] => _ | _ => _ end) as [[t|n]|e];
    simpl; [|done..].
  rewrite run_bind, mapM_getitem.
  destruct (mapM _ (source_keys m)) as [states|]; simpl; [|done].
  rewrite run_bind. unfold lift at 1.
  destruct (torch_cat _ _) as [st|]; simpl; [|done].
  rewrite run_bind. unfold lift at 1.
  destruct (StateConverter.transform _ _) as [st'|]; simpl; [|done].
  rewrite run_bind. unfold lift at 1.
  destruct (Torch.chunk _ _ _) as [chunks|]; simpl; [|done].
  rewrite run_bind.
  destruct (mapM_setitem out (zip (dest_keys m) chunks) h acc Hout) as [us ->].
  by rewrite zip_fmap_r'.
Qed.

Lemma for_each_run sd out d ms : ∀ unused (h : store) acc,
  out ≠ sd → h !! out = Some acc → deref h sd = d →
  for_each (StateConverter.convert_mapping sd out) unused ms h =
  let '(acc', r) := apply_mappings d acc unused ms in (<[out := acc']> h, r).
Proof.
  induction ms as [|m ms IH]; intros unused h acc Hne Hout Hd; simpl.
  - by rewrite insert_id.
  - rewrite run_bind, (convert_mapping_run _ _ _ _ _ acc), Hd by done.
    destruct (mapping_output d m) as [items|e]; [|by rewrite insert_id].
    rewrite (IH _ _ (write_items items acc)); [|done| |].
    + destruct (apply_mappings _ _ _ _). by rewrite insert_insert_eq.
    + apply lookup_insert_eq.
    + by rewrite deref_insert_ne.
Qed.

Lemma convert_run self sd bounds (h : store) d :
  h !! sd = Some d →
  StateConverter.convert self sd bounds h =
  match StateConverter.resolved_mappings self bounds with
  | Raise e => (h, Raise e)
  | Ok all =>
      let '(acc, r) :=
        apply_mappings d ∅ (dom d)
          (List.filter (StateConverter.relevant (dom d)) all) in
      (<[fresh (dom h) := acc]> h,
       match r with
       | Ok unused =>
           if bool_decide (0 < size unused)%nat
           then Raise (KeysNotConverted (Py.sorted unused))
           else Ok (fresh (dom h))
       | Raise e => Raise e
       end)
  end.
Proof.
  intros Hsd. unfold StateConverter.convert, StateConverter._get_mappings.
  rewrite !run_bind. unfold lift at 1.
  destruct (StateConverter.resolved_mappings self bounds) as [all|e]; [|done].
  simpl. rewrite !run_bind. simpl. rewrite !(deref_Some _ _ _ Hsd).
  assert (fresh (dom h) ≠ sd) as Hne.
  { intros Heq. apply (is_fresh (dom h)). rewrite Heq. by apply elem_of_dom. }
  rewrite run_bind. unfold new_dict at 1. rewrite run_bind.
  rewrite (for_each_run sd _ d _ _ _ ∅); [|done| |].
  - destruct (apply_mappings _ _ _ _) as [acc [unused|e]].
    + rewrite insert_insert_eq. by case_bool_decide.
    + by rewrite insert_insert_eq.
  - apply lookup_insert_eq.
  - rewrite deref_insert_ne by done. by apply deref_Some.
Qed.

Lemma get_mappings_run self sd bounds (h : store) :
  StateConverter.get_mappings self sd bounds h =
  (h, all ← StateConverter.resolved_mappings self bounds;
      Ok (List.filter (StateConverter.relevant (dom (deref h sd))) all)).
Proof.
  unfold StateConverter.get_mappings, StateConverter._get_mappings.
  rewrite run_bind. unfold lift at 1.
  by destruct (StateConverter.resolved_mappings self bounds).
Qed.

Lemma claimed_cons m ms :
  claimed (m :: ms) = list_to_set (source_keys m) ∪ claimed ms.
Proof. reflexivity. Qed.

Lemma elem_of_claimed k ms :
  k ∈ claimed ms ↔ ∃ m, m ∈ ms ∧ k ∈ source_keys m.
Proof.
  induction ms as [|m ms IH].
  - unfold claimed. simpl. split; [set_solver|]. intros (m & Hm & _).
    by apply elem_of_nil in Hm.
  - rewrite claimed_cons, elem_of_union, IH, elem_of_list_to_set. split.
    + intros [Hk|(m' & Hm' & Hk)]; [exists m|exists m'];
        split; auto; [left|by right].
    + intros (m' & [->|Hm']%elem_of_cons & Hk); [by left|right; eauto].
Qed.

Lemma apply_mappings_Ok d ms : ∀ acc unused acc' unused',
  apply_mappings d acc unused ms = (acc', Ok unused') →
  unused' = unused ∖ claimed ms ∧ Forall (applies d) ms.
Proof.
  induction ms as [|m ms IH]; intros acc unused acc' unused'; simpl.
  - intros [= _ <-]. split; [|constructor]. unfold claimed. set_solver.
  - destruct (mapping_output d m) as [items|e] eqn:Hm; [|done].
    intros [-> Hms]%IH. split.
    + rewrite claimed_cons. set_solver.
    + constructor; [by exists items|done].
Qed.

Lemma apply_mappings_all d ms : ∀ acc unused,
  Forall (applies d) ms →
  ∃ acc', apply_mappings d acc unused ms = (acc', Ok (unused ∖ claimed ms)).
Proof.
  induction ms as [|m ms IH]; intros acc unused Hms; simpl.
  - exists acc. do 2 f_equal. unfold claimed. set_solver.
  - apply Forall_cons in Hms as [[items ->] Hms].
    destruct (IH (write_items items acc)
                 (unused ∖ list_to_set (source_keys m)) Hms) as [acc' ->].
    exists acc'. do 2 f_equal. rewrite claimed_cons. set_solver.
Qed.

Lemma apply_mappings_Raise d ms : ∀ acc unused,
  Exists (λ m, ∃ e, mapping_output d m = Raise e) ms →
  ∃ acc' e, apply_mappings d acc unused ms = (acc', Raise e).
Proof.
  induction ms as [|m ms IH]; intros acc unused Hex; simpl.
  - by apply Exists_nil in Hex.
  - destruct (mapping_output d m) as [items|e] eqn:Hm; [|by eauto].
    apply Exists_cons in Hex as [[e He]|Hex]; [congruence|]. by apply IH.
Qed.

Lemma elem_of_size_pos (X : gset string) k : k ∈ X → (0 < size X)%nat.
Proof.
  intros Hk. assert (size X ≠ 0%nat); [|lia].
  apply size_non_empty_iff. set_solver.
Qed.

(** [sorted] lists the set, in order and without repetition. *)
Lemma sorted_spec (s : gset string) :
  Sorted String.le (Py.sorted s) ∧ NoDup (Py.sorted s)
  ∧ ∀ k, k ∈ Py.sorted s ↔ k ∈ s.
Proof.
  unfold Py.sorted. split; [apply Sorted_merge_sort, _|]. split.
  - rewrite merge_sort_Permutation. apply NoDup_elements.
  - intros k. by rewrite merge_sort_Permutation, elem_of_elements.
Qed.


(** The exceptions of the tensor operations: an [IndexError] for a
    dimension out of range, a [TypeError] for [permute] without dimensions,
    and the errors of the operation. *)
Lemma cat_Raise ts dim e :
  Torch.cat ts dim = Raise e → e = TensorError OpCat ∨ e = IndexError.
Proof. unfold Torch.cat. intros. torch_cases; auto. Qed.
Lemma chunk_Raise t n dim e :
  Torch.chunk t n dim = Raise e → e = TensorError OpChunk ∨ e = IndexError.
Proof. unfold Torch.chunk. intros. torch_cases; auto. Qed.
Lemma unflatten_Raise t dim sizes e :
  Torch.unflatten t dim sizes = Raise e →
  e = TensorError OpUnflatten ∨ e = IndexError.
Proof. unfold Torch.unflatten. intros. torch_cases; auto. Qed.
Lemma permute_dims_Raise n dims e : ∀ seen,
  Torch.permute_dims n dims seen = Raise e →
  e = TensorError OpPermute ∨ e = IndexError.
Proof.
  induction dims as [|dim dims IH]; intros seen; simpl; [done|].
  destruct (Torch.wrap_dim n dim) as [d|]; [|intros [= <-]; auto].
  case_bool_decide; [intros [= <-]; auto|].
  destruct (Torch.permute_dims n dims (d :: seen)) as [ds|e'] eqn:Hds;
    simpl; [done|].
  intros [= <-]. by eapply IH.
Qed.
Lemma permute_Raise t dims e :
  Torch.permute t dims = Raise e →
  e = TensorError OpPermute ∨ e = IndexError
  ∨ (e = TypeError ∧ dims = []).
Proof.
  unfold Torch.permute. case_bool_decide; [intros [= <-]; auto|].
  case_bool_decide; [intros [= <-]; auto|].
  destruct (Torch.permute_dims _ _ _) as [ds|e'] eqn:Hds; simpl; [done|].
  intros [= <-]. apply permute_dims_Raise in Hds as [->| ->]; auto.
Qed.
Lemma flatten_Raise t s e' e :
  Torch.flatten t s e' = Raise e →
  e = TensorError OpFlatten ∨ e = IndexError.
Proof. unfold Torch.flatten. intros. torch_cases; auto. Qed.

Lemma transform_Raise m t e :
  StateConverter.transform m t = Raise e →
  (∃ op, e = TensorError op) ∨ e = IndexError
  ∨ (e = TypeError ∧ dims_permutation m = Some []).
Proof.
  unfold StateConverter.transform. intros H.
  destruct (match unflatten_dim m with Some _ => _ | None => _ end)
    as [t1|e1] eqn:H1; simpl in H.
  2:{ injection H as <-. destruct (unflatten_dim m) as [[dim sizes]|];
        [|done]. apply unflatten_Raise in H1 as [->| ->]; eauto. }
  destruct (match dims_permutation m with Some _ => _ | None => _ end)
    as [t2|e2] eqn:H2; simpl in H.
  2:{ injection H as <-. destruct (dims_permutation m) as [dims|]; [|done].
      apply permute_Raise in H2 as [->|[->|[-> ->]]]; eauto. }
  destruct (flatten_dims m) as [[a b]|]; [|done].
  apply flatten_Raise in H as [->| ->]; eauto.
Qed.

Lemma mapM_lookup_key_Raise d keys e :
  mapM (lookup_key d) keys = Raise e → e = KeyError.
Proof.
  induction keys as [|k keys IH]; simpl; [done|].
  destruct (lookup_key d k) eqn:Hk; simpl.
  2:{ unfold lookup_key in Hk. intros. destruct (d !! k); by simplify_eq. }
  destruct (mapM (lookup_key d) keys); simpl; [done|].
  intros [= <-]. by apply IH.
Qed.

Lemma mapping_output_Raise d m e :
  mapping_output d m = Raise e → mapping_error e.
Proof.
  unfold mapping_output. intros H.
  destruct (source_keys m) as [|k ks] eqn:Hks; simpl in H;
    [simplify_eq; exact I|].
  destruct (lookup_key d k) as [[t|n]|e'] eqn:Hk; simpl in H.
  - destruct (mapM (lookup_key d) ks) as [states|] eqn:Hst; simpl in H;
      [|apply mapM_lookup_key_Raise in Hst; simplify_eq; exact I].
    destruct (torch_cat _ _) as [st|] eqn:Hcat; simpl in H.
    2:{ simplify_eq. unfold torch_cat in Hcat.
        destruct (mapM _ (_ :: _)); [|simplify_eq; exact I].
        apply cat_Raise in Hcat as [->| ->]; exact I. }
    destruct (StateConverter.transform m st) as [st'|] eqn:Htr; simpl in H.
    2:{ apply transform_Raise in Htr as [[op ->]|[->|[-> _]]];
          simplify_eq; exact I. }
    destruct (Torch.chunk st' _ _) as [chunks|] eqn:Hch; simpl in H; [done|].
    apply chunk_Raise in Hch as [->| ->]; simplify_eq; exact I.
  - simplify_eq; exact I.
  - unfold lookup_key in Hk. destruct (d !! k); simplify_eq; exact I.
Qed.

Lemma apply_mappings_error d ms : ∀ acc unused acc' e,
  apply_mappings d acc unused ms = (acc', Raise e) → mapping_error e.
Proof.
  induction ms as [|m ms IH]; intros acc unused acc' e; simpl; [done|].
  destruct (mapping_output d m) as [items|e'] eqn:Hm; [by apply IH|].
  intros [= _ <-]. by apply mapping_output_Raise in Hm.
Qed.

(** C1. [convert] returns a destination dictionary only when every key of
    the source dictionary is read by at least one of the mappings
    [get_mappings] discovers. When every mapping has been applied and some
    source key is read by none, [convert] raises [KeysNotConverted keys];
    [keys] lists exactly the source keys no mapping reads, in ascending order
    and without repetition, and no dictionary is returned. When resolving the
    templates raises, [convert] raises the same exception. *)
Theorem convert_coverage self sd bounds (h : store) d :
  h !! sd = Some d →
  let r := (StateConverter.convert self sd bounds h).2 in
  match (StateConverter.get_mappings self sd bounds h).2 with
  | Raise e => r = Raise e
  | Ok ms =>
      (∀ out, r = Ok out → ∀ k, k ∈ dom d → ∃ m, m ∈ ms ∧ k ∈ source_keys m)
      ∧ (∀ keys, r = Raise (KeysNotConverted keys) →
           keys ≠ [] ∧ Sorted String.le keys ∧ NoDup keys
           ∧ ∀ k, k ∈ keys ↔ k ∈ dom d ∧ ∀ m, m ∈ ms → k ∉ source_keys m)
      ∧ ((∀ m, m ∈ ms → ∃ items, mapping_output d m = Ok items) →
         (∃ k, k ∈ dom d ∧ ∀ m, m ∈ ms → k ∉ source_keys m) →
         ∃ keys, r = Raise (KeysNotConverted keys))
  end.
Proof.
  intros Hsd. rewrite (convert_run _ _ _ _ d Hsd), get_mappings_run.
  rewrite (deref_Some _ _ _ Hsd).
  destruct (StateConverter.resolved_mappings self bounds) as [all|e]; simpl;
    [|done].
  set (ms := List.filter _ all).
  destruct (apply_mappings d ∅ (dom d) ms) as [acc [unused|e]] eqn:Hrun;
    simpl.
  2:{ split; [done|]. split.
      - intros keys [= ->]. by apply apply_mappings_error in Hrun.
      - intros Hall _. exfalso.
        destruct (apply_mappings_all d ms ∅ (dom d)) as [acc' Hacc'].
        { apply Forall_forall. exact Hall. }
        congruence. }
  apply apply_mappings_Ok in Hrun as [-> Hall].
  assert (∀ k, k ∈ dom d ∖ claimed ms ↔
               k ∈ dom d ∧ ∀ m, m ∈ ms → k ∉ source_keys m) as Hunused.
  { intros k. rewrite elem_of_difference, elem_of_claimed. naive_solver. }
  case_bool_decide as Hsize.
  - split; [done|]. split; [|by eauto].
    intros keys [= <-].
    destruct (sorted_spec (dom d ∖ claimed ms)) as (Hsorted & Hnodup & Hin).
    split; [|split; [done|split; [done|]]].
    + intros Hnil. apply size_pos_elem_of in Hsize as [k Hk].
      apply Hin in Hk. rewrite Hnil in Hk. by apply elem_of_nil in Hk.
    + intros k. by rewrite Hin.
  - split; [|split; [done|]].
    + intros out _ k Hk.
      apply elem_of_claimed. destruct (decide (k ∈ claimed ms)); [done|].
      exfalso. apply Hsize. apply (elem_of_size_pos _ k).
      set_solver.
    + intros _ (k & Hk & Hnone). exfalso. apply Hsize.
      apply (elem_of_size_pos _ k). by apply Hunused.
Qed.

(** C9. [convert] and [get_mappings] leave the source dictionary as it was,
    whether they return or raise: after [convert] the source reference holds
    the same dictionary, every dictionary that existed is unchanged, and a
    returned reference is new and differs from the source; [get_mappings]
    changes nothing in the store. *)
Theorem convert_frame self sd bounds (h : store) d :
  h !! sd = Some d →
  let h' := (StateConverter.convert self sd bounds h).1 in
  h' !! sd = Some d
  ∧ (∀ l, is_Some (h !! l) → h' !! l = h !! l)
  ∧ (∀ out, (StateConverter.convert self sd bounds h).2 = Ok out →
       h !! out = None ∧ out ≠ sd ∧ is_Some (h' !! out))
  ∧ (StateConverter.get_mappings self sd bounds h).1 = h.
Proof.
  intros Hsd. rewrite (convert_run _ _ _ _ d Hsd), get_mappings_run.
  assert (h !! fresh (dom h) = None) as Hfresh.
  { apply not_elem_of_dom, is_fresh. }
  destruct (StateConverter.resolved_mappings self bounds) as [all|e]; simpl.
  2:{ by repeat split. }
  destruct (apply_mappings _ _ _ _) as [acc r']. simpl.
  assert (∀ l, is_Some (h !! l) → <[fresh (dom h):=acc]> h !! l = h !! l)
    as Hframe.
  { intros l [x Hl]. apply lookup_insert_ne. congruence. }
  split; [by rewrite Hframe|]. split; [done|]. split; [|done].
  intros out Hout.
  assert (out = fresh (dom h)) as ->.
  { destruct r' as [unused|]; [|done]. by case_bool_decide; simplify_eq. }
  split; [done|]. split; [congruence|]. by rewrite lookup_insert_eq.
Qed.

Lemma write_items_app items1 items2 acc :
  write_items (items1 ++ items2) acc = write_items items2 (write_items items1 acc).
Proof. apply foldl_app. Qed.

Lemma apply_mappings_outputs d ms : ∀ acc unused,
  Forall (applies d) ms →
  ∃ outputs,
    Forall2 (λ m items, mapping_output d m = Ok items) ms outputs
    ∧ apply_mappings d acc unused ms
      = (write_items (concat outputs) acc, Ok (unused ∖ claimed ms)).
Proof.
  induction ms as [|m ms IH]; intros acc unused Hms; simpl.
  - exists []. split; [constructor|]. do 2 f_equal. unfold claimed. set_solver.
  - apply Forall_cons in Hms as [[items Hm] Hms]. rewrite Hm.
    destruct (IH (write_items items acc)
                 (unused ∖ list_to_set (source_keys m)) Hms)
      as (outputs & Hout & ->).
    exists (items :: outputs). split; [by constructor|].
    simpl. rewrite write_items_app. do 2 f_equal.
    rewrite claimed_cons. set_solver.
Qed.

(** C7 (as amended). Removing the source keys of a mapping from the unused
    set never raises, whether or not the keys are still in the set. When
    every discovered mapping applies and every source key is read by some
    mapping, [convert] returns, also when a key is read by two mappings, and
    the destination dictionary holds the items of all the mappings, written
    in discovery order (a later item for the same key replaces the
    earlier). *)
Theorem double_claim_completes self sd bounds (h : store) d ms :
  h !! sd = Some d →
  StateConverter.get_mappings self sd bounds h = (h, Ok ms) →
  (∀ m, m ∈ ms → ∃ items, mapping_output d m = Ok items) →
  (∀ k, k ∈ dom d → ∃ m, m ∈ ms ∧ k ∈ source_keys m) →
  (∀ out acc unused m,
     m ∈ ms → h !! out = Some acc →
     (StateConverter.convert_mapping sd out unused m h).2
     = Ok (unused ∖ list_to_set (source_keys m)))
  ∧ ∃ out outputs,
      (StateConverter.convert self sd bounds h).2 = Ok out
      ∧ Forall2 (λ m items, mapping_output d m = Ok items) ms outputs
      ∧ (StateConverter.convert self sd bounds h).1 !! out
        = Some (write_items (concat outputs) ∅).
Proof.
  intros Hsd Hms Hall Hcover. split.
  { intros out acc unused m Hm Hout. destruct (Hall m Hm) as [items Hitems].
    rewrite (convert_mapping_run _ _ _ _ _ acc Hout), (deref_Some _ _ _ Hsd).
    by rewrite Hitems. }
  rewrite (convert_run _ _ _ _ d Hsd).
  rewrite get_mappings_run, (deref_Some _ _ _ Hsd) in Hms.
  destruct (StateConverter.resolved_mappings self bounds) as [all|e];
    simpl in Hms; [|done].
  injection Hms as <-. set (ms := List.filter _ all) in *.
  destruct (apply_mappings_outputs d ms ∅ (dom d)) as (outputs & Hout & ->).
  { by apply Forall_forall. }
  rewrite bool_decide_eq_false_2.
  - eexists _, outputs. split; [done|]. split; [done|].
    simpl. by rewrite lookup_insert_eq.
  - intros [k Hk]%size_pos_elem_of.
    apply elem_of_difference in Hk as [Hk Hnot]. apply Hnot.
    apply elem_of_claimed. by apply Hcover.
Qed.

Lemma result_mapM_Ok {A B} (f : A → result B) l k :
  mapM f l = Ok k ↔ Forall2 (λ x y, f x = Ok y) l k.
Proof.
  revert k. induction l as [|x l IH]; intros k; simpl.
  - split; [intros [= <-]; constructor|by intros ->%Forall2_nil_inv_l].
  - split.
    + destruct (f x) as [y|] eqn:Hy; simpl; [|done].
      destruct (mapM f l) as [k'|]; simpl; [|done].
      intros [= <-]. constructor; [done|]. by apply IH.
    + intros (y & k' & Hy & Hk' & ->)%Forall2_cons_inv_l.
      rewrite Hy. simpl. apply IH in Hk'. by rewrite Hk'.
Qed.

Lemma result_mapM_Raise {A B} (f : A → result B) l e :
  mapM f l = Raise e → ∃ x, x ∈ l ∧ f x = Raise e.
Proof.
  induction l as [|x l IH]; simpl; [done|].
  destruct (f x) as [y|e'] eqn:Hy; simpl.
  - destruct (mapM f l) as [k'|]; simpl; [done|].
    intros [= <-]. destruct IH as (x' & Hx' & He); [done|].
    exists x'. split; [by right|done].
  - intros [= <-]. exists x. split; [by left|done].
Qed.

Lemma result_mapM_is_Ok {A B} (f : A → result B) l :
  (∀ x, x ∈ l → ∃ y, f x = Ok y) → ∃ k, mapM f l = Ok k.
Proof.
  induction l as [|x l IH]; intros Hall; [by eexists|]. simpl.
  destruct (Hall x) as [y ->]; [by left|]. simpl.
  destruct IH as [k ->]; [|by eexists].
  intros x' Hx'. apply Hall. by right.
Qed.

Lemma relevant_spec (state_keys : gset string) m :
  StateConverter.relevant state_keys m = true
  ↔ ∀ k, k ∈ source_keys m → k ∈ state_keys.
Proof.
  unfold StateConverter.relevant. rewrite forallb_forall.
  setoid_rewrite <-list_elem_of_In. by setoid_rewrite bool_decide_eq_true.
Qed.

Lemma elem_of_List_filter {A} (f : A → bool) l x :
  x ∈ List.filter f l ↔ x ∈ l ∧ f x = true.
Proof. by rewrite !list_elem_of_In, filter_In. Qed.

Lemma lookup_key_Ok (d : gmap string value) k v :
  lookup_key d k = Ok v ↔ d !! k = Some v.
Proof. unfold lookup_key. destruct (d !! k); naive_solver. Qed.

Lemma mapM_lookup_key_Ok (d : gmap string value) keys states :
  mapM (lookup_key d) keys = Ok states ↔
  Forall2 (λ k v, d !! k = Some v) keys states.
Proof.
  rewrite result_mapM_Ok.
  split; intros H; (eapply Forall2_impl; [exact H|]); intros k v;
    apply lookup_key_Ok.
Qed.

Lemma mapM_lookup_key_relevant (d : gmap string value) keys :
  (∀ k, k ∈ keys → k ∈ dom d) → ∃ states, mapM (lookup_key d) keys = Ok states.
Proof.
  intros Hkeys. apply result_mapM_is_Ok. intros k Hk.
  apply Hkeys, elem_of_dom in Hk as [v Hv]. exists v. by apply lookup_key_Ok.
Qed.

Lemma apply_mappings_prefix d pre m post acc unused :
  Forall (applies d) pre →
  ∃ acc' unused',
    apply_mappings d acc unused (pre ++ m :: post)
    = apply_mappings d acc' unused' (m :: post).
Proof.
  revert acc unused. induction pre as [|m' pre IH]; intros acc unused Hpre.
  - by exists acc, unused.
  - apply Forall_cons in Hpre as [[items Hm'] Hpre]. simpl. rewrite Hm'.
    apply IH, Hpre.
Qed.

Lemma mapM_lookup_key_object d keys k n states :
  k ∈ keys → d !! k = Some (VObject n) →
  mapM (lookup_key d) keys = Ok states →
  mapM (λ v, match v with VTensor t => Some t | VObject _ => None end) states
  = None.
Proof.
  revert states. induction keys as [|k' keys IH]; intros states Hk Hd; simpl.
  - by apply elem_of_nil in Hk.
  - destruct (lookup_key d k') as [v|] eqn:Hk'; simpl; [|done].
    destruct (mapM (lookup_key d) keys) as [vs|]; simpl; [|done].
    intros [= <-]. apply elem_of_cons in Hk as [->|Hk].
    + unfold lookup_key in Hk'. rewrite Hd in Hk'. by simplify_eq.
    + simpl. destruct v; [|done]. by rewrite (IH vs Hk Hd eq_refl).
Qed.

(** A mapping that reads a value that is not a tensor ends with an
    exception. *)
Lemma mapping_output_object d m k n :
  k ∈ source_keys m → d !! k = Some (VObject n) →
  ∃ e, mapping_output d m = Raise e.
Proof.
  intros Hk Hd. unfold mapping_output.
  destruct (source_keys m) as [|k0 ks] eqn:Hks; simpl; [by eauto|].
  destruct (lookup_key d k0) as [[t|n']|e] eqn:Hk0; simpl; [|by eauto..].
  destruct (mapM (lookup_key d) ks) as [states|] eqn:Hst; simpl; [|by eauto].
  unfold torch_cat.
  rewrite (mapM_lookup_key_object d (k0 :: ks) k n (VTensor t :: states));
    [by eauto|done|done|].
  simpl. by rewrite Hk0, Hst.
Qed.

(** A mapping whose source keys exist, the first with a tensor and another
    with a value that is not a tensor, ends with the [TypeError] of the
    concatenation. *)
Lemma mapping_output_later_object d m k0 t0 k n :
  (∀ key, key ∈ source_keys m → key ∈ dom d) →
  head (source_keys m) = Some k0 → d !! k0 = Some (VTensor t0) →
  k ∈ source_keys m → d !! k = Some (VObject n) →
  mapping_output d m = Raise TypeError.
Proof.
  intros Hrel Hhead Hk0 Hk Hd. unfold mapping_output.
  destruct (mapM_lookup_key_relevant d (source_keys m) Hrel)
    as [states Hstates].
  rewrite Hstates.
  destruct (source_keys m) as [|k0' ks] eqn:Hks; [done|].
  injection Hhead as ->.
  rewrite (proj2 (lookup_key_Ok d k0 (VTensor t0)) Hk0).
  cbn [mbind result_bind]. unfold torch_cat.
  by rewrite (mapM_lookup_key_object d (k0 :: ks) k n states).
Qed.

(** C4 (as amended). When a discovered mapping reads a source key whose
    value is not a tensor, [convert] raises and returns no dictionary. When
    the mappings before this one applied, the exception is [NonTensorStates]
    if the value is under the first source key of the mapping, and the
    [TypeError] of the concatenation if the first source key holds a tensor,
    that is, if the value is under a later source key. *)
Theorem non_tensor_source_raises self sd bounds (h : store) d ms m k n :
  h !! sd = Some d →
  StateConverter.get_mappings self sd bounds h = (h, Ok ms) →
  m ∈ ms → k ∈ source_keys m → d !! k = Some (VObject n) →
  (∃ e, (StateConverter.convert self sd bounds h).2 = Raise e)
  ∧ (∀ pre post,
       ms = pre ++ m :: post →
       (∀ m', m' ∈ pre → ∃ items, mapping_output d m' = Ok items) →
       head (source_keys m) = Some k →
       (StateConverter.convert self sd bounds h).2
       = Raise (NonTensorStates (length (source_keys m))
                  (length (dest_keys m))))
  ∧ (∀ pre post k0 t0,
       ms = pre ++ m :: post →
       (∀ m', m' ∈ pre → ∃ items, mapping_output d m' = Ok items) →
       head (source_keys m) = Some k0 → d !! k0 = Some (VTensor t0) →
       (StateConverter.convert self sd bounds h).2 = Raise TypeError).
Proof.
  intros Hsd Hms Hm Hk Hd.
  rewrite (convert_run _ _ _ _ d Hsd).
  rewrite get_mappings_run, (deref_Some _ _ _ Hsd) in Hms.
  destruct (StateConverter.resolved_mappings self bounds) as [all|e];
    simpl in Hms; [|done].
  injection Hms as <-. set (ms := List.filter _ all) in *.
  split; [|split].
  - destruct (apply_mappings_Raise d ms ∅ (dom d)) as (acc & e & ->);
      [|by eauto].
    apply Exists_exists. exists m. split; [done|].
    by apply (mapping_output_object d m k n).
  - intros pre post Hsplit Hpre Hhead. rewrite Hsplit.
    destruct (apply_mappings_prefix d pre m post ∅ (dom d))
      as (acc & unused & ->); [by apply Forall_forall|].
    assert (lookup_key d k = Ok (VObject n)) as Hl.
    { unfold lookup_key. by rewrite Hd. }
    simpl. unfold mapping_output at 1.
    destruct (source_keys m) as [|k0 ks]; simplify_eq/=.
    by rewrite Hl.
  - intros pre post k0 t0 Hsplit Hpre Hhead Hk0. rewrite Hsplit.
    destruct (apply_mappings_prefix d pre m post ∅ (dom d))
      as (acc & unused & ->); [by apply Forall_forall|].
    simpl. rewrite (mapping_output_later_object d m k0 t0 k n); [done| |done..].
    apply relevant_spec. by apply elem_of_List_filter in Hm as [_ ?].
Qed.

(** ** Tensor facts *)

Lemma slab_whole (t : Torch.Tensor) n rest :
  Torch.wf t → Torch.shape t = n :: rest →
  Torch.slab t 0 0 0 n = Torch.data t.
Proof.
  intros Hwf Hsh. unfold Torch.slab. rewrite Hsh. simpl.
  apply take_ge. unfold Torch.wf in Hwf. rewrite Hwf, Hsh. simpl.
  rewrite drop_0. lia.
Qed.

Lemma promote_types_same a : Torch.promote_types a a = a.
Proof. unfold Torch.promote_types. by rewrite decide_True. Qed.

Lemma to_same (t : Torch.Tensor) : Torch.to (Torch.dtype t) t = t.
Proof. unfold Torch.to. by rewrite decide_True. Qed.

Lemma cat_pair (t0 t1 : Torch.Tensor) n rest :
  Torch.wf t0 → Torch.wf t1 → Torch.dtype t0 = Torch.dtype t1 →
  Torch.shape t0 = n :: rest → Torch.shape t1 = n :: rest →
  Torch.cat [t0; t1] 0
  = Ok (Torch.mk (Torch.dtype t0) ((n + n)%nat :: rest)
          (Torch.data t0 ++ Torch.data t1)).
Proof.
  intros Hwf0 Hwf1 Hdt Hsh0 Hsh1. unfold Torch.cat, Torch.result_type.
  cbn [fmap list_fmap foldl]. rewrite <-Hdt, promote_types_same.
  rewrite bool_decide_eq_false_2.
  2:{ rewrite !Exists_cons, Exists_nil, Hsh0, Hsh1. naive_solver. }
  rewrite !filter_cons, filter_nil, Hsh0, Hsh1.
  destruct (decide (n :: rest ≠ [0%nat])) as [Hne|Heq].
  - unfold Torch.ndim. rewrite Hsh0. cbn [length].
    assert (Torch.wrap_dim (S (length rest)) 0 = Some 0%nat) as ->.
    { unfold Torch.wrap_dim. rewrite bool_decide_eq_true_2 by lia.
      by rewrite bool_decide_eq_false_2 by lia. }
    cbn [forallb]. unfold Torch.same_except. rewrite Hsh0, Hsh1.
    rewrite !bool_decide_eq_true_2 by done. cbn [andb].
    f_equal. f_equal.
    + simpl. rewrite ?Hsh0, ?Hsh1. simpl. f_equal. lia.
    + cbn -[Torch.slab Torch.to]. rewrite ?Hsh0, ?Hsh1.
      cbn -[Torch.slab Torch.to]. rewrite to_same, Hdt, to_same.
      rewrite (slab_whole t0 n rest), (slab_whole t1 n rest) by done.
      by rewrite !app_nil_r.
  - apply dec_stable in Heq. injection Heq as -> ->.
    unfold Torch.wf in Hwf0, Hwf1. rewrite Hsh0 in Hwf0. rewrite Hsh1 in Hwf1.
    apply nil_length_inv in Hwf0, Hwf1. by rewrite Hwf0, Hwf1.
Qed.

Lemma narrow_0 dt size rest (data : list Torch.scalar) start len :
  Torch.narrow (Torch.mk dt (size :: rest) data) 0 start len
  = Torch.mk dt (len :: rest)
      (take (len * Torch.numel rest) (drop (start * Torch.numel rest) data)).
Proof.
  unfold Torch.narrow, Torch.slab. simpl. by rewrite drop_0, app_nil_r.
Qed.

Lemma chunk_pair dt n rest (d0 d1 : list Torch.scalar) :
  length d0 = (n * Torch.numel rest)%nat →
  length d1 = (n * Torch.numel rest)%nat →
  Torch.chunk (Torch.mk dt ((n + n)%nat :: rest) (d0 ++ d1)) 2 0
  = Ok [Torch.mk dt (n :: rest) d0; Torch.mk dt (n :: rest) d1].
Proof.
  intros Hd0 Hd1. unfold Torch.chunk, Torch.ndim. cbn [Torch.shape length].
  rewrite !bool_decide_eq_false_2 by done.
  assert (Torch.wrap_dim (S (length rest)) 0 = Some 0%nat) as ->.
  { unfold Torch.wrap_dim. rewrite bool_decide_eq_true_2 by lia.
    by rewrite bool_decide_eq_false_2 by lia. }
  cbn [lookup_total list_lookup_total].
  assert ((n + n + 2 - 1) / 2 = n)%nat as ->.
  { symmetry. apply (Nat.div_unique _ _ _ 1); lia. }
  destruct (decide (n = 0%nat)) as [->|Hn].
  - rewrite bool_decide_eq_true_2 by done.
    apply nil_length_inv in Hd0, Hd1. subst. reflexivity.
  - rewrite bool_decide_eq_false_2 by done.
    assert ((n + n + n - 1) / n = 2)%nat as ->.
    { symmetry. apply (Nat.div_unique _ _ _ (n - 1)); lia. }
    cbn [Nat.max seq fmap list_fmap Nat.sub].
    rewrite bool_decide_eq_true_2 by lia.
    rewrite bool_decide_eq_false_2 by lia.
    rewrite !narrow_0.
    replace (n + n - n * 1)%nat with n by lia.
    replace (0 * n * Torch.numel rest)%nat with 0%nat by lia.
    replace (1 * n * Torch.numel rest)%nat with (length d0) by lia.
    rewrite <-Hd0 at 1. rewrite <-Hd1.
    by rewrite drop_0, drop_app_length, take_app_length, firstn_all.
Qed.

(** Concatenating two tensors of one shape along dimension 0 and chunking
    the result in two along dimension 0 gives the two tensors back. *)
Lemma cat_chunk_pair (t0 t1 : Torch.Tensor) :
  Torch.wf t0 → Torch.wf t1 → Torch.dtype t0 = Torch.dtype t1 →
  Torch.shape t0 = Torch.shape t1 → Torch.shape t0 ≠ [] →
  ∃ t, Torch.cat [t0; t1] 0 = Ok t ∧ Torch.chunk t 2 0 = Ok [t0; t1].
Proof.
  intros Hwf0 Hwf1 Hdt Hsh Hne.
  destruct (Torch.shape t0) as [|n rest] eqn:Hsh0; [done|]. symmetry in Hsh.
  eexists. split; [by apply cat_pair|].
  unfold Torch.wf in Hwf0, Hwf1. rewrite Hsh0 in Hwf0. rewrite Hsh in Hwf1.
  rewrite chunk_pair by done.
  destruct t0, t1; simpl in *; by subst.
Qed.

(** C6 (as amended). For the per-layer attention template, bounds
    [{LAYER: 2}] and a source dictionary that holds tensors [T0] and [T1] of
    one element type and one shape with at least one dimension, [convert]
    returns a new dictionary that maps the two destination keys to [T0] and
    [T1]. *)
Theorem convert_layer_example (h : store) sd (T0 T1 : Torch.Tensor) :
  Torch.wf T0 → Torch.wf T1 → Torch.dtype T0 = Torch.dtype T1 →
  Torch.shape T0 = Torch.shape T1 → Torch.shape T0 ≠ [] →
  h !! sd = Some {[ "blocks.0.attn.w_q" := VTensor T0;
                    "blocks.1.attn.w_q" := VTensor T1 ]} →
  ∃ h' out,
    StateConverter.convert (StateConverter.mk [attn_q_template]) sd
      [(LAYER, 2)] h = (h', Ok out)
    ∧ h' !! out
      = Some {[ "model.layers.0.self_attn.q_proj.weight" := VTensor T0;
                "model.layers.1.self_attn.q_proj.weight" := VTensor T1 ]}.
Proof.
  intros Hwf0 Hwf1 Hdt Hsh Hne Hsd.
  destruct (cat_chunk_pair T0 T1) as (t & Hcat & Hchunk); [done..|].
  rewrite (convert_run _ _ _ _ _ Hsd).
  set (d := {[ "blocks.0.attn.w_q" := VTensor T0;
               "blocks.1.attn.w_q" := VTensor T1 ]} : gmap string value).
  assert (StateConverter.resolved_mappings
            (StateConverter.mk [attn_q_template]) [(LAYER, 2)]
          = Ok [StateMapping.mk
                  ["blocks.0.attn.w_q"; "blocks.1.attn.w_q"]
                  ["model.layers.0.self_attn.q_proj.weight";
                   "model.layers.1.self_attn.q_proj.weight"]
                  0 None None None 0]) as ->.
  { vm_compute. reflexivity. }
  assert (dom d = {[ "blocks.0.attn.w_q"; "blocks.1.attn.w_q" ]}) as Hdom.
  { unfold d. rewrite dom_insert_L, dom_singleton_L. done. }
  assert (lookup_key d "blocks.0.attn.w_q" = Ok (VTensor T0)) as Hk0.
  { unfold lookup_key, d. by rewrite lookup_insert_eq. }
  assert (lookup_key d "blocks.1.attn.w_q" = Ok (VTensor T1)) as Hk1.
  { unfold lookup_key, d. rewrite lookup_insert_ne by done.
    by rewrite lookup_singleton_eq. }
  cbn [List.filter StateConverter.relevant source_keys forallb].
  rewrite !bool_decide_eq_true_2 by (rewrite Hdom; set_solver).
  cbn [andb apply_mappings].
  unfold mapping_output.
  cbn [source_keys dest_keys source_concat_dim dest_chunk_dim mapM].
  rewrite Hk0, Hk1. cbn [mbind result_bind mret result_ret].
  unfold torch_cat. cbn [mapM mbind option_bind mret option_ret].
  rewrite Hcat. cbn [mbind result_bind].
  unfold StateConverter.transform.
  cbn [unflatten_dim dims_permutation flatten_dims mbind result_bind length].
  rewrite Hchunk. cbn [mbind result_bind].
  rewrite bool_decide_eq_false_2.
  2:{ rewrite Hdom. cbn [source_keys]. intros Hpos.
      apply size_pos_elem_of in Hpos as [k Hk]. set_solver. }
  eexists _, _. split; [done|]. rewrite lookup_insert_eq. reflexivity.
Qed.

(** ** Strings *)

Section strings.
Import Py.
Implicit Types p s u v w : string.
#[local] Arguments String.append !_ _ / : simpl nomatch.

Lemma string_app_length u v :
  String.length (u +:+ v) = (String.length u + String.length v)%nat.
Proof. induction u; simpl; auto. Qed.

Lemma strip_prefix_Some p s rest :
  strip_prefix p s = Some rest ↔ s = p +:+ rest.
Proof.
  revert s. induction p as [|a p IH]; intros [|b s]; simpl.
  - split; intros; by simplify_eq.
  - split; intros; by simplify_eq.
  - split; intros; by simplify_eq.
  - case_bool_decide as Hab.
    + subst b. rewrite IH. split; intros; by simplify_eq.
    + split; intros; by simplify_eq.
Qed.

Lemma startswith_strip_prefix p s :
  startswith p s = true ↔ is_Some (strip_prefix p s).
Proof.
  revert s. induction p as [|a p IH]; intros [|b s]; simpl.
  - split; eauto.
  - split; eauto.
  - split; [done|]. by intros [??].
  - case_bool_decide; simpl; [apply IH|]. split; [done|]. by intros [??].
Qed.

Lemma strip_prefix_None p s :
  strip_prefix p s = None → startswith p s = false.
Proof.
  intros H. destruct (startswith p s) eqn:Hs; [|done].
  apply startswith_strip_prefix in Hs as [? Hs]. congruence.
Qed.

Lemma startswith_app p u w :
  startswith p (u +:+ w)
  = startswith p u
    || from_option (λ p2, startswith p2 w) false (strip_prefix u p).
Proof.
  revert p. induction u as [|b u IH]; intros [|a p]; simpl.
  - by destruct w.
  - by destruct w.
  - done.
  - rewrite IH. rewrite (bool_decide_ext (b = a) (a = b)) by naive_solver.
    case_bool_decide; simpl; done.
Qed.

Lemma contains_app_r p u w : contains p w = true → contains p (u +:+ w) = true.
Proof.
  intros Hw. induction u as [|c u IH]; simpl; [done|].
  rewrite IH. apply orb_true_r.
Qed.

Lemma contains_app_l p u w : contains p u = true → contains p (u +:+ w) = true.
Proof.
  induction u as [|c u IH]; simpl.
  - rewrite orb_false_r. destruct p; [|done]. intros _. by destruct w.
  - intros [Hs|Hc]%orb_true_iff; apply orb_true_iff; [left|right; auto].
    change (String c (u +:+ w)) with (String c u +:+ w).
    by rewrite startswith_app, Hs.
Qed.

Lemma contains_app_false p u w :
  contains p (u +:+ w) = false → contains p u = false ∧ contains p w = false.
Proof.
  intros H. split.
  - destruct (contains p u) eqn:Hu; [|done].
    by rewrite (contains_app_l _ _ w Hu) in H.
  - destruct (contains p w) eqn:Hw; [|done].
    by rewrite (contains_app_r _ u _ Hw) in H.
Qed.

Lemma partition_None p s : partition p s = None → contains p s = false.
Proof.
  induction s as [|c s IH]; simpl.
  - destruct (strip_prefix p "") eqn:Hs; [done|].
    intros _. by rewrite (strip_prefix_None _ _ Hs).
  - destruct (strip_prefix p (String c s)) eqn:Hs; [done|].
    rewrite (strip_prefix_None _ _ Hs).
    destruct (partition p s) as [[u v]|]; [done|]. auto.
Qed.

Lemma partition_Some p s u v :
  p ≠ EmptyString → partition p s = Some (u, v) →
  s = u +:+ p +:+ v ∧ contains p u = false
  ∧ (String.length v < String.length s)%nat.
Proof.
  intros Hp. revert u. induction s as [|c s IH]; intros u; simpl.
  - destruct (strip_prefix p "") as [rest|] eqn:Hs; [|done].
    apply strip_prefix_Some in Hs. destruct p; done.
  - destruct (strip_prefix p (String c s)) as [rest|] eqn:Hs.
    + intros [= <- <-]. apply strip_prefix_Some in Hs. split; [done|].
      split; [by destruct p|].
      apply (f_equal String.length) in Hs. rewrite string_app_length in Hs.
      destruct p; [done|]. simpl in *. lia.
    + destruct (partition p s) as [[u' v']|] eqn:Hpart; [|done].
      intros [= <- <-]. destruct (IH u' eq_refl) as (-> & Hu' & Hlen).
      split; [done|]. split; [|simpl in *; lia].
      simpl. rewrite Hu', orb_false_r.
      destruct (startswith p (String c u')) eqn:Hst; [|done].
      assert (startswith p (String c u' +:+ p +:+ v') = true) as Hst'.
      { by rewrite startswith_app, Hst. }
      apply strip_prefix_None in Hs. simpl in *. congruence.
Qed.

Lemma all_chars_strip_prefix P u p p2 :
  strip_prefix u p = Some p2 → all_chars P p = true → all_chars P p2 = true.
Proof.
  revert p. induction u as [|b u IH]; intros [|a p]; simpl; try done.
  - by intros [= <-].
  - by intros [= <-].
  - case_bool_decide; [|done]. intros Hs [_ Hp]%andb_true_iff. eauto.
Qed.

(** A token does not start at or before the inserted number and end inside
    or behind it. *)
Lemma startswith_app_numeral p u new r :
  all_chars (negb ∘ numeral) p = true →
  new ≠ EmptyString → all_chars numeral new = true →
  startswith p (u +:+ new +:+ r) = true → startswith p u = true.
Proof.
  intros Hp Hnew Hnum. rewrite startswith_app.
  intros [Hu|Hs]%orb_true_iff; [done|].
  destruct (strip_prefix u p) as [p2|] eqn:Hp2; [|done]. simpl in Hs.
  pose proof (all_chars_strip_prefix _ _ _ _ Hp2 Hp) as Hp2'.
  destruct p2 as [|a p2].
  - apply startswith_strip_prefix. apply strip_prefix_Some in Hp2.
    subst p. exists EmptyString. apply strip_prefix_Some.
    clear. induction u; simpl; congruence.
  - destruct new as [|n0 new]; [done|]. simpl in *.
    apply andb_true_iff in Hs as [Heq%bool_decide_eq_true _]. subst n0.
    apply andb_true_iff in Hp2' as [Ha _].
    apply andb_true_iff in Hnum as [Hn _].
    by rewrite Hn in Ha.
Qed.

Lemma contains_numeral_app p new r :
  token_like p → all_chars numeral new = true →
  contains p r = false → contains p (new +:+ r) = false.
Proof.
  intros [Hne Hp] Hnum Hr. induction new as [|n0 new IH]; simpl; [done|].
  simpl in Hnum. apply andb_true_iff in Hnum as [Hn Hnum].
  rewrite (IH Hnum), orb_false_r.
  destruct p as [|a p]; [done|]. simpl in *.
  apply andb_true_iff in Hp as [Ha _].
  rewrite bool_decide_eq_false_2; [done|]. intros ->. by rewrite Hn in Ha.
Qed.

(** The key step: replacing an occurrence by a number neither leaves nor
    creates an occurrence around the number. *)
Lemma contains_app_numeral p u new r :
  token_like p → new ≠ EmptyString → all_chars numeral new = true →
  contains p u = false → contains p r = false →
  contains p (u +:+ new +:+ r) = false.
Proof.
  intros Hp Hnew Hnum Hu Hr. induction u as [|c u IH].
  - simpl. by apply contains_numeral_app.
  - simpl in Hu. apply orb_false_iff in Hu as [Hst Hu].
    simpl. rewrite (IH Hu), orb_false_r.
    destruct (startswith p (String c (u +:+ new +:+ r))) eqn:Hst'; [|done].
    apply (startswith_app_numeral p (String c u) new r) in Hst';
      [congruence|apply Hp|done..].
Qed.

Lemma replace_count_removes p new n : ∀ s,
  token_like p → new ≠ EmptyString → all_chars numeral new = true →
  (String.length s ≤ n)%nat →
  contains p (replace_count n p new s) = false.
Proof.
  induction n as [|n IH]; intros s Hp Hnew Hnum Hlen; simpl.
  - destruct s; [|simpl in Hlen; lia]. destruct Hp as [Hp _]. by destruct p.
  - destruct (partition p s) as [[u v]|] eqn:Hpart;
      [|by apply partition_None].
    apply partition_Some in Hpart as (-> & Hu & Hv); [|apply Hp].
    apply contains_app_numeral; [done..|]. apply IH; [done..|lia].
Qed.

(** After [replace] no occurrence of the token is left. *)
Lemma replace_removes p new s :
  token_like p → new ≠ EmptyString → all_chars numeral new = true →
  contains p (replace p new s) = false.
Proof. intros. by apply replace_count_removes. Qed.

Lemma replace_count_preserves q p new n : ∀ s,
  token_like q → p ≠ EmptyString →
  new ≠ EmptyString → all_chars numeral new = true →
  contains q s = false → contains q (replace_count n p new s) = false.
Proof.
  induction n as [|n IH]; intros s Hq Hp Hnew Hnum Hs; simpl; [done|].
  destruct (partition p s) as [[u v]|] eqn:Hpart; [|done].
  apply partition_Some in Hpart as (-> & _ & _); [|done].
  apply contains_app_false in Hs as [Hu Hs].
  apply contains_app_false in Hs as [_ Hv].
  apply contains_app_numeral; auto.
Qed.

(** [replace] creates no occurrence of another token. *)
Lemma replace_preserves q p new s :
  token_like q → p ≠ EmptyString →
  new ≠ EmptyString → all_chars numeral new = true →
  contains q s = false → contains q (replace p new s) = false.
Proof. intros. by apply replace_count_preserves. Qed.

Lemma pretty_N_char_numeral x : numeral (pretty_N_char x) = true.
Proof. unfold pretty_N_char. by repeat case_match. Qed.

Lemma pretty_N_go_numeral x : ∀ s,
  all_chars numeral s = true → all_chars numeral (pretty_N_go x s) = true.
Proof.
  induction (N.lt_wf_0 x) as [x _ IH]; intros s Hs.
  destruct (decide (0 < x)%N) as [Hx|Hx].
  - rewrite pretty_N_go_step by done. apply IH; [by apply N.div_lt|].
    simpl. by rewrite pretty_N_char_numeral.
  - assert (x = 0%N) as -> by lia. by rewrite pretty_N_go_0.
Qed.

Lemma pretty_N_go_nonempty x : ∀ s,
  s ≠ EmptyString → pretty_N_go x s ≠ EmptyString.
Proof.
  induction (N.lt_wf_0 x) as [x _ IH]; intros s Hs.
  destruct (decide (0 < x)%N) as [Hx|Hx].
  - rewrite pretty_N_go_step by done. apply IH; [by apply N.div_lt|done].
  - assert (x = 0%N) as -> by lia. by rewrite pretty_N_go_0.
Qed.

(** [str(n)] is a non-empty string of digits, with a sign when negative. *)
Lemma str_numeral (n : Z) :
  str n ≠ EmptyString ∧ all_chars numeral (str n) = true.
Proof.
  assert (∀ x : positive,
    pretty x ≠ EmptyString ∧ all_chars numeral (pretty x) = true) as Hpos.
  { intros x. unfold pretty, pretty_positive, pretty, pretty_N.
    rewrite decide_False by done.
    rewrite pretty_N_go_step by lia. split.
    - by apply pretty_N_go_nonempty.
    - apply pretty_N_go_numeral. simpl. by rewrite pretty_N_char_numeral. }
  unfold str, pretty, pretty_Z. destruct n as [|x|x]; [done|apply Hpos|].
  destruct (Hpos x) as [_ Hx]. split; [done|]. simpl. exact Hx.
Qed.

Lemma token_token_like (p : TemplatePlaceholder) : token_like (token p).
Proof. by destruct p. Qed.
End strings.

(** ** Key materialisation *)

Section keys.
Import StateMappingTemplate.

Lemma fill_key_sentinel template items : ∀ key p,
  (p, None) ∈ items → Py.contains (token p) template = true →
  fill_key template key items = None.
Proof.
  induction items as [|[q value] items IH]; intros key p Hin Hp; simpl.
  - by apply elem_of_nil in Hin.
  - apply elem_of_cons in Hin as [[= <- <-]|Hin]; [by rewrite Hp|].
    destruct (Py.contains (token q) template), value; eauto.
Qed.

Lemma fill_key_unused_value template items : ∀ key p v,
  (p, Some v) ∈ items → Py.contains (token p) template = false →
  fill_key template key items = None.
Proof.
  induction items as [|[q value] items IH]; intros key p v Hin Hp; simpl.
  - by apply elem_of_nil in Hin.
  - apply elem_of_cons in Hin as [[= <- <-]|Hin]; [by rewrite Hp|].
    destruct (Py.contains (token q) template), value; eauto.
Qed.

Lemma fill_key_substitute template items : ∀ key,
  (∀ p value, (p, value) ∈ items →
     Py.contains (token p) template = true ↔ is_Some value) →
  fill_key template key items = Some (substitute items key).
Proof.
  induction items as [|[q value] items IH]; intros key Hok; [done|].
  simpl. pose proof (Hok q value (list_elem_of_here _ _)) as Hq.
  assert (∀ p value', (p, value') ∈ items →
            Py.contains (token p) template = true ↔ is_Some value') as Hok'.
  { intros p value' Hin. apply Hok. by right. }
  destruct (Py.contains (token q) template), value as [v|].
  - by apply IH.
  - destruct Hq as [Hq _]. by destruct (Hq eq_refl).
  - destruct Hq as [_ Hq]. by discriminate Hq.
  - by apply IH.
Qed.

(** The key that comes out of the loop holds no placeholder of the
    assignment any more. *)
Lemma fill_key_clean template items : ∀ key key',
  fill_key template key items = Some key' →
  (∀ q, Py.contains (token q) template = false →
        Py.contains (token q) key = false) →
  ∀ q, Py.contains (token q) key = false ∨ q ∈ items.*1 →
       Py.contains (token q) key' = false.
Proof.
  induction items as [|[p value] items IH]; intros key key' Hfill Hinv q Hq.
  - simpl in *. simplify_eq. destruct Hq as [Hq|Hq]; [done|].
    by apply elem_of_nil in Hq.
  - simpl in Hfill.
    destruct (Py.contains (token p) template) eqn:Hp, value as [v|];
      try done.
    + destruct (str_numeral v) as [Hne Hnum].
      apply (IH _ _ Hfill).
      * intros q' Hq'. apply replace_preserves;
          auto using token_token_like. by destruct p.
      * destruct Hq as [Hq|[->|Hq]%elem_of_cons]; [left|left|by right].
        -- apply replace_preserves; auto using token_token_like.
           by destruct p.
        -- apply replace_removes; auto using token_token_like.
    + apply (IH _ _ Hfill Hinv).
      destruct Hq as [Hq|[->|Hq]%elem_of_cons]; [by left|left; auto|by right].
Qed.

Lemma fill_keys_cons template templates values :
  fill_keys (template :: templates) values
  = key ← fill_key template template values;
    keys ← fill_keys templates values; Some (key :: keys).
Proof. reflexivity. Qed.

Lemma fill_keys_sentinel templates values template p :
  template ∈ templates → (p, None) ∈ values →
  Py.contains (token p) template = true →
  fill_keys templates values = None.
Proof.
  intros Hin Hp Hc.
  induction templates as [|t ts IH]; [by apply elem_of_nil in Hin|].
  rewrite fill_keys_cons.
  apply elem_of_cons in Hin as [<-|Hin].
  - by rewrite (fill_key_sentinel _ _ _ p).
  - rewrite (IH Hin). by destruct (fill_key t t values).
Qed.

Lemma fill_keys_unused_value templates values template p v :
  template ∈ templates → (p, Some v) ∈ values →
  Py.contains (token p) template = false →
  fill_keys templates values = None.
Proof.
  intros Hin Hp Hc.
  induction templates as [|t ts IH]; [by apply elem_of_nil in Hin|].
  rewrite fill_keys_cons.
  apply elem_of_cons in Hin as [<-|Hin].
  - by rewrite (fill_key_unused_value _ _ _ p v).
  - rewrite (IH Hin). by destruct (fill_key t t values).
Qed.

Lemma fill_keys_matching templates values :
  (∀ template p value, template ∈ templates → (p, value) ∈ values →
     Py.contains (token p) template = true ↔ is_Some value) →
  fill_keys templates values = Some (substitute values <$> templates).
Proof.
  intros Hok. induction templates as [|t ts IH]; [done|].
  rewrite fill_keys_cons, fill_key_substitute.
  - rewrite IH; [done|]. intros ???? ?. apply Hok; [by right|done].
  - intros p value Hin. apply Hok; [by left|done].
Qed.

Lemma substitute_clean values template p :
  (∀ q value, (q, value) ∈ values →
     Py.contains (token q) template = true ↔ is_Some value) →
  p ∈ values.*1 →
  Py.contains (token p) (substitute values template) = false.
Proof.
  intros Hok Hp.
  apply (fill_key_clean template values template); [|done|by right].
  by apply fill_key_substitute.
Qed.

(** C8 (as amended). The symmetric mismatch check of lines 115-132 holds
    for the strings the substitution loop goes through: the declared
    template strings when the side has no per-placeholder expansion, the
    expanded strings otherwise (last two parts). For these strings, an entry
    of the assignment that is the expansion value [None] while its
    placeholder occurs in the string makes the result [None]; so does an
    entry with a value whose placeholder does not occur in the string; and
    when no entry mismatches, the result is the strings with the assigned
    values substituted, in which no placeholder of the assignment occurs any
    more. Only placeholders that have an entry are substituted. *)
Theorem key_loop_mismatch (templates : list string)
    (values : placeholder_values_t) :
  ((∃ template p, template ∈ templates ∧ (p, None) ∈ values
                  ∧ Py.contains (token p) template = true) →
   fill_keys templates values = None)
  ∧ ((∃ template p v, template ∈ templates ∧ (p, Some v) ∈ values
                      ∧ Py.contains (token p) template = false) →
     fill_keys templates values = None)
  ∧ ((∀ template p value, template ∈ templates → (p, value) ∈ values →
        Py.contains (token p) template = true ↔ is_Some value) →
     fill_keys templates values = Some (substitute values <$> templates)
     ∧ ∀ template p, template ∈ templates → p ∈ values.*1 →
         Py.contains (token p) (substitute values template) = false)
  ∧ (∀ templates' indices,
       _templates_to_keys templates' values None indices
       = Ok (fill_keys match templates' with
                       | KeyStr s => [s]
                       | KeyTuple l => l
                       end values))
  ∧ (∀ s p indices,
       Py.contains (token p) s = true →
       _templates_to_keys (KeyStr s) values (Some p) (Some indices)
       = Ok (fill_keys ((λ i, Py.replace (token p) (Py.str i) s) <$> indices)
               values)).
Proof.
  split; [|split; [|split; [|split]]].
  - intros (template & p & Hin & Hp & Hc).
    by apply (fill_keys_sentinel _ _ template p).
  - intros (template & p & v & Hin & Hp & Hc).
    by apply (fill_keys_unused_value _ _ template p v).
  - intros Hok. split; [by apply fill_keys_matching|].
    intros template p Hin Hp. apply substitute_clean; [|done].
    intros q value. by apply Hok.
  - intros [s|l] indices; reflexivity.
  - intros s p indices Hc. simpl. by rewrite Hc.
Qed.
End keys.

(** ** Resolution *)

Section resolution.
Import StateMappingTemplate.

Lemma result_mapM_app {A B} (f : A → result B) l1 l2 :
  mapM f (l1 ++ l2) =
  ys1 ← mapM f l1; ys2 ← mapM f l2; Ok (ys1 ++ ys2).
Proof.
  induction l1 as [|x l1 IH]; simpl.
  - by destruct (mapM f l2).
  - destruct (f x) as [y|]; simpl; [|done].
    rewrite IH. destruct (mapM f l1) as [ys1|]; simpl; [|done].
    by destruct (mapM f l2).
Qed.

Lemma get_None {V} (p : TemplatePlaceholder) (d : list (TemplatePlaceholder * V)) :
  Py.get p d = None ↔ p ∉ d.*1.
Proof.
  induction d as [|[q v] d IH]; simpl.
  - split; [intros _; apply not_elem_of_nil|done].
  - rewrite not_elem_of_cons. case_decide; [naive_solver|]. rewrite IH.
    naive_solver.
Qed.

Lemma get_is_Some {V} (p : TemplatePlaceholder)
    (d : list (TemplatePlaceholder * V)) :
  is_Some (Py.get p d) ↔ p ∈ d.*1.
Proof.
  rewrite <-not_eq_None_Some, get_None.
  destruct (decide (p ∈ d.*1)); naive_solver.
Qed.

Lemma missing_required (t : StateMappingTemplate.t)
    (bounds : placeholder_bounds_t) :
  bool_decide (required_placeholders t ∖ list_to_set bounds.*1 ≠ ∅) = false
  ↔ ∀ p, p ∈ required_placeholders t → p ∈ bounds.*1.
Proof.
  rewrite bool_decide_eq_false. split.
  - intros Hempty p Hp. destruct (decide (p ∈ bounds.*1)); [done|].
    exfalso. apply Hempty. set_solver.
  - intros Hall Hne. apply Hne. apply set_eq. intros p.
    rewrite elem_of_difference, elem_of_list_to_set. set_solver.
Qed.

Lemma to_mapping_missing (t : StateMappingTemplate.t) values bounds p :
  p ∈ required_placeholders t → Py.get p bounds = None →
  to_mapping t values bounds = Ok None.
Proof.
  intros Hreq Hget. unfold to_mapping.
  rewrite bool_decide_eq_true_2; [done|].
  apply get_None in Hget. set_solver.
Qed.

Lemma mapM_all_None {A B} (f : A → result (option B)) l :
  (∀ x, x ∈ l → f x = Ok None) →
  mapM f l = Ok (replicate (length l) None).
Proof.
  induction l as [|x l IH]; intros Hall; [done|]. simpl.
  rewrite Hall by left. simpl. rewrite IH; [done|].
  intros y Hy. apply Hall. by right.
Qed.

Lemma omap_replicate_None {B} n : omap id (replicate n (@None B)) = [].
Proof. by induction n. Qed.



Lemma elem_of_required_source (t : StateMappingTemplate.t) p :
  source_key_per_placeholder t = Some p → p ∈ required_placeholders t.
Proof. unfold required_placeholders. intros ->. set_solver. Qed.

Lemma elem_of_required_dest (t : StateMappingTemplate.t) p :
  dest_key_per_placeholder t = Some p → p ∈ required_placeholders t.
Proof. unfold required_placeholders. intros ->. set_solver. Qed.

Lemma elem_of_required_shape (t : StateMappingTemplate.t) dim shape p :
  unflatten_dim t = Some (dim, shape) → DimPlaceholder p ∈ shape →
  p ∈ required_placeholders t.
Proof.
  unfold required_placeholders. intros -> Hp.
  apply elem_of_union_r, elem_of_list_to_set, list_elem_of_omap.
  by exists (DimPlaceholder p).
Qed.

Lemma resolve_shape (bounds : placeholder_bounds_t) shape :
  (∀ p, DimPlaceholder p ∈ shape → p ∈ bounds.*1) →
  ∃ shape', mapM (resolve_dim bounds) shape = Ok shape'.
Proof.
  induction shape as [|d shape IH]; intros Hall; [by eexists|].
  destruct IH as [shape' Hshape']. { intros p Hp. apply Hall. by right. }
  simpl. rewrite Hshape'.
  destruct d as [p|n]; simpl; [|by eexists].
  destruct (Py.get p bounds) as [b|] eqn:Hb; [by eexists|].
  apply get_None in Hb. destruct Hb. apply Hall. by left.
Qed.

Lemma templates_to_keys_Raise templates values p indices e :
  _templates_to_keys templates values p indices = Raise e →
  e = AssertionError.
Proof.
  unfold _templates_to_keys. intros H.
  repeat case_match; by simplify_eq.
Qed.

(** What is known of a mapping that [to_mapping] returns. *)
Lemma to_mapping_Some (t : StateMappingTemplate.t) values bounds m :
  to_mapping t values bounds = Ok (Some m) →
  ∃ source_values dest_values,
    per_placeholder_values (source_key_per_placeholder t) values bounds
    = Ok source_values
    ∧ _templates_to_keys (source_template_keys t) values
        (source_key_per_placeholder t) source_values
      = Ok (Some (source_keys m))
    ∧ per_placeholder_values (dest_key_per_placeholder t) values bounds
      = Ok dest_values
    ∧ _templates_to_keys (dest_template_keys t) values
        (dest_key_per_placeholder t) dest_values
      = Ok (Some (dest_keys m)).
Proof.
  unfold to_mapping. case_bool_decide; [done|].
  destruct (per_placeholder_values (source_key_per_placeholder t) _ _)
    as [sv|] eqn:Hsv; simpl; [|done].
  destruct (_templates_to_keys (source_template_keys t) _ _ _)
    as [sk|] eqn:Hsk; simpl; [|done].
  destruct (per_placeholder_values (dest_key_per_placeholder t) _ _)
    as [dv|] eqn:Hdv; simpl; [|done].
  destruct (_templates_to_keys (dest_template_keys t) _ _ _)
    as [dk|] eqn:Hdk; simpl; [|done].
  destruct sk as [sk|], dk as [dk|]; try done.
  intros Hm. exists sv, dv.
  assert (source_keys m = sk ∧ dest_keys m = dk) as [-> ->]; [|done].
  destruct (unflatten_dim t) as [[dim shape]|]; simpl in Hm.
  - destruct (mapM _ shape); simpl in Hm; [|done]. by injection Hm as <-.
  - by injection Hm as <-.
Qed.

(** When a mapping is returned. *)
Lemma to_mapping_resolves (t : StateMappingTemplate.t) values bounds
    source_values source_keys' dest_values dest_keys' :
  (∀ p, p ∈ required_placeholders t → p ∈ bounds.*1) →
  per_placeholder_values (source_key_per_placeholder t) values bounds
  = Ok source_values →
  _templates_to_keys (source_template_keys t) values
    (source_key_per_placeholder t) source_values = Ok (Some source_keys') →
  per_placeholder_values (dest_key_per_placeholder t) values bounds
  = Ok dest_values →
  _templates_to_keys (dest_template_keys t) values
    (dest_key_per_placeholder t) dest_values = Ok (Some dest_keys') →
  ∃ m, to_mapping t values bounds = Ok (Some m)
       ∧ source_keys m = source_keys' ∧ dest_keys m = dest_keys'.
Proof.
  intros Hreq Hsv Hsk Hdv Hdk. unfold to_mapping.
  rewrite (proj2 (missing_required t bounds) Hreq).
  rewrite Hsv. simpl. rewrite Hsk. simpl. rewrite Hdv. simpl.
  rewrite Hdk. simpl.
  destruct (unflatten_dim t) as [[dim shape]|] eqn:Hun; simpl;
    [|by eexists].
  destruct (resolve_shape bounds shape) as [shape' ->]; [|by eexists].
  intros p Hp. apply Hreq. by eapply elem_of_required_shape.
Qed.

Lemma fill_keys_length templates values keys :
  fill_keys templates values = Some keys → length keys = length templates.
Proof. unfold fill_keys. intros H. by apply length_mapM in H. Qed.

(** C5 (as amended). For a template with
    [source_key_per_placeholder = LAYER] whose source template is a string
    that holds the placeholder, bounds [{LAYER: 4}] and the assignment
    [{LAYER: None}]: the source keys materialise as exactly four keys, the
    template with 0, 1, 2 and 3 substituted, in this order; every mapping
    [to_mapping] returns has these source keys; a mapping is returned when
    the template requires no other placeholder and its destination side
    materialises; when the template requires another placeholder, or its
    destination side does not fit the assignment, the result is [None]; and
    when the destination side expands over [LAYER] although its template is
    not one string that holds the placeholder, [to_mapping] raises
    [AssertionError]. Under any bounds with [LAYER = 4] and any assignment
    with [LAYER = None], a returned mapping has four source keys, the four
    above with the other placeholders filled in. An iteration of [convert]
    for a mapping with these source keys passes the tensors under the four
    keys to [torch.cat] in the order of the keys. *)
Theorem layer_expansion (t : StateMappingTemplate.t) (s : string) :
  source_key_per_placeholder t = Some LAYER →
  source_template_keys t = KeyStr s →
  Py.contains (token LAYER) s = true →
  let keys := (λ i, Py.replace (token LAYER) (Py.str i) s) <$> [0; 1; 2; 3] in
  _templates_to_keys (source_template_keys t) [(LAYER, None)] (Some LAYER)
    (Some (Py.range 4)) = Ok (Some keys)
  ∧ (∀ m, to_mapping t [(LAYER, None)] [(LAYER, 4)] = Ok (Some m) →
          source_keys m = keys)
  ∧ (∀ dest_values dest_keys',
       (∀ p, p ∈ required_placeholders t → p = LAYER) →
       per_placeholder_values (dest_key_per_placeholder t)
         [(LAYER, None)] [(LAYER, 4)] = Ok dest_values →
       _templates_to_keys (dest_template_keys t) [(LAYER, None)]
         (dest_key_per_placeholder t) dest_values = Ok (Some dest_keys') →
       ∃ m, to_mapping t [(LAYER, None)] [(LAYER, 4)] = Ok (Some m)
            ∧ source_keys m = keys ∧ dest_keys m = dest_keys')
  ∧ ((∃ p, p ∈ required_placeholders t ∧ p ≠ LAYER) →
     to_mapping t [(LAYER, None)] [(LAYER, 4)] = Ok None)
  ∧ ((∀ p, p ∈ required_placeholders t → p = LAYER) →
     match
       dest_values ← per_placeholder_values (dest_key_per_placeholder t)
                       [(LAYER, None)] [(LAYER, 4)];
       _templates_to_keys (dest_template_keys t) [(LAYER, None)]
         (dest_key_per_placeholder t) dest_values
     with
     | Ok (Some dest_keys') =>
         ∃ m, to_mapping t [(LAYER, None)] [(LAYER, 4)] = Ok (Some m)
              ∧ source_keys m = keys ∧ dest_keys m = dest_keys'
     | Ok None => to_mapping t [(LAYER, None)] [(LAYER, 4)] = Ok None
     | Raise e =>
         to_mapping t [(LAYER, None)] [(LAYER, 4)] = Raise AssertionError
         ∧ e = AssertionError
         ∧ dest_key_per_placeholder t = Some LAYER
         ∧ ¬ side_well_formed (dest_template_keys t) (Some LAYER)
     end)
  ∧ (∀ values bounds m,
       Py.get LAYER bounds = Some 4 → Py.get LAYER values = Some None →
       to_mapping t values bounds = Ok (Some m) →
       fill_keys keys values = Some (source_keys m)
       ∧ length (source_keys m) = 4%nat)
  ∧ (∀ sd out unused (h : store) d acc m T0 T1 T2 T3,
       h !! sd = Some d → h !! out = Some acc →
       source_keys m = keys →
       (λ k, d !! k) <$> keys
       = [Some (VTensor T0); Some (VTensor T1); Some (VTensor T2);
          Some (VTensor T3)] →
       StateConverter.convert_mapping sd out unused m h
       = match
           original_state ← Torch.cat [T0; T1; T2; T3]
                              (StateMapping.source_concat_dim m);
           original_state ← StateConverter.transform m original_state;
           Torch.chunk original_state (length (dest_keys m))
             (StateMapping.dest_chunk_dim m)
         with
         | Ok state_chunks =>
             (<[out := write_items
                         (zip (dest_keys m) (VTensor <$> state_chunks))
                         acc]> h,
              Ok (unused ∖ list_to_set keys))
         | Raise e => (h, Raise e)
         end).
Proof.
  intros Hper Hsrc Hin keys.
  assert (_templates_to_keys (source_template_keys t) [(LAYER, None)]
            (Some LAYER) (Some (Py.range 4)) = Ok (Some keys)) as Hsource.
  { rewrite Hsrc. cbn [_templates_to_keys]. rewrite Hin. f_equal.
    change (Py.range 4) with [0; 1; 2; 3]. fold keys.
    transitivity (Some (substitute [(LAYER, None)] <$> keys)); [|done].
    apply (fill_keys_matching keys [(LAYER, None)]).
    intros template p value Htemplate [[= -> ->]|[]%elem_of_nil]%elem_of_cons.
    split; [|by intros [??]]. intros Hc.
    apply list_elem_of_fmap in Htemplate as (i & -> & _).
    destruct (str_numeral i) as [Hne Hnum].
    by rewrite replace_removes in Hc by auto using token_token_like. }
  assert (∀ values bounds m,
    Py.get LAYER bounds = Some 4 → Py.get LAYER values = Some None →
    to_mapping t values bounds = Ok (Some m) →
    fill_keys keys values = Some (source_keys m)) as Hgeneral.
  { intros values bounds m Hb Hv Hm.
    apply to_mapping_Some in Hm as (sv & dv & Hsv & Hsk & _).
    rewrite Hper in Hsv, Hsk. simpl in Hsv. rewrite Hv, Hb in Hsv.
    injection Hsv as <-. rewrite Hsrc in Hsk. cbn [_templates_to_keys] in Hsk.
    rewrite Hin in Hsk. by injection Hsk. }
  assert (∀ dv dk,
    (∀ p, p ∈ required_placeholders t → p = LAYER) →
    per_placeholder_values (dest_key_per_placeholder t)
      [(LAYER, None)] [(LAYER, 4)] = Ok dv →
    _templates_to_keys (dest_template_keys t) [(LAYER, None)]
      (dest_key_per_placeholder t) dv = Ok (Some dk) →
    ∃ m, to_mapping t [(LAYER, None)] [(LAYER, 4)] = Ok (Some m)
         ∧ source_keys m = keys ∧ dest_keys m = dk) as Hresolves.
  { intros dv dk Hreq Hdv Hdk.
    apply (to_mapping_resolves t _ _ (Some (Py.range 4)) keys dv dk);
      [|by rewrite Hper|by rewrite Hper|done..].
    intros p ->%Hreq. set_solver. }
  split; [done|]. split; [|split; [|split; [|split; [|split]]]].
  - intros m Hm.
    apply (Hgeneral [(LAYER, None)] [(LAYER, 4)] m eq_refl eq_refl) in Hm.
    rewrite Hsrc in Hsource.
    cbn [_templates_to_keys] in Hsource. rewrite Hin in Hsource.
    change (Py.range 4) with [0; 1; 2; 3] in Hsource. fold keys in Hsource.
    congruence.
  - done.
  - intros (p & Hp & Hne). apply (to_mapping_missing t _ _ p Hp).
    simpl. by rewrite decide_False.
  - intros Hreq.
    destruct (per_placeholder_values (dest_key_per_placeholder t) _ _)
      as [dv|e] eqn:Hdv; cbn [mbind result_bind].
    2:{ (* the destination never expands over another placeholder *)
        destruct (dest_key_per_placeholder t) as [p|] eqn:Hdp; [|done].
        assert (p = LAYER) as ->.
        { apply Hreq. unfold required_placeholders. rewrite Hdp.
          set_solver. }
        done. }
    destruct (_templates_to_keys (dest_template_keys t) _ _ dv)
      as [[dk|]|e] eqn:Hdk.
    + by apply (Hresolves dv).
    + unfold to_mapping.
      rewrite (proj2 (missing_required t [(LAYER, 4)])).
      2:{ intros p ->%Hreq. set_solver. }
      rewrite Hper. cbn [per_placeholder_values Py.get].
      rewrite !decide_True by done. cbn [mbind result_bind].
      rewrite Hsource. cbn [mbind result_bind].
      rewrite Hdv. cbn [mbind result_bind]. by rewrite Hdk.
    + assert (e = AssertionError ∧ dest_key_per_placeholder t = Some LAYER
              ∧ ¬ side_well_formed (dest_template_keys t) (Some LAYER))
        as (-> & Hdp & Hwf).
      { unfold _templates_to_keys in Hdk.
        destruct (dest_key_per_placeholder t) as [p|] eqn:Hdp.
        2:{ by destruct (dest_template_keys t). }
        assert (p = LAYER) as ->.
        { apply Hreq. unfold required_placeholders. rewrite Hdp.
          set_solver. }
        destruct dv as [values|]; [|done].
        destruct (dest_template_keys t) as [s'|l] eqn:Hkeys.
        - destruct (Py.contains (token LAYER) s') eqn:Hc; [done|].
          injection Hdk as <-. split; [done|]. split; [done|].
          intros (s'' & [= <-] & Hc'). congruence.
        - injection Hdk as <-. split; [done|]. split; [done|].
          by intros (s'' & [=] & _). }
      split; [|done]. unfold to_mapping.
      rewrite (proj2 (missing_required t [(LAYER, 4)])).
      2:{ intros p ->%Hreq. set_solver. }
      rewrite Hper. cbn [per_placeholder_values Py.get].
      rewrite !decide_True by done. cbn [mbind result_bind].
      rewrite Hsource. cbn [mbind result_bind].
      rewrite Hdv. cbn [mbind result_bind]. by rewrite Hdk.
  - intros values bounds m Hb Hv Hm. split; [by eapply Hgeneral|].
    apply (Hgeneral _ _ _ Hb Hv), fill_keys_length in Hm. by rewrite Hm.
  - intros sd out unused h d acc m T0 T1 T2 T3 Hsd Hout Hkeys Hvals.
    rewrite (convert_mapping_run _ _ _ _ _ acc Hout), (deref_Some _ _ _ Hsd).
    unfold mapping_output. rewrite Hkeys. unfold keys in *.
    cbn [fmap list_fmap] in Hvals |- *.
    set (k0 := Py.replace (token LAYER) (Py.str 0) s) in *.
    set (k1 := Py.replace (token LAYER) (Py.str 1) s) in *.
    set (k2 := Py.replace (token LAYER) (Py.str 2) s) in *.
    set (k3 := Py.replace (token LAYER) (Py.str 3) s) in *.
    injection Hvals as H0 H1 H2 H3.
    cbn [mapM]. unfold lookup_key. rewrite H0, H1, H2, H3.
    cbn [mbind result_bind mret result_ret]. unfold torch_cat.
    cbn [mapM mbind option_bind mret option_ret].
    destruct (Torch.cat _ _) as [T|]; cbn [mbind result_bind]; [|done].
    destruct (StateConverter.transform m T) as [T'|]; cbn [mbind result_bind];
      [|done].
    destruct (Torch.chunk T' _ _) as [chunks|]; cbn [mbind result_bind];
      [|done].
    by rewrite list_fmap_compose, list_fmap_id.
Qed.
End resolution.

(** ** Partial assignments *)

Section partial_assignment.
Import StateMappingTemplate.

Lemma per_placeholder_values_assigned p values bounds :
  (∀ q, p = Some q → q ∈ bounds.*1 ∧ is_Some (Py.get q values)) →
  ∃ r, per_placeholder_values p values bounds = Ok r.
Proof.
  destruct p as [q|]; [|by eexists]. intros Hq. simpl.
  destruct (Hq q eq_refl) as [Hb [[v|] ->]]; [by eexists|].
  apply get_is_Some in Hb as [b ->]. by eexists.
Qed.

Lemma templates_to_keys_well_formed keys values per indices :
  side_well_formed keys per →
  ∃ r, _templates_to_keys keys values per indices = Ok r.
Proof.
  unfold _templates_to_keys.
  destruct per as [p|]; [|destruct keys; by eexists].
  intros (s & -> & ->). destruct indices; by eexists.
Qed.



Lemma to_mapping_assigned (t : StateMappingTemplate.t) values bounds :
  (∀ p, p ∈ bounds.*1 → is_Some (Py.get p values)) →
  ((∃ r, to_mapping t values bounds = Ok r)
   ∨ to_mapping t values bounds = Raise AssertionError)
  ∧ (side_well_formed (source_template_keys t) (source_key_per_placeholder t) →
     side_well_formed (dest_template_keys t) (dest_key_per_placeholder t) →
     ∃ r, to_mapping t values bounds = Ok r).
Proof.
  intros Hcover. unfold to_mapping.
  case_bool_decide as Hmissing.
  { split; [left; by eexists|intros; by eexists]. }
  assert (∀ p, p ∈ required_placeholders t → p ∈ bounds.*1) as Hreq.
  { apply (proj1 (missing_required t bounds)).
    apply bool_decide_eq_false_2. by intros []. }
  destruct (per_placeholder_values_assigned (source_key_per_placeholder t)
              values bounds) as [sv ->].
  { intros q Hq. apply elem_of_required_source in Hq. auto. }
  destruct (per_placeholder_values_assigned (dest_key_per_placeholder t)
              values bounds) as [dv Hdv].
  { intros q Hq. apply elem_of_required_dest in Hq. auto. }
  assert (∃ u, match unflatten_dim t with
               | Some (dim, shape) =>
                   shape' ← mapM (resolve_dim bounds) shape;
                   Ok (Some (dim, shape'))
               | None => Ok None
               end = Ok u) as [u Hu].
  { destruct (unflatten_dim t) as [[dim shape]|] eqn:Hun; [|by eexists].
    destruct (resolve_shape bounds shape) as [shape' ->]; [|by eexists].
    intros p Hp. apply Hreq. by eapply elem_of_required_shape. }
  simpl. split.
  - destruct (_templates_to_keys (source_template_keys t) _ _ _)
      as [sk|e] eqn:Hsk; simpl;
      [|apply templates_to_keys_Raise in Hsk as ->; by right].
    rewrite Hdv. simpl.
    destruct (_templates_to_keys (dest_template_keys t) _ _ _)
      as [dk|e] eqn:Hdk; simpl;
      [|apply templates_to_keys_Raise in Hdk as ->; by right].
    left. destruct sk, dk; try by eexists. rewrite Hu. by eexists.
  - intros Hs Hd.
    destruct (templates_to_keys_well_formed _ values _ sv Hs) as [sk ->].
    simpl. rewrite Hdv. simpl.
    destruct (templates_to_keys_well_formed _ values _ dv Hd) as [dk ->].
    simpl. destruct sk, dk; try by eexists. rewrite Hu. by eexists.
Qed.

(** The keys of [dict(items)] are those of the items. *)
Lemma elem_of_dict_set {V} (k q : TemplatePlaceholder) (v : V) d :
  q ∈ (Py.dict_set k v d).*1 ↔ q = k ∨ q ∈ d.*1.
Proof.
  induction d as [|[k' v'] d IH]; simpl.
  - rewrite list_elem_of_singleton. set_solver.
  - case_decide; simpl; rewrite !elem_of_cons; [naive_solver|].
    rewrite IH. naive_solver.
Qed.

Lemma elem_of_dict {V} (q : TemplatePlaceholder)
    (items : list (TemplatePlaceholder * V)) :
  q ∈ (Py.dict items).*1 ↔ q ∈ items.*1.
Proof.
  unfold Py.dict.
  assert (∀ acc : list (TemplatePlaceholder * V),
    q ∈ (foldl (λ d kv, Py.dict_set kv.1 kv.2 d) acc items).*1
    ↔ q ∈ acc.*1 ∨ q ∈ items.*1) as Hgen.
  { induction items as [|[k v] items IH]; intros acc; simpl.
    - set_solver.
    - rewrite IH, elem_of_dict_set, elem_of_cons. naive_solver. }
  rewrite Hgen. set_solver.
Qed.

Lemma elem_of_product {A} (ls : list (list A)) c :
  c ∈ Py.product ls → Forall2 (λ l x, x ∈ l) ls c.
Proof.
  revert c. induction ls as [|l ls IH]; intros c; simpl.
  - intros ->%list_elem_of_singleton. constructor.
  - intros (x & (c' & -> & Hc')%list_elem_of_fmap & Hx)%list_elem_of_bind.
    constructor; auto.
Qed.

(** Every assignment [get_mappings] enumerates has an entry for every
    placeholder of the bounds. *)
Lemma combinations_cover (bounds : placeholder_bounds_t) c p :
  c ∈ StateConverter.placeholder_value_combinations bounds →
  p ∈ bounds.*1 → is_Some (Py.get p c).
Proof.
  unfold StateConverter.placeholder_value_combinations.
  intros (c' & -> & Hc'%elem_of_product)%list_elem_of_fmap Hp.
  apply get_is_Some, elem_of_dict.
  revert c' Hc'. induction bounds as [|[q b] bounds IH]; intros c' Hc';
    [by apply elem_of_nil in Hp|].
  rewrite fmap_cons in Hc'. apply Forall2_cons_inv_l in Hc'
    as (x & c'' & Hx & Hc'' & ->).
  simpl in Hp. apply elem_of_cons in Hp as [->|Hp].
  - rewrite fmap_cons. apply elem_of_cons. left.
    apply elem_of_app in Hx as [Hx|Hx].
    + by apply list_elem_of_fmap in Hx as (i & -> & _).
    + by apply list_elem_of_singleton in Hx as ->.
  - rewrite fmap_cons. apply elem_of_cons. right. by apply IH.
Qed.

End partial_assignment.

(** ** The claims on concrete inputs *)

(** The coverage error names the unclaimed key. *)
Example convert_unclaimed_key :
  (StateConverter.convert attn_converter 1%positive [(LAYER, 2)]
     {[ 1%positive := attn_source_extra ]}).2
  = Raise (KeysNotConverted ["lm_head.weight"]).
Proof. vm_compute. reflexivity. Qed.

(** C1 on a source dictionary with a key no template claims. *)
Lemma convert_coverage_witness :
  let h : store := {[ 1%positive := attn_source_extra ]} in
  let r := (StateConverter.convert attn_converter 1%positive [(LAYER, 2)] h).2 in
  match (StateConverter.get_mappings attn_converter 1%positive
           [(LAYER, 2)] h).2 with
  | Raise e => r = Raise e
  | Ok ms =>
      (∀ out, r = Ok out →
         ∀ k, k ∈ dom attn_source_extra → ∃ m, m ∈ ms ∧ k ∈ source_keys m)
      ∧ (∀ keys, r = Raise (KeysNotConverted keys) →
           keys ≠ [] ∧ Sorted String.le keys ∧ NoDup keys
           ∧ ∀ k, k ∈ keys ↔
                  k ∈ dom attn_source_extra
                  ∧ ∀ m, m ∈ ms → k ∉ source_keys m)
      ∧ ((∀ m, m ∈ ms → ∃ items, mapping_output attn_source_extra m = Ok items) →
         (∃ k, k ∈ dom attn_source_extra ∧ ∀ m, m ∈ ms → k ∉ source_keys m) →
         ∃ keys, r = Raise (KeysNotConverted keys))
  end.
Proof.
  apply (convert_coverage attn_converter 1%positive [(LAYER, 2)]
           {[ 1%positive := attn_source_extra ]} attn_source_extra).
  reflexivity.
Defined.

(** C9 on the same input. *)
Lemma convert_frame_witness :
  let h : store := {[ 1%positive := attn_source_extra ]} in
  let h' := (StateConverter.convert attn_converter 1%positive [(LAYER, 2)] h).1 in
  h' !! 1%positive = Some attn_source_extra
  ∧ (∀ l, is_Some (h !! l) → h' !! l = h !! l)
  ∧ (∀ out, (StateConverter.convert attn_converter 1%positive
               [(LAYER, 2)] h).2 = Ok out →
       h !! out = None ∧ out ≠ 1%positive ∧ is_Some (h' !! out))
  ∧ (StateConverter.get_mappings attn_converter 1%positive [(LAYER, 2)] h).1
    = h.
Proof.
  apply (convert_frame attn_converter 1%positive [(LAYER, 2)]
           {[ 1%positive := attn_source_extra ]} attn_source_extra).
  reflexivity.
Defined.

(** C2, the code at the failing inputs. A tensor of size 10 mapped to three
    destination keys, and one of size 5 mapped to four: [convert] raises
    nothing. It returns pieces of sizes 4, 4 and 2 in the first case, and in
    the second only three pieces, of sizes 2, 2 and 1, so that the fourth
    destination key is absent from the result. *)
Example uneven_chunks_written :
  let r := StateConverter.convert split3_converter 1%positive []
             {[ 1%positive := split3_source ]} in
  let r' := StateConverter.convert split4_converter 1%positive []
              {[ 1%positive := split4_source ]} in
  r.2 = Ok 2%positive
  ∧ r.1 !! 2%positive
    = Some {[ "a" := VTensor (vec [0; 1; 2; 3]);
              "b" := VTensor (vec [4; 5; 6; 7]);
              "c" := VTensor (vec [8; 9]) ]}
  ∧ r'.2 = Ok 2%positive
  ∧ r'.1 !! 2%positive
    = Some {[ "a" := VTensor (vec [0; 1]);
              "b" := VTensor (vec [2; 3]);
              "c" := VTensor (vec [4]) ]}.
Proof. vm_compute. repeat split; reflexivity. Qed.



(** C4 as stated fails: the value that is not a tensor is under the second
    source key of the mapping, and [convert] raises the [TypeError] of the
    concatenation, not [NonTensorStates]. *)
Lemma non_tensor_later_key_counterexample :
  let d : gmap string value :=
    {[ "a" := VTensor (vec [1; 2]); "b" := VObject 3 ]} in
  let h : store := {[ 1%positive := d ]} in
  (StateConverter.get_mappings merge_converter 1%positive [] h).2
  = Ok [plain_mapping ["a"; "b"] ["c"]]
  ∧ d !! "b" = Some (VObject 3)
  ∧ (StateConverter.convert merge_converter 1%positive [] h).2
    = Raise TypeError
  ∧ (StateConverter.convert merge_converter 1%positive [] h).2
    ≠ Raise (NonTensorStates 2 1).
Proof. vm_compute. repeat split; try reflexivity. discriminate. Qed.

(** C4 as amended, on a mapping whose second source key holds a value that
    is not a tensor. *)
Lemma non_tensor_source_raises_witness :
  let d : gmap string value :=
    {[ "a" := VTensor (vec [1; 2]); "b" := VObject 3 ]} in
  let h : store := {[ 1%positive := d ]} in
  let m := plain_mapping ["a"; "b"] ["c"] in
  (∃ e, (StateConverter.convert merge_converter 1%positive [] h).2 = Raise e)
  ∧ (∀ pre post,
       [m] = pre ++ m :: post →
       (∀ m', m' ∈ pre → ∃ items, mapping_output d m' = Ok items) →
       head (source_keys m) = Some "b" →
       (StateConverter.convert merge_converter 1%positive [] h).2
       = Raise (NonTensorStates (length (source_keys m))
                  (length (dest_keys m))))
  ∧ (∀ pre post k0 t0,
       [m] = pre ++ m :: post →
       (∀ m', m' ∈ pre → ∃ items, mapping_output d m' = Ok items) →
       head (source_keys m) = Some k0 → d !! k0 = Some (VTensor t0) →
       (StateConverter.convert merge_converter 1%positive [] h).2
       = Raise TypeError).
Proof.
  apply (non_tensor_source_raises merge_converter 1%positive []
           {[ 1%positive :=
                {[ "a" := VTensor (vec [1; 2]); "b" := VObject 3 ]} ]}
           {[ "a" := VTensor (vec [1; 2]); "b" := VObject 3 ]}
           [plain_mapping ["a"; "b"] ["c"]] (plain_mapping ["a"; "b"] ["c"])
           "b" 3).
  - reflexivity.
  - vm_compute. reflexivity.
  - apply list_elem_of_here.
  - apply list_elem_of_further, list_elem_of_here.
  - reflexivity.
Defined.

(** The error for a value that is not a tensor under the only source
    key. *)
Example non_tensor_first_key :
  (StateConverter.convert copy_converter 1%positive []
     {[ 1%positive := {[ "a" := VObject 3 ]} ]}).2
  = Raise (NonTensorStates 1 1).
Proof. vm_compute. reflexivity. Qed.

(** C5 as stated fails: the destination template names the layer without
    expanding over it, and the resolution returns no mapping. *)
Lemma layer_expansion_counterexample :
  StateMappingTemplate.source_key_per_placeholder layer_to_one_template
  = Some LAYER
  ∧ Py.get LAYER [(LAYER, 4)] = Some 4
  ∧ StateMappingTemplate.to_mapping layer_to_one_template
      [(LAYER, None)] [(LAYER, 4)] = Ok None.
Proof. vm_compute. repeat split; reflexivity. Qed.

(** C5 as amended, on a template that stacks four layers. *)
Lemma layer_expansion_witness :
  let t := layer_stack_template in
  let keys := ["blocks.0.w"; "blocks.1.w"; "blocks.2.w"; "blocks.3.w"] in
  StateMappingTemplate._templates_to_keys
    (StateMappingTemplate.source_template_keys t) [(LAYER, None)]
    (Some LAYER) (Some (Py.range 4)) = Ok (Some keys)
  ∧ (∀ m, StateMappingTemplate.to_mapping t [(LAYER, None)] [(LAYER, 4)]
          = Ok (Some m) → source_keys m = keys)
  ∧ (∀ dest_values dest_keys',
       (∀ p, p ∈ StateMappingTemplate.required_placeholders t → p = LAYER) →
       StateMappingTemplate.per_placeholder_values
         (StateMappingTemplate.dest_key_per_placeholder t)
         [(LAYER, None)] [(LAYER, 4)] = Ok dest_values →
       StateMappingTemplate._templates_to_keys
         (StateMappingTemplate.dest_template_keys t) [(LAYER, None)]
         (StateMappingTemplate.dest_key_per_placeholder t) dest_values
       = Ok (Some dest_keys') →
       ∃ m, StateMappingTemplate.to_mapping t [(LAYER, None)] [(LAYER, 4)]
            = Ok (Some m)
            ∧ source_keys m = keys ∧ dest_keys m = dest_keys')
  ∧ ((∃ p, p ∈ StateMappingTemplate.required_placeholders t ∧ p ≠ LAYER) →
     StateMappingTemplate.to_mapping t [(LAYER, None)] [(LAYER, 4)]
     = Ok None)
  ∧ ((∀ p, p ∈ StateMappingTemplate.required_placeholders t → p = LAYER) →
     ∃ m, StateMappingTemplate.to_mapping t [(LAYER, None)] [(LAYER, 4)]
          = Ok (Some m)
          ∧ source_keys m = keys ∧ dest_keys m = ["model.w"])
  ∧ (∀ values bounds m,
       Py.get LAYER bounds = Some 4 → Py.get LAYER values = Some None →
       StateMappingTemplate.to_mapping t values bounds = Ok (Some m) →
       StateMappingTemplate.fill_keys keys values = Some (source_keys m)
       ∧ length (source_keys m) = 4%nat)
  ∧ (∀ sd out unused (h : store) d acc m T0 T1 T2 T3,
       h !! sd = Some d → h !! out = Some acc →
       source_keys m = keys →
       (λ k, d !! k) <$> keys
       = [Some (VTensor T0); Some (VTensor T1); Some (VTensor T2);
          Some (VTensor T3)] →
       StateConverter.convert_mapping sd out unused m h
       = match
           original_state ← Torch.cat [T0; T1; T2; T3]
                              (source_concat_dim m);
           original_state ← StateConverter.transform m original_state;
           Torch.chunk original_state (length (dest_keys m))
             (dest_chunk_dim m)
         with
         | Ok state_chunks =>
             (<[out := write_items
                         (zip (dest_keys m) (VTensor <$> state_chunks))
                         acc]> h,
              Ok (unused ∖ list_to_set keys))
         | Raise e => (h, Raise e)
         end).
Proof.
  apply (layer_expansion layer_stack_template "blocks.[layer].w");
    reflexivity.
Defined.

(** A destination side that expands over the layer although its string
    does not hold the placeholder: [to_mapping] raises. *)
Example layer_dest_assertion :
  StateMappingTemplate.to_mapping layer_dest_no_token_template
    [(LAYER, None)] [(LAYER, 4)] = Raise AssertionError.
Proof. vm_compute. reflexivity. Qed.

(** The four layers are concatenated in the order of the indices. *)
Example layer_stack_order :
  let d : gmap string value :=
    {[ "blocks.0.w" := VTensor (vec [0]); "blocks.1.w" := VTensor (vec [1]);
       "blocks.2.w" := VTensor (vec [2]); "blocks.3.w" := VTensor (vec [3]) ]}
  in
  let r := StateConverter.convert (StateConverter.mk [layer_stack_template])
             1%positive [(LAYER, 4)] {[ 1%positive := d ]} in
  r.2 = Ok 2%positive
  ∧ r.1 !! 2%positive = Some {[ "model.w" := VTensor (vec [0; 1; 2; 3]) ]}.
Proof. vm_compute. split; reflexivity. Qed.

(** The mapping the stacking template resolves to. *)
Example layer_stack_resolves :
  StateMappingTemplate.to_mapping layer_stack_template
    [(LAYER, None)] [(LAYER, 4)]
  = Ok (Some (plain_mapping
                ["blocks.0.w"; "blocks.1.w"; "blocks.2.w"; "blocks.3.w"]
                ["model.w"])).
Proof. vm_compute. reflexivity. Qed.

(** C6 as stated fails: two tensors of the same, empty shape cannot be
    concatenated, and [convert] raises. *)
Lemma zero_dim_counterexample :
  let T0 := float32 [] [7] in
  let T1 := float32 [] [9] in
  Torch.wf T0 ∧ Torch.wf T1 ∧ Torch.shape T0 = Torch.shape T1
  ∧ (StateConverter.convert attn_converter 1%positive [(LAYER, 2)]
       {[ 1%positive := {[ "blocks.0.attn.w_q" := VTensor T0;
                           "blocks.1.attn.w_q" := VTensor T1 ]} ]}).2
    = Raise (TensorError OpCat).
Proof. vm_compute. repeat split; reflexivity. Qed.

(** C6 as amended, on two 2x2 tensors. *)
Lemma convert_layer_example_witness :
  let T0 := float32 [2; 2]%nat [1; 2; 3; 4] in
  let T1 := float32 [2; 2]%nat [5; 6; 7; 8] in
  let h : store :=
    {[ 1%positive := {[ "blocks.0.attn.w_q" := VTensor T0;
                        "blocks.1.attn.w_q" := VTensor T1 ]} ]} in
  ∃ h' out,
    StateConverter.convert (StateConverter.mk [attn_q_template]) 1%positive
      [(LAYER, 2)] h = (h', Ok out)
    ∧ h' !! out
      = Some {[ "model.layers.0.self_attn.q_proj.weight" := VTensor T0;
                "model.layers.1.self_attn.q_proj.weight" := VTensor T1 ]}.
Proof.
  apply (convert_layer_example _ 1%positive
           (float32 [2; 2]%nat [1; 2; 3; 4])
           (float32 [2; 2]%nat [5; 6; 7; 8]));
    first [reflexivity | discriminate].
Defined.

(** Two layers of one shape and different element types: the concatenation
    promotes to the wider type, and the destination key of the first layer
    gets a converted tensor, not the source tensor. *)
Example mixed_dtype_converted :
  let T0 := Torch.mk Torch.Int32 [1%nat] [Torch.Elem 16777217] in
  let T1 := Torch.mk Torch.Float32 [1%nat] [Torch.Elem 1] in
  let r := StateConverter.convert attn_converter 1%positive [(LAYER, 2)]
             {[ 1%positive := {[ "blocks.0.attn.w_q" := VTensor T0;
                                 "blocks.1.attn.w_q" := VTensor T1 ]} ]} in
  r.2 = Ok 2%positive
  ∧ r.1 !! 2%positive
    = Some {[ "model.layers.0.self_attn.q_proj.weight"
              := VTensor (Torch.mk Torch.Float32 [1%nat]
                            [Torch.Cast Torch.Float32 (Torch.Elem 16777217)]);
              "model.layers.1.self_attn.q_proj.weight" := VTensor T1 ]}.
Proof. vm_compute. split; reflexivity. Qed.

(** C7 as stated fails: two mappings read the key ["a"], and [convert]
    returns the dictionary with both destination keys, without any error. *)
Lemma double_claim_counterexample :
  let h : store := {[ 1%positive := {[ "a" := VTensor (vec [1; 2]) ]} ]} in
  let r := StateConverter.convert double_converter 1%positive [] h in
  (StateConverter.get_mappings double_converter 1%positive [] h).2
  = Ok [plain_mapping ["a"] ["b"]; plain_mapping ["a"] ["c"]]
  ∧ r.2 = Ok 2%positive
  ∧ r.1 !! 2%positive
    = Some {[ "b" := VTensor (vec [1; 2]); "c" := VTensor (vec [1; 2]) ]}.
Proof. vm_compute. repeat split; reflexivity. Qed.

(** C7 as amended, on the same input. *)
Lemma double_claim_completes_witness :
  let d : gmap string value := {[ "a" := VTensor (vec [1; 2]) ]} in
  let h : store := {[ 1%positive := d ]} in
  let ms := [plain_mapping ["a"] ["b"]; plain_mapping ["a"] ["c"]] in
  (∀ out acc unused m,
     m ∈ ms → h !! out = Some acc →
     (StateConverter.convert_mapping 1%positive out unused m h).2
     = Ok (unused ∖ list_to_set (source_keys m)))
  ∧ ∃ out outputs,
      (StateConverter.convert double_converter 1%positive [] h).2 = Ok out
      ∧ Forall2 (λ m items, mapping_output d m = Ok items) ms outputs
      ∧ (StateConverter.convert double_converter 1%positive [] h).1 !! out
        = Some (write_items (concat outputs) ∅).
Proof.
  apply (double_claim_completes double_converter 1%positive []
           {[ 1%positive := {[ "a" := VTensor (vec [1; 2]) ]} ]}
           {[ "a" := VTensor (vec [1; 2]) ]}
           [plain_mapping ["a"] ["b"]; plain_mapping ["a"] ["c"]]).
  - reflexivity.
  - vm_compute. reflexivity.
  - intros m Hm. apply elem_of_cons in Hm as [->|Hm];
      [eexists; vm_compute; reflexivity|].
    apply list_elem_of_singleton in Hm as ->.
    eexists; vm_compute; reflexivity.
  - intros k Hk. rewrite dom_singleton_L in Hk.
    apply elem_of_singleton in Hk as ->.
    exists (plain_mapping ["a"] ["b"]).
    split; apply list_elem_of_here.
Defined.

(** C8 as stated fails: the placeholder of the expansion occurs in the
    template string and its entry is [None], yet keys are returned; and a
    placeholder that has no entry in the assignment stays in the key, though
    no entry mismatches. *)
Lemma key_loop_counterexample :
  Py.contains (token LAYER) "blocks.[layer].w" = true
  ∧ StateMappingTemplate._templates_to_keys (KeyStr "blocks.[layer].w")
      [(LAYER, None)] (Some LAYER) (Some [0; 1])
    = Ok (Some ["blocks.0.w"; "blocks.1.w"])
  ∧ Py.contains (token EXPERT) "experts.[expert].w" = true
  ∧ StateMappingTemplate._templates_to_keys (KeyStr "experts.[expert].w")
      [(LAYER, None)] None None
    = Ok (Some ["experts.[expert].w"]).
Proof. vm_compute. repeat split; reflexivity. Qed.


(** The [KeyError] of an assignment with no entry for the
    per-placeholder. *)
Example to_mapping_unassigned_key_error :
  StateMappingTemplate.to_mapping attn_q_template [] [(LAYER, 2)]
  = Raise KeyError.
Proof. vm_compute. reflexivity. Qed.

(** C8 as amended, on strings with the layer and the expert placeholder. *)
Lemma key_loop_mismatch_witness :
  StateMappingTemplate.fill_keys ["blocks.[layer].w"] [(LAYER, None)] = None
  ∧ StateMappingTemplate.fill_keys ["blocks.w"] [(LAYER, Some 1)] = None
  ∧ StateMappingTemplate.fill_keys ["blocks.[layer].experts.[expert].w"]
      [(LAYER, Some 1); (EXPERT, Some 2)]
    = Some (substitute [(LAYER, Some 1); (EXPERT, Some 2)]
              <$> ["blocks.[layer].experts.[expert].w"]).
Proof.
  split; [|split].
  - apply (proj1 (key_loop_mismatch ["blocks.[layer].w"] [(LAYER, None)])).
    exists "blocks.[layer].w", LAYER.
    split; [apply elem_of_cons; by left|].
    split; [apply elem_of_cons; by left|]. reflexivity.
  - apply (proj1 (proj2 (key_loop_mismatch ["blocks.w"] [(LAYER, Some 1)]))).
    exists "blocks.w", LAYER, 1.
    split; [apply elem_of_cons; by left|].
    split; [apply elem_of_cons; by left|]. reflexivity.
  - apply (proj1 (proj2 (proj2 (key_loop_mismatch
             ["blocks.[layer].experts.[expert].w"]
             [(LAYER, Some 1); (EXPERT, Some 2)])))).
    intros template p value Ht%list_elem_of_singleton Hp. subst template.
    apply elem_of_cons in Hp as [Hp|Hp].
    { injection Hp as -> ->. split; [by eexists|reflexivity]. }
    apply list_elem_of_singleton in Hp. injection Hp as -> ->.
    split; [by eexists|reflexivity].
Defined.

Example substitute_layer_expert :
  substitute [(LAYER, Some 1); (EXPERT, Some 2)]
    "blocks.[layer].experts.[expert].w" = "blocks.1.experts.2.w".
Proof. vm_compute. reflexivity. Qed.


(** * Further properties of the engine *)

Section resolved.
Import StateMappingTemplate.

(** What [_templates_to_keys] returns is the loop over some list of
    strings. *)
Lemma templates_to_keys_fill templates values per indices keys :
  _templates_to_keys templates values per indices = Ok (Some keys) →
  ∃ strings, fill_keys strings values = Some keys.
Proof.
  unfold _templates_to_keys. intros H.
  destruct per as [p|].
  - destruct indices as [l|]; [|done]. destruct templates as [s|]; [|done].
    destruct (Py.contains (token p) s); [|done]. injection H as H. eauto.
  - destruct templates as [s|l]; [exists [s]|exists l]; congruence.
Qed.

Lemma fill_keys_Forall2 templates values keys :
  fill_keys templates values = Some keys ↔
  Forall2 (λ template key, fill_key template template values = Some key)
    templates keys.
Proof. apply mapM_Some. Qed.

Lemma fill_keys_clean templates values keys k p :
  fill_keys templates values = Some keys → k ∈ keys → p ∈ values.*1 →
  Py.contains (token p) k = false.
Proof.
  intros Hfill%fill_keys_Forall2 Hk Hp.
  apply list_elem_of_lookup in Hk as [i Hi].
  destruct (Forall2_lookup_r _ _ _ _ _ Hfill Hi) as (template & _ & Hkey).
  apply (fill_key_clean template values template k Hkey); [done|by right].
Qed.

Lemma to_mapping_parameters_aux (t : StateMappingTemplate.t) values bounds m :
  to_mapping t values bounds = Ok (Some m) →
  ∃ u, match StateMappingTemplate.unflatten_dim t with
       | None => Ok None
       | Some (dim, shape) =>
           shape' ← mapM (resolve_dim bounds) shape; Ok (Some (dim, shape'))
       end = Ok u
       ∧ StateMapping.unflatten_dim m = u
       ∧ StateMapping.source_concat_dim m
         = StateMappingTemplate.source_concat_dim t
       ∧ StateMapping.dims_permutation m
         = StateMappingTemplate.dims_permutation t
       ∧ StateMapping.flatten_dims m = StateMappingTemplate.flatten_dims t
       ∧ StateMapping.dest_chunk_dim m
         = StateMappingTemplate.dest_chunk_dim t.
Proof.
  unfold to_mapping. case_bool_decide; [done|].
  destruct (per_placeholder_values (source_key_per_placeholder t) _ _)
    as [sv|]; simpl; [|done].
  destruct (_templates_to_keys (source_template_keys t) _ _ _)
    as [sk|]; simpl; [|done].
  destruct (per_placeholder_values (dest_key_per_placeholder t) _ _)
    as [dv|]; simpl; [|done].
  destruct (_templates_to_keys (dest_template_keys t) _ _ _)
    as [dk|]; simpl; [|done].
  destruct sk as [sk|], dk as [dk|]; try done.
  destruct (match StateMappingTemplate.unflatten_dim t with
            | None => _ | Some _ => _ end) as [u|]; simpl; [|done].
  intros [= <-]. by exists u.
Qed.

Lemma resolve_shape_Forall2 bounds shape shape' :
  mapM (resolve_dim bounds) shape = Ok shape' →
  Forall2 (λ entry n,
             match entry with
             | DimInt k => n = k
             | DimPlaceholder p => Py.get p bounds = Some n
             end) shape shape'.
Proof.
  revert shape'. induction shape as [|entry shape IH]; intros shape'; simpl.
  - intros [= <-]. constructor.
  - destruct (resolve_dim bounds entry) as [n|] eqn:Hn; simpl; [|done].
    destruct (mapM (resolve_dim bounds) shape) as [ns|]; simpl; [|done].
    intros [= <-]. constructor; [|by apply IH].
    destruct entry as [p|k]; simpl in Hn; [|by simplify_eq].
    by destruct (Py.get p bounds); simplify_eq.
Qed.

(** X1. A mapping that [to_mapping] returns has the transform parameters of
    its template: the concatenation and chunk dimensions, the permutation
    and the flattened range are those of the template, and the shape of
    [unflatten_dim] is the shape of the template with every placeholder
    replaced by its bound and every number kept. *)
Theorem to_mapping_parameters (t : StateMappingTemplate.t) values bounds m :
  to_mapping t values bounds = Ok (Some m) →
  StateMapping.source_concat_dim m = StateMappingTemplate.source_concat_dim t
  ∧ StateMapping.dims_permutation m = StateMappingTemplate.dims_permutation t
  ∧ StateMapping.flatten_dims m = StateMappingTemplate.flatten_dims t
  ∧ StateMapping.dest_chunk_dim m = StateMappingTemplate.dest_chunk_dim t
  ∧ match StateMappingTemplate.unflatten_dim t with
    | None => StateMapping.unflatten_dim m = None
    | Some (dim, shape) =>
        ∃ shape',
          StateMapping.unflatten_dim m = Some (dim, shape')
          ∧ Forall2 (λ entry n,
                       match entry with
                       | DimInt k => n = k
                       | DimPlaceholder p => Py.get p bounds = Some n
                       end) shape shape'
    end.
Proof.
  intros (u & Hu & Hm & -> & -> & -> & ->)%to_mapping_parameters_aux.
  do 4 (split; [done|]).
  destruct (StateMappingTemplate.unflatten_dim t) as [[dim shape]|].
  - destruct (mapM (resolve_dim bounds) shape) as [shape'|] eqn:Hshape;
      simpl in Hu; [|done].
    injection Hu as <-. exists shape'. split; [done|].
    by apply resolve_shape_Forall2.
  - by injection Hu as <-.
Qed.

(** What a side of a template with a per-placeholder expansion resolves
    to. *)
Lemma side_expansion templates values bounds p indices keys :
  per_placeholder_values (Some p) values bounds = Ok indices →
  _templates_to_keys templates values (Some p) indices = Ok (Some keys) →
  ∃ s bound,
    templates = KeyStr s
    ∧ Py.contains (token p) s = true
    ∧ Py.get p values = Some None
    ∧ Py.get p bounds = Some bound
    ∧ fill_keys ((λ i, Py.replace (token p) (Py.str i) s) <$> Py.range bound)
        values = Some keys
    ∧ length keys = Z.to_nat bound.
Proof.
  simpl. intros Hindices Hkeys.
  destruct (Py.get p values) as [[v|]|] eqn:Hv; [by simplify_eq| |done].
  destruct (Py.get p bounds) as [bound|] eqn:Hb; [|done].
  injection Hindices as <-.
  destruct templates as [s|l]; [|done].
  destruct (Py.contains (token p) s) eqn:Hc; [|done].
  injection Hkeys as Hkeys. exists s, bound. do 4 (split; [done|]).
  split; [done|].
  apply fill_keys_length in Hkeys. rewrite Hkeys, length_fmap.
  unfold Py.range. by rewrite length_seqZ.
Qed.

(** X2. A mapping returned for a template that expands its source side over
    a placeholder: the source template is one string that holds the
    placeholder, the assignment gives the placeholder the value [None], and
    the source keys are the strings with the indices [0 .. bound) in place of
    the placeholder, in ascending order, with the other placeholders filled
    in: as many keys as the bound, and none when the bound is not
    positive. The same holds of the destination side. *)
Theorem expansion_keys (t : StateMappingTemplate.t) values bounds m :
  to_mapping t values bounds = Ok (Some m) →
  (∀ p, source_key_per_placeholder t = Some p →
     ∃ s bound,
       source_template_keys t = KeyStr s
       ∧ Py.contains (token p) s = true
       ∧ Py.get p values = Some None
       ∧ Py.get p bounds = Some bound
       ∧ fill_keys
           ((λ i, Py.replace (token p) (Py.str i) s) <$> Py.range bound)
           values = Some (source_keys m)
       ∧ length (source_keys m) = Z.to_nat bound)
  ∧ (∀ p, dest_key_per_placeholder t = Some p →
       ∃ s bound,
         dest_template_keys t = KeyStr s
         ∧ Py.contains (token p) s = true
         ∧ Py.get p values = Some None
         ∧ Py.get p bounds = Some bound
         ∧ fill_keys
             ((λ i, Py.replace (token p) (Py.str i) s) <$> Py.range bound)
             values = Some (dest_keys m)
         ∧ length (dest_keys m) = Z.to_nat bound).
Proof.
  intros (sv & dv & Hsv & Hsk & Hdv & Hdk)%to_mapping_Some. split.
  - intros p Hp. rewrite Hp in Hsv, Hsk. by eapply side_expansion.
  - intros p Hp. rewrite Hp in Hdv, Hdk. by eapply side_expansion.
Qed.

(** No key of a mapping that [to_mapping] returns holds a placeholder that
    has an entry in the assignment. *)
Lemma to_mapping_keys_clean (t : StateMappingTemplate.t) values bounds m k p :
  to_mapping t values bounds = Ok (Some m) →
  k ∈ source_keys m ++ dest_keys m → p ∈ values.*1 →
  Py.contains (token p) k = false.
Proof.
  intros (sv & dv & _ & Hsk & _ & Hdk)%to_mapping_Some Hk Hp.
  apply templates_to_keys_fill in Hsk as [ss Hss].
  apply templates_to_keys_fill in Hdk as [ds Hds].
  apply elem_of_app in Hk as [Hk|Hk].
  - by apply (fill_keys_clean ss values (source_keys m)).
  - by apply (fill_keys_clean ds values (dest_keys m)).
Qed.

(** [__post_init__] accepts a template exactly when no side with a
    per-placeholder is a tuple. *)
Lemma post_init_Ok (t : StateMappingTemplate.t) :
  __post_init__ t = Ok () →
  (∀ p, source_key_per_placeholder t = Some p →
        ∃ s, source_template_keys t = KeyStr s)
  ∧ (∀ p, dest_key_per_placeholder t = Some p →
          ∃ s, dest_template_keys t = KeyStr s).
Proof.
  unfold __post_init__. intros H. split; intros p Hp; rewrite Hp in H.
  - destruct (source_template_keys t); [by eexists|].
    by rewrite bool_decide_eq_true_2 in H by by eexists.
  - destruct (dest_template_keys t); [by eexists|].
    rewrite (bool_decide_eq_true_2 (is_Some (Some p))) in H by by eexists.
    simpl in H. by case_match.
Qed.

Lemma templates_to_keys_assertion templates values per indices :
  _templates_to_keys templates values per indices = Raise AssertionError →
  ∃ p, per = Some p ∧ is_Some indices
       ∧ match templates with
         | KeyStr s => Py.contains (token p) s = false
         | KeyTuple _ => True
         end.
Proof.
  unfold _templates_to_keys. intros H.
  destruct per as [p|]; [|by destruct templates].
  exists p. split; [done|]. destruct indices as [l|]; [|done].
  split; [by eexists|]. destruct templates as [s|]; [|done].
  by destruct (Py.contains (token p) s).
Qed.

Lemma per_placeholder_values_is_Some p values bounds indices :
  per_placeholder_values p values bounds = Ok (Some indices) →
  ∃ q, p = Some q ∧ Py.get q values = Some None.
Proof.
  unfold per_placeholder_values. intros H.
  destruct p as [q|]; [|done]. exists q. split; [done|].
  by repeat case_match; simplify_eq.
Qed.

Lemma per_placeholder_values_Raise p values bounds e :
  per_placeholder_values p values bounds = Raise e → e = KeyError.
Proof.
  unfold per_placeholder_values. intros H. by repeat case_match; simplify_eq.
Qed.

Lemma resolve_shape_Raise bounds shape e :
  mapM (resolve_dim bounds) shape = Raise e → e = KeyError.
Proof.
  induction shape as [|entry shape IH]; simpl; [done|].
  destruct (resolve_dim bounds entry) as [n|e'] eqn:Hn; simpl.
  - destruct (mapM (resolve_dim bounds) shape); simpl; [done|].
    intros [= <-]. by apply IH.
  - intros [= <-]. destruct entry as [p|k]; simpl in Hn; [|done].
    by destruct (Py.get p bounds); simplify_eq.
Qed.

(** X3. A template that [__post_init__] accepts fails no type assertion:
    when [to_mapping] raises [AssertionError] for it, one of its sides
    expands over a placeholder that its template string does not hold, and
    the assignment gives this placeholder the value [None]. *)
Theorem post_init_assertion (t : StateMappingTemplate.t) values bounds :
  __post_init__ t = Ok () →
  to_mapping t values bounds = Raise AssertionError →
  (∃ p s, source_key_per_placeholder t = Some p
          ∧ source_template_keys t = KeyStr s
          ∧ Py.contains (token p) s = false
          ∧ Py.get p values = Some None)
  ∨ (∃ p s, dest_key_per_placeholder t = Some p
            ∧ dest_template_keys t = KeyStr s
            ∧ Py.contains (token p) s = false
            ∧ Py.get p values = Some None).
Proof.
  intros [Hsource Hdest]%post_init_Ok. unfold to_mapping.
  case_bool_decide; [done|].
  destruct (per_placeholder_values (source_key_per_placeholder t) _ _)
    as [sv|e] eqn:Hsv; simpl;
    [|intros [= ->]; by apply per_placeholder_values_Raise in Hsv].
  destruct (_templates_to_keys (source_template_keys t) _ _ _)
    as [sk|e] eqn:Hsk; simpl.
  2:{ intros [= ->]. left.
      apply templates_to_keys_assertion in Hsk as (p & Hp & [l ->] & Hc).
      destruct (Hsource p Hp) as [s Hs]. rewrite Hs in Hc.
      apply per_placeholder_values_is_Some in Hsv as (q & Hq & Hv).
      exists p, s. by simplify_eq. }
  destruct (per_placeholder_values (dest_key_per_placeholder t) _ _)
    as [dv|e] eqn:Hdv; simpl;
    [|intros [= ->]; by apply per_placeholder_values_Raise in Hdv].
  destruct (_templates_to_keys (dest_template_keys t) _ _ _)
    as [dk|e] eqn:Hdk; simpl.
  2:{ intros [= ->]. right.
      apply templates_to_keys_assertion in Hdk as (p & Hp & [l ->] & Hc).
      destruct (Hdest p Hp) as [s Hs]. rewrite Hs in Hc.
      apply per_placeholder_values_is_Some in Hdv as (q & Hq & Hv).
      exists p, s. by simplify_eq. }
  destruct sk, dk; try done.
  destruct (StateMappingTemplate.unflatten_dim t) as [[dim shape]|]; [|done].
  simpl. destruct (mapM (resolve_dim bounds) shape) eqn:Hshape; [done|].
  simpl. intros [= ->]. by apply resolve_shape_Raise in Hshape.
Qed.

End resolved.

Section expansion.
Import Py.
Implicit Types p s u v w : string.
#[local] Arguments String.append !_ _ / : simpl nomatch.

Lemma string_app_inj_l u a b : u +:+ a = u +:+ b → a = b.
Proof. induction u as [|c u IH]; simpl; [done|]. intros [= H]. auto. Qed.

Lemma string_app_inj_length a b x y :
  String.length a = String.length b → a +:+ x = b +:+ y → a = b.
Proof.
  revert b. induction a as [|c a IH]; intros [|c' b]; simpl; try done.
  intros [= Hlen] [= -> H]. f_equal. eauto.
Qed.

Lemma contains_empty p : p ≠ EmptyString → contains p "" = false.
Proof. by destruct p. Qed.

Lemma contains_partition p s :
  contains p s = true → is_Some (partition p s).
Proof.
  intros Hc. destruct (partition p s) eqn:Hp; [by eexists|].
  apply partition_None in Hp. congruence.
Qed.

(** The length of the result of a replacement is that of the string with,
    for every occurrence replaced, the length of the token exchanged
    for the length of the new text; the number of occurrences does not depend
    on the new text. *)
Lemma replace_count_length p n : ∀ s,
  p ≠ EmptyString → (String.length s ≤ n)%nat →
  ∃ k : nat,
    (contains p s = true → (0 < k)%nat)
    ∧ ∀ new,
        (String.length (replace_count n p new s) + k * String.length p
         = String.length s + k * String.length new)%nat.
Proof.
  induction n as [|n IH]; intros s Hp Hlen.
  - destruct s; [|simpl in Hlen; lia]. exists 0%nat. split; [|done].
    by rewrite contains_empty.
  - simpl. destruct (partition p s) as [[u v]|] eqn:Hpart.
    + apply partition_Some in Hpart as (-> & _ & Hv); [|done].
      destruct (IH v Hp) as (k & _ & Hk); [lia|].
      exists (S k). split; [lia|]. intros new.
      rewrite !string_app_length. specialize (Hk new). lia.
    + exists 0%nat. split; [|intros; lia].
      apply partition_None in Hpart. congruence.
Qed.

(** The text put in place of a token that occurs is determined by the
    result. *)
Lemma replace_inj p s new1 new2 :
  p ≠ EmptyString → contains p s = true →
  replace p new1 s = replace p new2 s → new1 = new2.
Proof.
  intros Hp Hc Heq. unfold replace in Heq.
  destruct (replace_count_length p (String.length s) s Hp) as (k & Hk & Hlen);
    [done|].
  specialize (Hk Hc).
  assert (String.length new1 = String.length new2) as Hnew.
  { pose proof (Hlen new1) as H1. pose proof (Hlen new2) as H2.
    rewrite Heq in H1. nia. }
  destruct (String.length s) as [|n] eqn:Hs.
  { destruct s; [|done]. by rewrite contains_empty in Hc. }
  simpl in Heq. destruct (contains_partition p s Hc) as [[u v] Hpart].
  rewrite Hpart in Heq. apply string_app_inj_l in Heq.
  by apply string_app_inj_length in Heq.
Qed.

Lemma expansion_inj (p : TemplatePlaceholder) s i j :
  Py.contains (token p) s = true →
  Py.replace (token p) (Py.str i) s = Py.replace (token p) (Py.str j) s →
  i = j.
Proof.
  intros Hc Heq. apply replace_inj in Heq; [|by destruct p|done].
  by apply (inj pretty) in Heq.
Qed.

Lemma expansion_NoDup (p : TemplatePlaceholder) s bound :
  Py.contains (token p) s = true →
  NoDup ((λ i, Py.replace (token p) (Py.str i) s) <$> Py.range bound).
Proof.
  intros Hc. apply NoDup_fmap_2_strong; [|apply NoDup_seqZ].
  intros i j _ _. by apply expansion_inj.
Qed.

(** X4. The expansion over a placeholder sends different indices to
    different strings: the string with [i] in place of the placeholder equals
    the string with [j] in its place only when [i = j], so the strings the
    expansion over [range(bound)] produces are pairwise distinct. *)
Theorem expansion_injective (p : TemplatePlaceholder) s :
  Py.contains (token p) s = true →
  (∀ i j, Py.replace (token p) (Py.str i) s
          = Py.replace (token p) (Py.str j) s → i = j)
  ∧ ∀ bound,
      NoDup ((λ i, Py.replace (token p) (Py.str i) s) <$> Py.range bound).
Proof.
  intros Hc. split.
  - intros i j. by apply expansion_inj.
  - intros bound. by apply expansion_NoDup.
Qed.

End expansion.

Section discovery.
Import StateMappingTemplate.

(** The pairs of a template and an assignment that [_get_mappings]
    resolves. *)
Lemma elem_of_resolution_pairs (self : StateConverter.t) bounds t c :
  (t, c) ∈ (mapping_template ← StateConverter.mapping_templates self;
            (mapping_template,.)
              <$> StateConverter.placeholder_value_combinations bounds)
  ↔ t ∈ StateConverter.mapping_templates self
    ∧ c ∈ StateConverter.placeholder_value_combinations bounds.
Proof.
  rewrite list_elem_of_bind. split.
  - intros (t' & (c' & [= -> ->] & Hc)%list_elem_of_fmap & Ht). done.
  - intros [Ht Hc]. exists t. split; [|done].
    apply list_elem_of_fmap. by exists c.
Qed.

(** The mappings [_get_mappings] resolves are those [to_mapping] returns for
    a template of the converter and an assignment of the enumeration. *)
Lemma elem_of_resolved_mappings (self : StateConverter.t) bounds all m :
  StateConverter.resolved_mappings self bounds = Ok all →
  m ∈ all ↔
  ∃ t c, t ∈ StateConverter.mapping_templates self
         ∧ c ∈ StateConverter.placeholder_value_combinations bounds
         ∧ to_mapping t c bounds = Ok (Some m).
Proof.
  unfold StateConverter.resolved_mappings.
  destruct (mapM _ _) as [sms|] eqn:Hsms; simpl; [|done].
  intros [= <-]. apply result_mapM_Ok in Hsms.
  rewrite list_elem_of_omap. split.
  - intros (x & Hx & Hid). simpl in Hid. subst x.
    apply list_elem_of_lookup in Hx as [i Hi].
    destruct (Forall2_lookup_r _ _ _ _ _ Hsms Hi) as ([t c] & Hpair & Hm).
    apply list_elem_of_lookup_2, elem_of_resolution_pairs in Hpair.
    exists t, c. by destruct Hpair.
  - intros (t & c & Ht & Hc & Hm).
    assert ((t, c) ∈ (mapping_template ← StateConverter.mapping_templates self;
              (mapping_template,.)
                <$> StateConverter.placeholder_value_combinations bounds))
      as [i Hi]%list_elem_of_lookup.
    { by apply elem_of_resolution_pairs. }
    destruct (Forall2_lookup_l _ _ _ _ _ Hsms Hi) as (x & Hx & Hm').
    exists x. split; [by eapply list_elem_of_lookup_2|].
    unfold StateConverter._fill_placeholders in Hm'. simpl. congruence.
Qed.

(** X5. [get_mappings] returns exactly the mappings that [to_mapping]
    returns for a template of the converter under an assignment of the
    enumeration and whose source keys are all keys of the state
    dictionary. *)
Theorem get_mappings_characterised (self : StateConverter.t) sd bounds
    (h : store) d ms :
  h !! sd = Some d →
  (StateConverter.get_mappings self sd bounds h).2 = Ok ms →
  ∀ m, m ∈ ms ↔
       (∃ t c, t ∈ StateConverter.mapping_templates self
               ∧ c ∈ StateConverter.placeholder_value_combinations bounds
               ∧ to_mapping t c bounds = Ok (Some m))
       ∧ ∀ k, k ∈ source_keys m → k ∈ dom d.
Proof.
  intros Hsd. rewrite get_mappings_run, (deref_Some _ _ _ Hsd). simpl.
  destruct (StateConverter.resolved_mappings self bounds) as [all|] eqn:Hall;
    simpl; [|done].
  intros [= <-] m.
  by rewrite elem_of_List_filter, relevant_spec,
    (elem_of_resolved_mappings _ _ _ _ Hall).
Qed.

(** Resolution raises nothing but a failed assertion. *)
Lemma resolved_mappings_Raise (self : StateConverter.t) bounds e :
  StateConverter.resolved_mappings self bounds = Raise e →
  e = AssertionError
  ∧ ∃ t c, t ∈ StateConverter.mapping_templates self
           ∧ c ∈ StateConverter.placeholder_value_combinations bounds
           ∧ to_mapping t c bounds = Raise AssertionError.
Proof.
  unfold StateConverter.resolved_mappings.
  destruct (mapM _ _) as [sms|e'] eqn:Hsms; simpl; [done|].
  intros [= ->]. apply result_mapM_Raise in Hsms as ([t c] & Hpair & He).
  apply elem_of_resolution_pairs in Hpair as [Ht Hc].
  unfold StateConverter._fill_placeholders in He.
  destruct (proj1 (to_mapping_assigned t c bounds
                     (λ p, combinations_cover bounds c p Hc)))
    as [[r Hr]|Hr]; [congruence|].
  assert (e = AssertionError) as -> by congruence. eauto 10.
Qed.

Lemma resolved_mappings_well_formed (self : StateConverter.t) bounds :
  (∀ t, t ∈ StateConverter.mapping_templates self →
     side_well_formed (source_template_keys t) (source_key_per_placeholder t)
     ∧ side_well_formed (dest_template_keys t) (dest_key_per_placeholder t)) →
  ∃ all, StateConverter.resolved_mappings self bounds = Ok all.
Proof.
  intros Hwf. unfold StateConverter.resolved_mappings.
  match goal with
  | |- context [mapM ?f ?l] =>
      destruct (result_mapM_is_Ok f l) as [sms ->]; [|by eexists]
  end.
  intros [t c] [Ht Hc]%elem_of_resolution_pairs.
  destruct (Hwf t Ht) as [Hs Hd].
  apply (proj2 (to_mapping_assigned t c bounds
                  (λ p, combinations_cover bounds c p Hc)) Hs Hd).
Qed.

(** X6. The only exception [get_mappings] raises is the [AssertionError] of
    a template that expands a side over a placeholder its template string
    does not hold (or whose side is a tuple); it never raises [KeyError].
    When every side with a per-placeholder is one string that holds the
    placeholder, [get_mappings] returns. *)
Theorem get_mappings_exceptions (self : StateConverter.t) sd bounds
    (h : store) :
  (∀ e, (StateConverter.get_mappings self sd bounds h).2 = Raise e →
     e = AssertionError
     ∧ ∃ t, t ∈ StateConverter.mapping_templates self
            ∧ ¬ (side_well_formed (source_template_keys t)
                   (source_key_per_placeholder t)
                 ∧ side_well_formed (dest_template_keys t)
                     (dest_key_per_placeholder t)))
  ∧ ((∀ t, t ∈ StateConverter.mapping_templates self →
        side_well_formed (source_template_keys t)
          (source_key_per_placeholder t)
        ∧ side_well_formed (dest_template_keys t)
            (dest_key_per_placeholder t)) →
     ∃ ms, StateConverter.get_mappings self sd bounds h = (h, Ok ms)).
Proof.
  rewrite get_mappings_run. split.
  - intros e. simpl.
    destruct (StateConverter.resolved_mappings self bounds) as [all|e']
      eqn:Hall; simpl; [done|].
    intros [= ->].
    apply resolved_mappings_Raise in Hall as (-> & t & c & Ht & Hc & He).
    split; [done|]. exists t. split; [done|]. intros [Hs Hd].
    destruct (proj2 (to_mapping_assigned t c bounds
                       (λ p, combinations_cover bounds c p Hc)) Hs Hd)
      as [r Hr].
    congruence.
  - intros Hwf.
    destruct (resolved_mappings_well_formed self bounds Hwf) as [all ->].
    by eexists.
Qed.

End discovery.

Section conversion.

(** [torch.chunk] returns at least one piece and at most [chunks]. *)
Lemma chunk_length t chunks dim pieces :
  Torch.chunk t chunks dim = Ok pieces →
  (0 < length pieces ≤ chunks)%nat.
Proof.
  unfold Torch.chunk. case_bool_decide; [done|].
  case_bool_decide as Hchunks; [done|].
  destruct (Torch.wrap_dim _ _) as [d|]; [|done].
  set (size := Torch.shape t !!! d).
  case_bool_decide as Hsplit.
  - intros [= <-]. rewrite length_replicate. lia.
  - intros [= <-]. rewrite length_fmap, length_seq.
    set (split := ((size + chunks - 1) / chunks)%nat) in *.
    split; [lia|]. apply Nat.max_lub; [|lia].
    pose proof (Nat.div_mod_eq (size + chunks - 1) chunks) as Hdiv.
    pose proof (Nat.mod_upper_bound (size + chunks - 1) chunks Hchunks).
    fold split in Hdiv.
    assert ((size + split - 1) / split < S chunks)%nat; [|lia].
    apply Nat.Div0.div_lt_upper_bound. nia.
Qed.













Lemma write_items_lookup items : ∀ (acc : gmap string value) k v,
  write_items items acc !! k = Some v →
  (k, v) ∈ items ∨ acc !! k = Some v.
Proof.
  induction items as [|[k0 v0] items IH]; intros acc k v; simpl; [by right|].
  intros [Hin|Hacc]%IH; [left; by right|].
  apply lookup_insert_Some in Hacc as [[<- <-]|[_ Hacc]]; [left; by left|].
  by right.
Qed.

Lemma elem_of_concat {A} (x : A) (ls : list (list A)) :
  x ∈ concat ls ↔ ∃ l, l ∈ ls ∧ x ∈ l.
Proof.
  rewrite list_elem_of_In, in_concat.
  by setoid_rewrite list_elem_of_In.
Qed.

Lemma fst_zip_take {A B} (l : list A) (k : list B) :
  (zip l k).*1 = take (length k) l.
Proof. revert k. induction l; intros [|y k]; simpl; f_equal; auto. Qed.

(** The items an iteration writes: the keys are a non-empty prefix of the
    destination keys of the mapping, in their order, and the values are
    tensors. *)
Lemma mapping_output_items d m items :
  mapping_output d m = Ok items →
  items ≠ [] ∧ items.*1 `prefix_of` dest_keys m
  ∧ Forall (λ kv, ∃ t, kv.2 = VTensor t) items.
Proof.
  unfold mapping_output. intros H.
  destruct (match source_keys m with [] => _ | _ => _ end) as [[t|n]|];
    simpl in H; [|done..].
  destruct (mapM _ (source_keys m)) as [states|]; simpl in H; [|done].
  destruct (torch_cat _ _) as [st|]; simpl in H; [|done].
  destruct (StateConverter.transform _ _) as [st'|]; simpl in H; [|done].
  destruct (Torch.chunk _ _ _) as [pieces|] eqn:Hch; simpl in H; [|done].
  injection H as <-. apply chunk_length in Hch.
  split; [|split].
  - intros Hnil%(f_equal length).
    rewrite length_zip, length_fmap in Hnil. simpl in Hnil. lia.
  - exists (drop (length pieces) (dest_keys m)).
    by rewrite fst_zip_take, length_fmap, take_drop.
  - apply Forall_forall. intros [k v] Hkv. apply elem_of_zip_r in Hkv.
    apply list_elem_of_fmap in Hkv as (piece & -> & _). by eexists.
Qed.

(** X8. What [convert] returns: every key of the returned dictionary is a
    destination key of a discovered mapping, and every value is a tensor. *)
Theorem convert_output (self : StateConverter.t) sd bounds (h : store)
    d ms out :
  h !! sd = Some d →
  (StateConverter.get_mappings self sd bounds h).2 = Ok ms →
  (StateConverter.convert self sd bounds h).2 = Ok out →
  ∃ acc,
    (StateConverter.convert self sd bounds h).1 !! out = Some acc
    ∧ ∀ k v, acc !! k = Some v →
        (∃ t, v = VTensor t) ∧ ∃ m, m ∈ ms ∧ k ∈ dest_keys m.
Proof.
  intros Hsd. rewrite (convert_run _ _ _ _ d Hsd), get_mappings_run.
  rewrite (deref_Some _ _ _ Hsd).
  destruct (StateConverter.resolved_mappings self bounds) as [all|];
    simpl; [|done].
  intros [= <-]. set (ms := List.filter _ all).
  destruct (apply_mappings d ∅ (dom d) ms) as [acc [unused|e']] eqn:Hrun;
    simpl; [|done].
  case_bool_decide; [done|]. intros [= <-].
  exists acc. split; [by rewrite lookup_insert_eq|].
  destruct (apply_mappings_Ok _ _ _ _ _ _ Hrun) as [_ Hall].
  destruct (apply_mappings_outputs d ms ∅ (dom d) Hall)
    as (outputs & Hout & Heq).
  rewrite Hrun in Heq. injection Heq as -> _.
  intros k v [Hkv|Hkv]%write_items_lookup; [|by rewrite lookup_empty in Hkv].
  apply elem_of_concat in Hkv as (items & Hitems & Hkv).
  apply list_elem_of_lookup in Hitems as [i Hi].
  destruct (Forall2_lookup_r _ _ _ _ _ Hout Hi) as (m & Hm & Hitems).
  apply mapping_output_items in Hitems as (_ & [rest Hpre] & Hten).
  split.
  - by apply (proj1 (Forall_forall _ _) Hten (k, v)).
  - exists m. split; [by eapply list_elem_of_lookup_2|].
    rewrite Hpre. apply elem_of_app. left.
    apply list_elem_of_fmap. by exists (k, v).
Qed.

End conversion.

Section discovered.
Import StateMappingTemplate.

(** X9. No key of a mapping [get_mappings] returns holds a placeholder that
    has a bound: in the source and the destination keys of a discovered
    mapping, every placeholder of the bounds has been replaced. *)
Theorem discovered_keys_clean (self : StateConverter.t) sd bounds (h : store)
    ms m k p :
  (StateConverter.get_mappings self sd bounds h).2 = Ok ms →
  m ∈ ms → k ∈ source_keys m ++ dest_keys m → p ∈ bounds.*1 →
  Py.contains (token p) k = false.
Proof.
  rewrite get_mappings_run. simpl.
  destruct (StateConverter.resolved_mappings self bounds) as [all|] eqn:Hall;
    simpl; [|done].
  intros [= <-] [Hm _]%elem_of_List_filter Hk Hp.
  apply (elem_of_resolved_mappings _ _ _ _ Hall) in Hm
    as (t & c & Ht & Hc & Hm).
  apply (to_mapping_keys_clean t c bounds m k p Hm Hk).
  by apply get_is_Some, (combinations_cover bounds).
Qed.

Lemma mapping_output_no_source_keys d m :
  source_keys m = [] → mapping_output d m = Raise IndexError.
Proof. unfold mapping_output. by intros ->. Qed.

(** X10. An expansion over a placeholder whose bound is zero (or negative)
    makes every conversion fail. The mapping the template resolves to has no
    source keys; [get_mappings] returns it whatever the state dictionary
    holds, as it has no source key that could be missing; and [convert]
    raises, with [IndexError] when the mappings before this one apply. *)
Theorem empty_expansion_raises (self : StateConverter.t) sd bounds
    (h : store) d ms t c m p bound :
  h !! sd = Some d →
  (StateConverter.get_mappings self sd bounds h).2 = Ok ms →
  t ∈ StateConverter.mapping_templates self →
  c ∈ StateConverter.placeholder_value_combinations bounds →
  to_mapping t c bounds = Ok (Some m) →
  source_key_per_placeholder t = Some p →
  Py.get p bounds = Some bound → bound ≤ 0 →
  source_keys m = [] ∧ m ∈ ms
  ∧ (∃ e, (StateConverter.convert self sd bounds h).2 = Raise e)
  ∧ (∀ pre post,
       ms = pre ++ m :: post → (∀ m', m' ∈ pre → applies d m') →
       (StateConverter.convert self sd bounds h).2 = Raise IndexError).
Proof.
  intros Hsd Hms Ht Hc Hm Hp Hbound Hle.
  assert (source_keys m = []) as Hnil.
  { apply to_mapping_Some in Hm as (sv & dv & Hsv & Hsk & _).
    rewrite Hp in Hsv, Hsk.
    destruct (side_expansion _ _ _ _ _ _ Hsv Hsk)
      as (s & bound' & _ & _ & _ & Hbound' & _ & Hlen).
    apply nil_length_inv. rewrite Hlen.
    assert (bound' = bound) as -> by congruence. lia. }
  rewrite (convert_run _ _ _ _ d Hsd).
  rewrite get_mappings_run, (deref_Some _ _ _ Hsd) in Hms. simpl in Hms.
  destruct (StateConverter.resolved_mappings self bounds) as [all|] eqn:Hall;
    simpl in Hms; [|done].
  injection Hms as <-. set (ms := List.filter _ all) in *.
  assert (m ∈ ms) as Hin.
  { apply elem_of_List_filter. split.
    - apply (elem_of_resolved_mappings _ _ _ _ Hall). eauto.
    - apply relevant_spec. rewrite Hnil. by intros k ?%elem_of_nil. }
  do 2 (split; [done|]). split.
  - destruct (apply_mappings_Raise d ms ∅ (dom d)) as (acc & e & ->);
      [|by eauto].
    apply Exists_exists. exists m. split; [done|].
    exists IndexError. by apply mapping_output_no_source_keys.
  - intros pre post Hsplit Hpre. rewrite Hsplit.
    destruct (apply_mappings_prefix d pre m post ∅ (dom d))
      as (acc & unused & ->); [by apply Forall_forall|].
    simpl. by rewrite mapping_output_no_source_keys.
Qed.

End discovered.

Section enumeration.
Import StateMappingTemplate.

(** The values [_get_mappings] lets a placeholder take: the indices below
    its bound, and [None]. *)
Lemma elem_of_choices (p q : TemplatePlaceholder) (bound : Z) (v : option Z) :
  (q, v) ∈ ((λ i, (p, Some i)) <$> Py.range bound) ++ [(p, None)]
  ↔ q = p ∧ ∀ i, v = Some i → 0 ≤ i < bound.
Proof.
  rewrite elem_of_app, list_elem_of_fmap, list_elem_of_singleton.
  unfold Py.range. setoid_rewrite elem_of_seqZ. split.
  - intros [(i & [= -> ->] & Hi)|[= -> ->]]; split; try done.
    intros ? [= <-]. lia.
  - intros [-> Hv]. destruct v as [i|]; [left|by right].
    exists i. split; [done|]. specialize (Hv i eq_refl). lia.
Qed.

Lemma elem_of_product_2 {A} (ls : list (list A)) c :
  Forall2 (λ l x, x ∈ l) ls c → c ∈ Py.product ls.
Proof.
  induction 1 as [|l x ls c Hx Hc IH]; simpl.
  - by apply list_elem_of_singleton.
  - apply list_elem_of_bind. exists x. split; [|done].
    apply list_elem_of_fmap. by exists c.
Qed.

Lemma length_product {A} (ls : list (list A)) :
  length (Py.product ls) = foldr (λ l n, length l * n)%nat 1%nat ls.
Proof.
  induction ls as [|l ls IH]; simpl; [done|]. rewrite <-IH. clear IH.
  induction l as [|x l IH]; [done|].
  by rewrite bind_cons, length_app, length_fmap, IH.
Qed.

Lemma dict_set_fresh {V} (k : TemplatePlaceholder) (v : V) d :
  k ∉ d.*1 → Py.dict_set k v d = d ++ [(k, v)].
Proof.
  induction d as [|[k' v'] d IH]; simpl; [done|].
  intros [Hne Hk]%not_elem_of_cons. rewrite decide_False by done.
  by rewrite IH.
Qed.

(** [dict(items)] is the list of the items when their keys are distinct. *)
Lemma dict_NoDup {V} (items : list (TemplatePlaceholder * V)) :
  NoDup items.*1 → Py.dict items = items.
Proof.
  unfold Py.dict.
  assert (∀ acc : list (TemplatePlaceholder * V),
    NoDup (acc ++ items).*1 →
    foldl (λ d kv, Py.dict_set kv.1 kv.2 d) acc items = acc ++ items) as Hgen.
  { induction items as [|[k v] items IH]; intros acc Hnd; simpl.
    - by rewrite app_nil_r.
    - rewrite dict_set_fresh.
      + rewrite IH; [by rewrite <-app_assoc|]. by rewrite <-app_assoc.
      + rewrite fmap_app, fmap_cons in Hnd.
        apply NoDup_app in Hnd as (_ & Hnd & _).
        intros Hk. apply (Hnd k Hk). by left. }
  apply (Hgen []).
Qed.

Lemma product_choices_fst (bounds : placeholder_bounds_t) c :
  Forall2 (λ l x, x ∈ l)
    ((λ '(placeholder, bound),
        ((λ i, (placeholder, Some i)) <$> Py.range bound)
        ++ [(placeholder, None)]) <$> bounds) c →
  c.*1 = bounds.*1.
Proof.
  revert c. induction bounds as [|[p b] bounds IH]; intros c; simpl.
  - by intros ->%Forall2_nil_inv_l.
  - intros ([q v] & c' & [-> _]%elem_of_choices & Hc' & ->)%Forall2_cons_inv_l.
    simpl. f_equal. by apply IH.
Qed.

(** With distinct placeholders in the bounds, the enumeration is the
    product itself. *)
Lemma combinations_product (bounds : placeholder_bounds_t) :
  NoDup bounds.*1 →
  StateConverter.placeholder_value_combinations bounds
  = Py.product
      ((λ '(placeholder, bound),
          ((λ i, (placeholder, Some i)) <$> Py.range bound)
          ++ [(placeholder, None)]) <$> bounds).
Proof.
  intros Hnd. unfold StateConverter.placeholder_value_combinations.
  rewrite <-(list_fmap_id (Py.product _)) at 2.
  apply list_fmap_ext. intros i c Hc%list_elem_of_lookup_2.
  apply elem_of_product, product_choices_fst in Hc.
  simpl. apply dict_NoDup. by rewrite Hc.
Qed.

(** X11. The assignments [_get_mappings] enumerates. There are as many as the
    product of [bound + 1] over the placeholders of the bounds. With distinct
    placeholders in the bounds (as in a dictionary), they are exactly the
    assignments that give every placeholder of the bounds, in the order of
    the bounds, either [None] or an index [0 <= i < bound]. *)
Theorem combinations_characterised (bounds : placeholder_bounds_t) :
  length (StateConverter.placeholder_value_combinations bounds)
  = foldr (λ pb n, (Z.to_nat pb.2 + 1) * n)%nat 1%nat bounds
  ∧ (NoDup bounds.*1 →
     ∀ c, c ∈ StateConverter.placeholder_value_combinations bounds
          ↔ Forall2 (λ pb qv, qv.1 = pb.1
                              ∧ ∀ i, qv.2 = Some i → 0 ≤ i < pb.2)
              bounds c).
Proof.
  split.
  - unfold StateConverter.placeholder_value_combinations.
    rewrite length_fmap, length_product.
    induction bounds as [|[p b] bounds IH]; [done|].
    rewrite fmap_cons. cbn [foldr]. rewrite IH, length_app, length_fmap.
    unfold Py.range. by rewrite length_seqZ.
  - intros Hnd c. rewrite combinations_product by done. split.
    + intros Hc%elem_of_product. apply Forall2_fmap_l in Hc.
      eapply Forall2_impl; [exact Hc|]. intros [p b] [q v] Hqv.
      by apply elem_of_choices.
    + intros Hc. apply elem_of_product_2, Forall2_fmap_l.
      eapply Forall2_impl; [exact Hc|]. intros [p b] [q v] Hqv.
      by apply elem_of_choices.
Qed.

End enumeration.

Section single.

Lemma numel_app (a b : list nat) :
  Torch.numel (a ++ b) = (Torch.numel a * Torch.numel b)%nat.
Proof.
  unfold Torch.numel. induction a as [|n a IH]; simpl; [lia|].
  rewrite IH. lia.
Qed.

Lemma numel_split (s : list nat) d :
  (d < length s)%nat →
  Torch.numel s
  = (Torch.numel (take d s) * (s !!! d * Torch.numel (drop (S d) s)))%nat.
Proof.
  intros Hd. apply list_lookup_lookup_total_lt in Hd.
  rewrite <-(take_drop_middle s d _ Hd) at 1. by rewrite numel_app.
Qed.

Lemma wrap_dim_lt n dim d :
  Torch.wrap_dim n dim = Some d → (0 < n)%nat → (d < n)%nat.
Proof.
  unfold Torch.wrap_dim. case_bool_decide; [|done]. intros [= <-] Hn.
  case_bool_decide; lia.
Qed.

(** The consecutive blocks of a list give the list back. *)
Lemma blocks_concat {A} (c : nat) (data : list A) outer : ∀ start,
  (o ← seq start outer; take c (drop (o * c) data))
  = take (outer * c) (drop (start * c) data).
Proof.
  induction outer as [|n IH]; intros start; [done|].
  cbn [seq]. rewrite bind_cons, IH.
  replace (S start * c)%nat with (start * c + c)%nat by lia.
  by rewrite <-drop_drop, take_take_drop.
Qed.

(** The part of a tensor that covers a whole dimension is the tensor. *)
Lemma narrow_whole (t : Torch.Tensor) d :
  Torch.wf t → (d < Torch.ndim t)%nat →
  Torch.narrow t d 0 (Torch.shape t !!! d) = t.
Proof.
  intros Hwf Hd. unfold Torch.narrow, Torch.slab. destruct t as [dt s data].
  unfold Torch.wf, Torch.ndim in *. simpl in *. f_equal.
  - apply list_insert_id. by apply list_lookup_lookup_total_lt.
  - set (c := (s !!! d * Torch.numel (drop (S d) s))%nat).
    rewrite (list_bind_ext _ (λ o, take c (drop (o * c) data)) _
               (seq 0 (Torch.numel (take d s)))); [|intros o|done].
    + rewrite blocks_concat, drop_0. apply take_ge.
      rewrite Hwf, (numel_split s d) by done. by fold c.
    + unfold c. do 2 f_equal. lia.
Qed.

(** Concatenating one tensor gives the tensor back. *)
Lemma cat_single (t : Torch.Tensor) dim :
  Torch.wf t → Torch.shape t ≠ [] →
  is_Some (Torch.wrap_dim (Torch.ndim t) dim) →
  Torch.cat [t] dim = Ok t.
Proof.
  intros Hwf Hne [d Hdim]. unfold Torch.cat, Torch.result_type.
  cbn [fmap list_fmap foldl].
  rewrite bool_decide_eq_false_2.
  2:{ rewrite Exists_cons, Exists_nil. naive_solver. }
  rewrite filter_cons, filter_nil.
  destruct (decide (Torch.shape t ≠ [0%nat])) as [Hshape|Hshape].
  - rewrite Hdim. cbn [forallb]. unfold Torch.same_except.
    rewrite bool_decide_eq_true_2 by done. cbn [andb].
    assert (d < Torch.ndim t)%nat as Hd.
    { apply (wrap_dim_lt _ dim); [done|].
      unfold Torch.ndim. destruct (Torch.shape t); [done|simpl; lia]. }
    f_equal. transitivity (Torch.narrow t d 0 (Torch.shape t !!! d));
      [|by apply narrow_whole].
    unfold Torch.narrow. f_equal.
    + simpl. by rewrite Nat.add_0_r.
    + apply list_bind_ext; [|done]. intros o. cbn -[Torch.to Torch.slab].
      by rewrite to_same, app_nil_r.
  - apply dec_stable in Hshape. destruct t as [dt s data].
    unfold Torch.wf in Hwf. simpl in *. subst s.
    apply nil_length_inv in Hwf. by subst.
Qed.

(** Splitting a tensor in one piece gives the tensor back. *)
Lemma chunk_single (t : Torch.Tensor) dim :
  Torch.wf t → Torch.shape t ≠ [] →
  is_Some (Torch.wrap_dim (Torch.ndim t) dim) →
  Torch.chunk t 1 dim = Ok [t].
Proof.
  intros Hwf Hne [d Hdim]. unfold Torch.chunk.
  assert (0 < Torch.ndim t)%nat as Hpos.
  { unfold Torch.ndim. destruct (Torch.shape t); [done|simpl; lia]. }
  rewrite !bool_decide_eq_false_2 by lia. rewrite Hdim.
  pose proof (wrap_dim_lt _ _ _ Hdim Hpos) as Hd.
  set (size := Torch.shape t !!! d).
  replace ((size + 1 - 1) / 1)%nat with size
    by (rewrite Nat.div_1_r; lia).
  case_bool_decide as Hsize.
  - simpl. rewrite <-(narrow_whole t d Hwf Hd) at 2. fold size.
    by rewrite Hsize.
  - assert ((size + size - 1) / size = 1)%nat as ->.
    { symmetry. apply (Nat.div_unique _ _ _ (size - 1)); lia. }
    simpl. replace (size - size * 0)%nat with size by lia.
    by rewrite <-(narrow_whole t d Hwf Hd) at 2.
Qed.

Lemma mapping_output_one_to_one (d : gmap string value) m k k' t :
  source_keys m = [k] → dest_keys m = [k'] →
  unflatten_dim m = None → dims_permutation m = None →
  flatten_dims m = None →
  d !! k = Some (VTensor t) → Torch.wf t → Torch.shape t ≠ [] →
  is_Some (Torch.wrap_dim (Torch.ndim t) (source_concat_dim m)) →
  is_Some (Torch.wrap_dim (Torch.ndim t) (dest_chunk_dim m)) →
  mapping_output d m = Ok [(k', VTensor t)].
Proof.
  intros Hsource Hdest Hun Hperm Hflat Hk Hwf Hne Hcat Hchunk.
  unfold mapping_output, StateConverter.transform.
  rewrite Hsource, Hdest, Hun, Hperm, Hflat. simpl.
  rewrite (proj2 (lookup_key_Ok d k (VTensor t)) Hk). simpl.
  unfold torch_cat. simpl. rewrite (cat_single t _ Hwf Hne Hcat). simpl.
  by rewrite (chunk_single t _ Hwf Hne Hchunk).
Qed.

(** X12. A mapping from one source key to one destination key that applies
    no transform copies the tensor: for a tensor with at least one dimension
    for which the concatenation and the chunk dimension are valid, the
    iteration of [convert] writes the tensor itself under the destination
    key, and removes the source key from the unused keys. *)
Theorem one_to_one_copies sd out unused m (h : store) d acc k k' t :
  h !! sd = Some d → h !! out = Some acc →
  source_keys m = [k] → dest_keys m = [k'] →
  unflatten_dim m = None → dims_permutation m = None →
  flatten_dims m = None →
  d !! k = Some (VTensor t) → Torch.wf t → Torch.shape t ≠ [] →
  is_Some (Torch.wrap_dim (Torch.ndim t) (source_concat_dim m)) →
  is_Some (Torch.wrap_dim (Torch.ndim t) (dest_chunk_dim m)) →
  StateConverter.convert_mapping sd out unused m h
  = (<[out := <[k' := VTensor t]> acc]> h, Ok (unused ∖ {[k]})).
Proof.
  intros Hsd Hout Hsource Hdest Hun Hperm Hflat Hk Hwf Hne Hcat Hchunk.
  rewrite (convert_mapping_run _ _ _ _ _ acc Hout), (deref_Some _ _ _ Hsd).
  rewrite (mapping_output_one_to_one d m k k' t) by done.
  rewrite Hsource. simpl. do 2 f_equal. set_solver.
Qed.

End single.

Section plain.
Import StateMappingTemplate.

(** The enumeration ends with the assignment that gives [None] to every
    placeholder; every assignment before it gives some placeholder a
    value. *)
Lemma combinations_split (bounds : placeholder_bounds_t) :
  NoDup bounds.*1 →
  ∃ others,
    StateConverter.placeholder_value_combinations bounds
    = others ++ [(λ pb, (pb.1, None)) <$> bounds]
    ∧ Forall (λ c : placeholder_values_t, ∃ p v, (p, Some v) ∈ c) others.
Proof.
  intros Hnd. rewrite combinations_product by done. clear Hnd.
  induction bounds as [|[p b] bounds (others & IH & Hothers)].
  { exists []. split; [done|constructor]. }
  rewrite !fmap_cons. cbn [Py.product]. rewrite IH, bind_app.
  rewrite bind_singleton, fmap_app, app_assoc.
  eexists. split; [done|]. apply Forall_app. split.
  - apply Forall_forall. intros c (x & Hc & Hx)%list_elem_of_bind.
    apply list_elem_of_fmap in Hx as (i & -> & _).
    apply list_elem_of_fmap in Hc as (c' & -> & _).
    exists p, i. by left.
  - apply Forall_fmap. eapply Forall_impl; [exact Hothers|].
    intros c (q & v & Hc). exists q, v. by right.
Qed.

Lemma fill_key_all_None template values : ∀ key,
  Forall (λ pv, pv.2 = None) values →
  (∀ p, p ∈ values.*1 → Py.contains (token p) template = false) →
  fill_key template key values = Some key.
Proof.
  induction values as [|[p v] values IH]; intros key Hnone Hfree; [done|].
  apply Forall_cons in Hnone as [Hv Hnone]. simpl in Hv. subst v.
  simpl. rewrite (Hfree p) by by left. apply IH; [done|].
  intros q Hq. apply Hfree. by right.
Qed.

(** How a template from one string to one string that expands over no
    placeholder resolves, when no placeholder of the assignment occurs in
    the two strings. *)
Lemma to_mapping_one_to_one (t : StateMappingTemplate.t) s s' values bounds :
  source_template_keys t = KeyStr s → dest_template_keys t = KeyStr s' →
  source_key_per_placeholder t = None → dest_key_per_placeholder t = None →
  StateMappingTemplate.unflatten_dim t = None →
  (∀ p, p ∈ values.*1 →
     Py.contains (token p) s = false ∧ Py.contains (token p) s' = false) →
  (Forall (λ pv, pv.2 = None) values →
   to_mapping t values bounds
   = Ok (Some (StateMapping.mk [s] [s']
                 (StateMappingTemplate.source_concat_dim t) None
                 (StateMappingTemplate.dims_permutation t)
                 (StateMappingTemplate.flatten_dims t)
                 (StateMappingTemplate.dest_chunk_dim t))))
  ∧ ((∃ p v, (p, Some v) ∈ values) → to_mapping t values bounds = Ok None).
Proof.
  intros Hs Hd Hsp Hdp Hun Hfree. unfold to_mapping.
  rewrite bool_decide_eq_false_2.
  2:{ unfold required_placeholders. rewrite Hsp, Hdp, Hun. set_solver. }
  rewrite Hsp, Hdp, Hs, Hd, Hun.
  cbn [per_placeholder_values _templates_to_keys mbind result_bind]. split.
  - intros Hnone. unfold fill_keys. cbn [mapM].
    rewrite !fill_key_all_None; [done|done|..|done|].
    + intros p Hp. by apply Hfree.
    + intros p Hp. by apply Hfree.
  - intros (p & v & Hp).
    rewrite (fill_keys_unused_value [s] values s p v); [done|by left|done|].
    apply Hfree. apply list_elem_of_fmap. by exists (p, Some v).
Qed.

Lemma result_mapM_fmap {A B C} (g : A → B) (f : B → result C) l :
  mapM f (g <$> l) = mapM (f ∘ g) l.
Proof.
  induction l as [|x l IH]; [done|]. rewrite fmap_cons. cbn [mapM].
  by rewrite IH.
Qed.

(** The mappings of a converter are those of its templates, in order. *)
Lemma resolved_mappings_app ts1 ts2 bounds :
  StateConverter.resolved_mappings (StateConverter.mk (ts1 ++ ts2)) bounds
  = l1 ← StateConverter.resolved_mappings (StateConverter.mk ts1) bounds;
    l2 ← StateConverter.resolved_mappings (StateConverter.mk ts2) bounds;
    Ok (l1 ++ l2).
Proof.
  unfold StateConverter.resolved_mappings. simpl.
  rewrite bind_app, result_mapM_app.
  destruct (mapM _ (ts1 ≫= _)) as [ys1|]; simpl; [|done].
  destruct (mapM _ (ts2 ≫= _)) as [ys2|]; simpl; [|done].
  by rewrite omap_app.
Qed.

Lemma resolved_mappings_one_to_one (t : StateMappingTemplate.t) s s' bounds :
  source_template_keys t = KeyStr s → dest_template_keys t = KeyStr s' →
  source_key_per_placeholder t = None → dest_key_per_placeholder t = None →
  StateMappingTemplate.unflatten_dim t = None →
  (∀ p, p ∈ bounds.*1 →
     Py.contains (token p) s = false ∧ Py.contains (token p) s' = false) →
  NoDup bounds.*1 →
  StateConverter.resolved_mappings (StateConverter.mk [t]) bounds
  = Ok [StateMapping.mk [s] [s']
          (StateMappingTemplate.source_concat_dim t) None
          (StateMappingTemplate.dims_permutation t)
          (StateMappingTemplate.flatten_dims t)
          (StateMappingTemplate.dest_chunk_dim t)].
Proof.
  intros Hs Hd Hsp Hdp Hun Hfree Hnd.
  unfold StateConverter.resolved_mappings. simpl.
  rewrite app_nil_r.
  destruct (combinations_split bounds Hnd) as (others & Hsplit & Hothers).
  assert (∀ c, c ∈ StateConverter.placeholder_value_combinations bounds →
               ∀ p, p ∈ c.*1 →
                 Py.contains (token p) s = false
                 ∧ Py.contains (token p) s' = false) as Hfree'.
  { intros c Hc p Hp. apply Hfree.
    rewrite combinations_product in Hc by done.
    apply elem_of_product, product_choices_fst in Hc. by rewrite <-Hc. }
  rewrite Hsplit in Hfree' |- *.
  rewrite fmap_app, result_mapM_app, !result_mapM_fmap.
  rewrite (mapM_all_None _ others).
  2:{ intros c Hc. simpl. unfold StateConverter._fill_placeholders.
      apply (to_mapping_one_to_one t s s' c bounds); try done.
      - apply Hfree'. apply elem_of_app. by left.
      - by apply (proj1 (Forall_forall _ _) Hothers). }
  simpl. unfold StateConverter._fill_placeholders.
  rewrite (proj1 (to_mapping_one_to_one t s s' _ bounds Hs Hd Hsp Hdp Hun
                    (Hfree' _ ltac:(apply elem_of_app; right; by left)))).
  - simpl. by rewrite omap_app, omap_replicate_None.
  - apply Forall_fmap. by apply Forall_true.
Qed.

(** X13. A template from one string to one string that expands over no
    placeholder and has no [unflatten_dim], when no placeholder of the bounds
    occurs in the two strings, resolves exactly once, whatever the bounds
    are: [get_mappings] returns the one mapping from the source string to
    the destination string, with the transform parameters of the template,
    when the source string is a key of the state dictionary, and no mapping
    when it is not. *)
Theorem one_to_one_template (t : StateMappingTemplate.t) s s' sd bounds
    (h : store) d :
  h !! sd = Some d →
  source_template_keys t = KeyStr s → dest_template_keys t = KeyStr s' →
  source_key_per_placeholder t = None → dest_key_per_placeholder t = None →
  StateMappingTemplate.unflatten_dim t = None →
  (∀ p, p ∈ bounds.*1 →
     Py.contains (token p) s = false ∧ Py.contains (token p) s' = false) →
  NoDup bounds.*1 →
  StateConverter.get_mappings (StateConverter.mk [t]) sd bounds h
  = (h, Ok (if bool_decide (s ∈ dom d)
            then [StateMapping.mk [s] [s']
                    (StateMappingTemplate.source_concat_dim t) None
                    (StateMappingTemplate.dims_permutation t)
                    (StateMappingTemplate.flatten_dims t)
                    (StateMappingTemplate.dest_chunk_dim t)]
            else [])).
Proof.
  intros Hsd Hs Hd Hsp Hdp Hun Hfree Hnd.
  rewrite get_mappings_run, (deref_Some _ _ _ Hsd).
  rewrite (resolved_mappings_one_to_one t s s') by done.
  simpl. unfold StateConverter.relevant. simpl.
  by case_bool_decide.
Qed.

(** X14. The mappings of a converter are those of its templates, in the order
    of the templates: for the concatenation of two lists of templates,
    [get_mappings] returns the mappings of the first list followed by those
    of the second, and raises what the first list raises or else what the
    second raises. *)
Theorem get_mappings_app ts1 ts2 sd bounds (h : store) :
  StateConverter.get_mappings (StateConverter.mk (ts1 ++ ts2)) sd bounds h
  = (h,
     l1 ← (StateConverter.get_mappings (StateConverter.mk ts1) sd bounds h).2;
     l2 ← (StateConverter.get_mappings (StateConverter.mk ts2) sd bounds h).2;
     Ok (l1 ++ l2)).
Proof.
  rewrite !get_mappings_run, resolved_mappings_app. simpl.
  destruct (StateConverter.resolved_mappings (StateConverter.mk ts1) bounds)
    as [l1|]; simpl; [|done].
  destruct (StateConverter.resolved_mappings (StateConverter.mk ts2) bounds)
    as [l2|]; simpl; [|done].
  by rewrite List.filter_app.
Qed.

End plain.

Section renames.
Import StateMappingTemplate.

Lemma resolved_mappings_renames (renames : list (string * string)) bounds :
  NoDup bounds.*1 →
  (∀ r p, r ∈ renames → p ∈ bounds.*1 →
     Py.contains (token p) r.1 = false ∧ Py.contains (token p) r.2 = false) →
  StateConverter.resolved_mappings
    (StateConverter.mk
       ((λ r, plain_template (KeyStr r.1) (KeyStr r.2) None None)
          <$> renames)) bounds
  = Ok ((λ r, plain_mapping [r.1] [r.2]) <$> renames).
Proof.
  intros Hnd. induction renames as [|r renames IH]; intros Hfree; [done|].
  rewrite !fmap_cons.
  change (?t :: ?ts) with ([t] ++ ts) at 1.
  rewrite resolved_mappings_app.
  rewrite (resolved_mappings_one_to_one _ r.1 r.2); try done.
  - rewrite IH; [done|]. intros r' p Hr'. apply Hfree. by right.
  - intros p Hp. apply Hfree; [by left|done].
Qed.

Lemma List_filter_all {A} (f : A → bool) l :
  (∀ x, x ∈ l → f x = true) → List.filter f l = l.
Proof.
  induction l as [|x l IH]; intros Hall; [done|]. simpl.
  rewrite Hall by by left. f_equal. apply IH. intros y Hy. apply Hall.
  by right.
Qed.

Lemma apply_mappings_renames (d : gmap string value)
    (renames : list (string * string)) :
  (∀ r, r ∈ renames →
     ∃ t, d !! r.1 = Some (VTensor t) ∧ Torch.wf t ∧ Torch.shape t ≠ []) →
  ∀ acc unused,
    ∃ items,
      apply_mappings d acc unused ((λ r, plain_mapping [r.1] [r.2]) <$> renames)
      = (write_items items acc, Ok (unused ∖ list_to_set renames.*1))
      ∧ Forall2 (λ r kv, kv.1 = r.2 ∧ d !! r.1 = Some kv.2) renames items.
Proof.
  induction renames as [|r renames IH]; intros Htensors acc unused.
  { exists []. split; [|constructor]. simpl. do 2 f_equal. set_solver. }
  destruct (Htensors r) as (t & Ht & Hwf & Hne); [by left|].
  assert (is_Some (Torch.wrap_dim (Torch.ndim t) 0)) as Hdim.
  { unfold Torch.wrap_dim, Torch.ndim.
    destruct (Torch.shape t); [done|].
    rewrite bool_decide_eq_true_2; [by eexists|]. simpl. lia. }
  rewrite fmap_cons. cbn [apply_mappings].
  rewrite (mapping_output_one_to_one d _ r.1 r.2 t); try done.
  destruct (IH (λ r' Hr', Htensors r' (list_elem_of_further _ _ _ Hr'))
              (write_items [(r.2, VTensor t)] acc)
              (unused ∖ list_to_set (source_keys (plain_mapping [r.1] [r.2]))))
    as (items & -> & Hitems).
  exists ((r.2, VTensor t) :: items). split; [|by constructor].
  simpl. do 2 f_equal. set_solver.
Qed.

Lemma dom_write_items (items : list (string * value)) :
  ∀ acc : gmap string value,
    dom (write_items items acc) = dom acc ∪ list_to_set items.*1.
Proof.
  induction items as [|[k v] items IH]; intros acc; simpl; [set_solver|].
  rewrite IH, dom_insert_L. set_solver.
Qed.

Lemma write_items_lookup_ne (items : list (string * value)) k :
  k ∉ items.*1 →
  ∀ acc : gmap string value, write_items items acc !! k = acc !! k.
Proof.
  induction items as [|[k0 v0] items IH]; intros Hk acc; simpl; [done|].
  simpl in Hk. apply not_elem_of_cons in Hk as [Hne Hk].
  rewrite IH by done. by rewrite lookup_insert_ne.
Qed.

Lemma write_items_NoDup (items : list (string * value)) k v :
  NoDup items.*1 → (k, v) ∈ items →
  ∀ acc : gmap string value, write_items items acc !! k = Some v.
Proof.
  induction items as [|[k0 v0] items IH]; intros Hnd Hin acc;
    [by apply elem_of_nil in Hin|].
  simpl in Hnd. apply NoDup_cons in Hnd as [Hk0 Hnd]. simpl.
  apply elem_of_cons in Hin as [[= -> ->]|Hin].
  - rewrite write_items_lookup_ne by done. by rewrite lookup_insert_eq.
  - by apply IH.
Qed.

(** X15. A converter made of renamings. For a list of pairs of a source and a
    destination key in which no placeholder of the bounds occurs, the
    converter with one template per pair, a state dictionary that holds a
    tensor with at least one dimension under every source key and has no
    other key, and any bounds: [convert] returns a new dictionary whose keys
    are the destination keys; every value in it is the tensor under the
    source key of a pair with this destination key, and when the destination
    keys are distinct, each destination key holds the tensor of its source
    key. *)
Theorem rename_converter (renames : list (string * string)) sd bounds
    (h : store) d :
  h !! sd = Some d →
  NoDup bounds.*1 →
  (∀ r p, r ∈ renames → p ∈ bounds.*1 →
     Py.contains (token p) r.1 = false ∧ Py.contains (token p) r.2 = false) →
  (∀ r, r ∈ renames →
     ∃ t, d !! r.1 = Some (VTensor t) ∧ Torch.wf t ∧ Torch.shape t ≠ []) →
  (∀ k, k ∈ dom d → k ∈ renames.*1) →
  ∃ h' out acc,
    StateConverter.convert
      (StateConverter.mk
         ((λ r, plain_template (KeyStr r.1) (KeyStr r.2) None None)
            <$> renames)) sd bounds h = (h', Ok out)
    ∧ h !! out = None
    ∧ h' !! out = Some acc
    ∧ (∀ k, k ∈ dom acc ↔ k ∈ renames.*2)
    ∧ (∀ k v, acc !! k = Some v →
         ∃ r, r ∈ renames ∧ r.2 = k ∧ d !! r.1 = Some v)
    ∧ (NoDup renames.*2 → ∀ r, r ∈ renames → acc !! r.2 = d !! r.1).
Proof.
  intros Hsd Hnd Hfree Htensors Hcover.
  rewrite (convert_run _ _ _ _ d Hsd).
  rewrite resolved_mappings_renames by done.
  rewrite List_filter_all.
  2:{ intros m (r & -> & Hr)%list_elem_of_fmap. apply relevant_spec.
      simpl. intros k ->%list_elem_of_singleton.
      destruct (Htensors r Hr) as (t & Ht & _). by apply elem_of_dom. }
  destruct (apply_mappings_renames d renames Htensors ∅ (dom d))
    as (items & -> & Hitems).
  rewrite bool_decide_eq_false_2.
  2:{ intros [k Hk]%size_pos_elem_of.
      apply elem_of_difference in Hk as [Hk Hnot]. apply Hnot.
      apply elem_of_list_to_set. by apply Hcover. }
  assert (items.*1 = renames.*2) as Hkeys.
  { clear -Hitems. induction Hitems as [|r kv ?? [Hkv _]]; [done|].
    simpl. by f_equal. }
  eexists _, _, _. split; [done|].
  split; [apply not_elem_of_dom, is_fresh|].
  split; [by rewrite lookup_insert_eq|]. split; [|split].
  - intros k. rewrite dom_write_items, Hkeys. set_solver.
  - intros k v [Hkv|Hkv]%write_items_lookup; [|by rewrite lookup_empty in Hkv].
    apply list_elem_of_lookup in Hkv as [i Hi].
    destruct (Forall2_lookup_r _ _ _ _ _ Hitems Hi) as (r & Hr & Hk & Hv).
    exists r. split; [by eapply list_elem_of_lookup_2|done].
  - intros Hdest r [i Hi]%list_elem_of_lookup.
    destruct (Forall2_lookup_l _ _ _ _ _ Hitems Hi) as ([k v] & Hkv & Hk & Hv).
    simpl in *. subst k. rewrite Hv.
    apply write_items_NoDup; [by rewrite Hkeys|].
    by eapply list_elem_of_lookup_2.
Qed.

End renames.

Section iteration.

(** X16. What an iteration of the loop of [convert] that does not raise has
    done: it has removed the source keys of the mapping from the unused
    keys, and has written tensors under a non-empty prefix of the
    destination keys of the mapping, in their order; a destination key
    beyond the number of pieces [torch.chunk] returns is not written. In
    particular an iteration for a mapping with no destination key raises. *)
Theorem iteration_writes_prefix sd out unused m (h h' : store) d acc unused' :
  h !! sd = Some d → h !! out = Some acc →
  StateConverter.convert_mapping sd out unused m h = (h', Ok unused') →
  unused' = unused ∖ list_to_set (source_keys m)
  ∧ dest_keys m ≠ []
  ∧ ∃ items,
      h' = <[out := write_items items acc]> h
      ∧ items ≠ [] ∧ items.*1 `prefix_of` dest_keys m
      ∧ Forall (λ kv, ∃ t, kv.2 = VTensor t) items.
Proof.
  intros Hsd Hout.
  rewrite (convert_mapping_run _ _ _ _ _ acc Hout), (deref_Some _ _ _ Hsd).
  destruct (mapping_output d m) as [items|] eqn:Hitems; [|done].
  intros [= <- <-]. split; [done|].
  apply mapping_output_items in Hitems as (Hne & Hpre & Hten).
  split; [|by exists items].
  intros Hnil. rewrite Hnil in Hpre. apply prefix_nil_inv in Hpre.
  by destruct items.
Qed.

(** X17. When [get_mappings] returns no mapping, [convert] returns a new,
    empty dictionary if the state dictionary is empty, and otherwise raises
    the error that lists all the keys of the state dictionary, sorted. *)
Theorem convert_no_mappings (self : StateConverter.t) sd bounds (h : store)
    d :
  h !! sd = Some d →
  (StateConverter.get_mappings self sd bounds h).2 = Ok [] →
  StateConverter.convert self sd bounds h
  = (<[fresh (dom h) := ∅]> h,
     if bool_decide (d = ∅) then Ok (fresh (dom h))
     else Raise (KeysNotConverted (Py.sorted (dom d)))).
Proof.
  intros Hsd. rewrite (convert_run _ _ _ _ d Hsd), get_mappings_run.
  rewrite (deref_Some _ _ _ Hsd). simpl.
  destruct (StateConverter.resolved_mappings self bounds) as [all|];
    simpl; [|done].
  intros [= ->]. simpl. f_equal.
  destruct (decide (d = ∅)) as [->|Hd].
  - by rewrite dom_empty_L, size_empty.
  - rewrite bool_decide_eq_true_2, (bool_decide_eq_false_2 (d = ∅)); [done..|].
    assert (size (dom d) ≠ 0%nat); [|lia].
    rewrite size_dom. by intros ?%map_size_empty_iff.
Qed.

End iteration.

(** ** Blocks of a list *)

Section blocks.
Context {A B : Type}.
Implicit Types l : list B.
Implicit Types g : B → list A.

Lemma bind_ext_in g1 g2 l :
  (∀ y, y ∈ l → g1 y = g2 y) → l ≫= g1 = l ≫= g2.
Proof.
  induction l as [|y l IH]; intros Hext; [done|].
  rewrite !bind_cons, Hext by by left.
  f_equal. apply IH. intros z Hz. apply Hext. by right.
Qed.

Lemma bind_nil_fun g l : (∀ y, y ∈ l → g y = []) → l ≫= g = [].
Proof.
  induction l as [|y l IH]; intros Hnil; [done|].
  rewrite bind_cons, Hnil by by left. apply IH.
  intros z Hz. apply Hnil. by right.
Qed.

Lemma bind_fmap_list {C} (f : C → B) g (k : list C) :
  (f <$> k) ≫= g = k ≫= (g ∘ f).
Proof.
  induction k as [|x k IH]; [done|].
  by rewrite fmap_cons, !bind_cons, IH.
Qed.

Lemma length_bind_const g (c : nat) l :
  (∀ y, y ∈ l → length (g y) = c) → length (l ≫= g) = (length l * c)%nat.
Proof.
  induction l as [|y l IH]; intros Hlen; [done|].
  rewrite bind_cons, length_app, Hlen by by left.
  rewrite IH; [simpl; lia|]. intros z Hz. apply Hlen. by right.
Qed.

(** The [i]-th block of a concatenation of blocks of one length. *)
Lemma bind_block g (c : nat) l : ∀ i x,
  (∀ y, y ∈ l → length (g y) = c) → l !! i = Some x →
  take c (drop (i * c) (l ≫= g)) = g x.
Proof.
  induction l as [|y l IH]; intros i x Hlen Hi; [done|].
  rewrite bind_cons. destruct i as [|i]; simpl in Hi.
  - injection Hi as ->. simpl. rewrite drop_0.
    apply take_app_length'. symmetry. apply Hlen. by left.
  - replace (S i * c)%nat with (length (g y) + i * c)%nat
      by (rewrite Hlen by (by left); lia).
    rewrite drop_app_add. apply IH; [|done].
    intros z Hz. apply Hlen. by right.
Qed.

Lemma take_drop_app_l (l1 l2 : list A) (k j : nat) :
  (k + j ≤ length l1)%nat →
  take j (drop k (l1 ++ l2)) = take j (drop k l1).
Proof.
  intros Hlen. rewrite drop_app_le by lia.
  apply take_app_le. rewrite length_drop. lia.
Qed.

Lemma take_drop_take (l1 : list A) (a b k j : nat) :
  (k + j ≤ a)%nat →
  take j (drop k (take a (drop b l1))) = take j (drop (b + k) l1).
Proof.
  intros Hle. rewrite <-drop_drop.
  replace a with (k + (a - k))%nat by lia.
  rewrite <-take_drop_commute, take_take. f_equal. lia.
Qed.

End blocks.

(** ** Slabs of a tensor *)

Section slabs.
Implicit Types t : Torch.Tensor.

Lemma wf_length t d :
  Torch.wf t → (d < Torch.ndim t)%nat →
  length (Torch.data t)
  = (Torch.numel (take d (Torch.shape t))
     * (Torch.shape t !!! d * Torch.numel (drop (S d) (Torch.shape t))))%nat.
Proof. intros Hwf Hd. rewrite Hwf. by apply numel_split. Qed.

Lemma slab_length t d o start len :
  Torch.wf t → (d < Torch.ndim t)%nat →
  (o < Torch.numel (take d (Torch.shape t)))%nat →
  (start + len ≤ Torch.shape t !!! d)%nat →
  length (Torch.slab t d o start len)
  = (len * Torch.numel (drop (S d) (Torch.shape t)))%nat.
Proof.
  intros Hwf Hd Ho Hlen. unfold Torch.slab.
  rewrite length_take, length_drop, (wf_length t d) by done.
  set (outer := Torch.numel (take d (Torch.shape t))) in *.
  set (size := Torch.shape t !!! d) in *.
  set (inner := Torch.numel (drop (S d) (Torch.shape t))) in *.
  apply Nat.min_l.
  assert ((o * size + start + len) * inner ≤ outer * (size * inner))%nat;
    [|lia].
  rewrite Nat.mul_assoc. apply Nat.mul_le_mono_r. nia.
Qed.

Lemma slab_app t d o start len len' :
  Torch.slab t d o start len ++ Torch.slab t d o (start + len) len'
  = Torch.slab t d o start (len + len').
Proof.
  unfold Torch.slab.
  set (inner := Torch.numel (drop (S d) (Torch.shape t))).
  set (size := Torch.shape t !!! d).
  replace ((o * size + (start + len)) * inner)%nat
    with ((o * size + start) * inner + len * inner)%nat by lia.
  rewrite <-drop_drop, take_take_drop. f_equal. lia.
Qed.

Lemma slab_empty t d o start : Torch.slab t d o start 0 = [].
Proof. done. Qed.

Lemma narrow_shape t d start len :
  Torch.shape (Torch.narrow t d start len) = <[d := len]> (Torch.shape t).
Proof. done. Qed.

Lemma insert_outer (s : list nat) d (x : nat) :
  Torch.numel (take d (<[d := x]> s)) = Torch.numel (take d s).
Proof. by rewrite take_insert_ge. Qed.

Lemma insert_inner (s : list nat) d (x : nat) :
  Torch.numel (drop (S d) (<[d := x]> s)) = Torch.numel (drop (S d) s).
Proof. rewrite drop_insert_lt; [done|lia]. Qed.

Lemma insert_size (s : list nat) d (x : nat) :
  (d < length s)%nat → <[d := x]> s !!! d = x.
Proof. intros. by rewrite list_lookup_total_insert_eq. Qed.

Lemma narrow_data_length t d start len :
  Torch.wf t → (d < Torch.ndim t)%nat →
  (start + len ≤ Torch.shape t !!! d)%nat →
  length (Torch.data (Torch.narrow t d start len))
  = (Torch.numel (take d (Torch.shape t))
     * (len * Torch.numel (drop (S d) (Torch.shape t))))%nat.
Proof.
  intros Hwf Hd Hlen. unfold Torch.narrow. simpl.
  rewrite (length_bind_const _
             (len * Torch.numel (drop (S d) (Torch.shape t)))%nat).
  - by rewrite length_seq.
  - intros o Ho%elem_of_seq. apply slab_length; [done..|lia|done].
Qed.

(** A part of a well-formed tensor is well-formed. *)
Lemma narrow_wf t d start len :
  Torch.wf t → (d < Torch.ndim t)%nat →
  (start + len ≤ Torch.shape t !!! d)%nat →
  Torch.wf (Torch.narrow t d start len).
Proof.
  intros Hwf Hd Hlen. unfold Torch.wf.
  rewrite narrow_data_length by done. rewrite narrow_shape.
  rewrite (numel_split (<[d:=len]> (Torch.shape t)) d)
    by (by rewrite length_insert).
  by rewrite insert_outer, insert_inner, insert_size.
Qed.

(** The slabs of a part are slabs of the tensor. *)
Lemma slab_narrow t d start len o start' len' :
  Torch.wf t → (d < Torch.ndim t)%nat →
  (start + len ≤ Torch.shape t !!! d)%nat →
  (o < Torch.numel (take d (Torch.shape t)))%nat →
  (start' + len' ≤ len)%nat →
  Torch.slab (Torch.narrow t d start len) d o start' len'
  = Torch.slab t d o (start + start') len'.
Proof.
  intros Hwf Hd Hlen Ho Hlen'. unfold Torch.slab at 1.
  rewrite narrow_shape, insert_inner, insert_size by done.
  set (inner := Torch.numel (drop (S d) (Torch.shape t))).
  replace ((o * len + start') * inner)%nat
    with (o * (len * inner) + start' * inner)%nat by lia.
  rewrite <-drop_drop.
  rewrite <-(take_drop (len * inner)
               (drop (o * (len * inner))
                  (Torch.data (Torch.narrow t d start len)))).
  rewrite take_drop_app_l.
  2:{ rewrite length_take, length_drop, narrow_data_length by done.
      fold inner. nia. }
  unfold Torch.narrow at 1. simpl.
  rewrite (bind_block _ (len * inner)%nat _ o o).
  - unfold Torch.slab. fold inner.
    rewrite take_drop_take by nia. do 2 f_equal. lia.
  - intros o' Ho'%elem_of_seq. apply slab_length; [done..|lia|done].
  - by apply lookup_seq_lt.
Qed.

End slabs.

Section same_shape.
Implicit Types t : Torch.Tensor.
Implicit Types ts : list Torch.Tensor.

Lemma narrow_whole_data t d :
  Torch.wf t → (d < Torch.ndim t)%nat →
  (o ← seq 0 (Torch.numel (take d (Torch.shape t)));
   Torch.slab t d o 0 (Torch.shape t !!! d)) = Torch.data t.
Proof.
  intros Hwf Hd. exact (f_equal Torch.data (narrow_whole t d Hwf Hd)).
Qed.

Lemma filter_all {A} (P : A → Prop) `{∀ x, Decision (P x)} (l : list A) :
  Forall P l → filter P l = l.
Proof.
  induction 1 as [|x l Hx Hl IH]; [done|].
  by rewrite filter_cons, decide_True, IH.
Qed.

Lemma filter_none {A} (P : A → Prop) `{∀ x, Decision (P x)} (l : list A) :
  Forall (λ x, ¬ P x) l → filter P l = [].
Proof.
  induction 1 as [|x l Hx Hl IH]; [done|].
  by rewrite filter_cons, decide_False.
Qed.

(** A well-formed tensor with no element. *)
Lemma wf_empty t :
  Torch.wf t → Torch.numel (Torch.shape t) = 0%nat →
  t = Torch.mk (Torch.dtype t) (Torch.shape t) [].
Proof.
  intros Hwf Hzero. destruct t as [dt s data]. unfold Torch.wf in Hwf.
  simpl in *. rewrite Hzero in Hwf. by apply nil_length_inv in Hwf as ->.
Qed.

(** Tensors of one element type are concatenated without conversion. *)
Lemma result_type_same t0 ts dt :
  Torch.dtype t0 = dt → Forall (λ t, Torch.dtype t = dt) ts →
  Torch.result_type t0 ts = dt.
Proof.
  intros <- Hall. unfold Torch.result_type.
  induction Hall as [|t ts Ht _ IH]; [done|].
  rewrite fmap_cons. cbn [foldl]. by rewrite Ht, promote_types_same.
Qed.

Lemma to_dtype t dt : Torch.dtype t = dt → Torch.to dt t = t.
Proof. intros <-. apply to_same. Qed.

Lemma wrap_dim_Some_lt n dim d :
  Torch.wrap_dim n dim = Some d → (0 < n)%nat → (d < n)%nat.
Proof. apply wrap_dim_lt. Qed.

(** The concatenation of tensors of one element type and one shape. *)
Lemma cat_same_shape ts dt (S : list nat) dim d :
  ts ≠ [] → Forall (λ t, Torch.shape t = S) ts →
  Forall (λ t, Torch.dtype t = dt) ts →
  S ≠ [] → S ≠ [0%nat] → Torch.wrap_dim (length S) dim = Some d →
  Torch.cat ts dim
  = Ok (Torch.mk dt (<[d := (length ts * S !!! d)%nat]> S)
          (o ← seq 0 (Torch.numel (take d S));
           t ← ts; Torch.slab t d o 0 (S !!! d))).
Proof.
  intros Hts Hshape Hdtype HS HS0 Hdim. unfold Torch.cat.
  rewrite bool_decide_eq_false_2.
  2:{ intros (t & Ht & Hnil)%Exists_exists.
      apply (proj1 (Forall_forall _ _) Hshape) in Ht. congruence. }
  destruct ts as [|t0 ts']; [done|].
  rewrite (result_type_same t0 ts' dt)
    by (by apply Forall_cons in Hdtype as [? ?]).
  set (ts := t0 :: ts') in *.
  rewrite (filter_all (λ t, Torch.shape t ≠ [0%nat]) ts).
  2:{ eapply Forall_impl; [exact Hshape|]. intros t ->. done. }
  unfold ts at 1.
  assert (Torch.shape t0 = S) as Ht0.
  { by apply Forall_cons in Hshape as [? _]. }
  unfold Torch.ndim. rewrite Ht0, Hdim.
  rewrite (proj2 (forallb_forall _ _)).
  2:{ intros t Ht%list_elem_of_In. unfold Torch.same_except.
      apply bool_decide_eq_true.
      by rewrite (proj1 (Forall_forall _ _) Hshape t Ht). }
  do 2 f_equal.
  - f_equal. by apply sum_list_fmap_same, Forall_impl with (2:=λ t Ht, f_equal (λ s, s !!! d) Ht).
  - apply bind_ext_in. intros o _. apply bind_ext_in. intros t Ht.
    rewrite (to_dtype t dt) by apply (proj1 (Forall_forall _ _) Hdtype t Ht).
    by rewrite (proj1 (Forall_forall _ _) Hshape t Ht).
Qed.

Lemma div_ceil_mul (n s : nat) : (0 < n)%nat → ((n * s + n - 1) / n = s)%nat.
Proof.
  intros Hn. symmetry. apply (Nat.div_unique _ _ _ (n - 1)); lia.
Qed.

Lemma div_ceil_mul' (n s : nat) :
  (0 < s)%nat → ((n * s + s - 1) / s = n)%nat.
Proof.
  intros Hs. symmetry. apply (Nat.div_unique _ _ _ (s - 1)); lia.
Qed.

(** Concatenating tensors of one shape and splitting the result in as many
    pieces along the same dimension gives the tensors back. *)
Lemma chunk_cat_same_shape ts dt (S : list nat) dim dim' d :
  ts ≠ [] → Forall (λ t, Torch.wf t ∧ Torch.shape t = S) ts →
  Forall (λ t, Torch.dtype t = dt) ts → S ≠ [] →
  Torch.wrap_dim (length S) dim = Some d →
  Torch.wrap_dim (length S) dim' = Some d →
  ∃ T, Torch.cat ts dim = Ok T ∧ Torch.chunk T (length ts) dim' = Ok ts.
Proof.
  intros Hts Hall Hdtype HS Hdim Hdim'.
  assert (Forall (λ t, Torch.shape t = S) ts) as Hshape.
  { eapply Forall_impl; [exact Hall|]. by intros t [_ ?]. }
  assert (Forall Torch.wf ts) as Hwf.
  { eapply Forall_impl; [exact Hall|]. by intros t [? _]. }
  assert (0 < length ts)%nat as Hn by (destruct ts; [done|simpl; lia]).
  assert (d < length S)%nat as Hd.
  { apply (wrap_dim_lt _ dim); [done|]. destruct S; [done|simpl; lia]. }
  set (n := length ts) in *. set (s := S !!! d).
  assert (S !! d = Some s) as HSd by by apply list_lookup_lookup_total_lt.
  destruct (decide (S = [0%nat])) as [->|HS0].
  { (* every tensor is the empty vector *)
    exists (Torch.mk dt [0%nat] []). split.
    - unfold Torch.cat. rewrite bool_decide_eq_false_2.
      2:{ intros (t & Ht & Hnil)%Exists_exists.
          apply (proj1 (Forall_forall _ _) Hshape) in Ht. congruence. }
      destruct ts as [|t0 ts']; [done|].
      rewrite (result_type_same t0 ts' dt)
        by (by apply Forall_cons in Hdtype as [? ?]).
      rewrite (filter_none (λ t, Torch.shape t ≠ [0%nat])); [done|].
      eapply Forall_impl; [exact Hshape|]. intros t ->. naive_solver.
    - simpl in Hd. assert (d = 0%nat) as -> by lia.
      unfold Torch.chunk, Torch.ndim. cbn [Torch.shape length].
      rewrite !bool_decide_eq_false_2 by lia.
      simpl in Hdim'. rewrite Hdim'.
      cbn [lookup_total list_lookup_total].
      replace ((0 + n - 1) / n)%nat with 0%nat
        by (symmetry; apply Nat.div_small; lia).
      rewrite bool_decide_eq_true_2 by done.
      f_equal. apply replicate_as_Forall. split; [done|].
      apply Forall_forall. intros t Hin.
      destruct (proj1 (Forall_forall _ _) Hall t Hin) as [Ht Hs].
      rewrite (wf_empty t Ht) by by rewrite Hs.
      by rewrite Hs, (proj1 (Forall_forall _ _) Hdtype t Hin). }
  eexists. split; [by apply cat_same_shape|].
  set (outer := Torch.numel (take d S)).
  set (inner := Torch.numel (drop (Datatypes.S d) S)).
  set (C := o ← seq 0 outer; t ← ts; Torch.slab t d o 0 s).
  unfold Torch.chunk, Torch.ndim. simpl.
  rewrite length_insert.
  rewrite !bool_decide_eq_false_2 by (destruct S; simpl; [done|lia] || lia).
  rewrite Hdim'. rewrite insert_size by done. fold n.
  rewrite div_ceil_mul by done.
  assert (∀ t, t ∈ ts → Torch.shape t = S ∧ Torch.wf t
                        ∧ (d < Torch.ndim t)%nat
                        ∧ Torch.dtype t = dt) as Hts'.
  { intros t Ht. pose proof (proj1 (Forall_forall _ _) Hdtype t Ht).
    apply (proj1 (Forall_forall _ _) Hall) in Ht as [? Hs].
    unfold Torch.ndim. by rewrite Hs. }
  case_bool_decide as Hs0.
  - (* the dimension is empty: no tensor has an element *)
    f_equal. apply replicate_as_Forall. split; [done|].
    apply Forall_forall. intros t Ht.
    destruct (Hts' t Ht) as (Hs & Ht' & _ & Hdt).
    rewrite (wf_empty t Ht').
    2:{ rewrite Hs, (numel_split S d) by done. rewrite Hs0. lia. }
    unfold Torch.narrow. simpl. rewrite Hs, Hdt. f_equal.
    + rewrite list_insert_insert_eq. apply list_insert_id.
      fold s in Hs0. by rewrite <-Hs0.
    + by apply bind_nil_fun.
  - rewrite div_ceil_mul' by lia. rewrite Nat.max_l by lia.
    fold s in Hs0 |- *. fold C.
    f_equal. apply list_eq_same_length with n;
      [done|by rewrite length_fmap, length_seq|].
    intros i p t Hi Hp Ht.
    rewrite list_lookup_fmap, lookup_seq_lt in Hp by done.
    simpl in Hp. injection Hp as <-.
    replace (if bool_decide (i < n - 1)%nat then s
             else (n * s - s * (n - 1))%nat) with s
      by (case_bool_decide; nia).
    apply list_elem_of_lookup_2 in Ht as Hin.
    destruct (Hts' t Hin) as (Hs & Hwft & Hdt & Hty).
    unfold Torch.narrow. simpl.
    rewrite list_insert_insert_eq, insert_outer.
    destruct t as [ty st data]. simpl in Hs, Hty. subst st ty. f_equal.
    { by apply list_insert_id. }
    transitivity (Torch.data (Torch.mk dt S data)); [|done].
    rewrite <-(narrow_whole_data (Torch.mk dt S data) d Hwft Hdt).
    cbn [Torch.shape]. fold s. fold outer.
    apply bind_ext_in. intros o Ho%elem_of_seq.
    unfold Torch.slab at 1. simpl.
    rewrite insert_inner, insert_size by done. fold inner. fold s.
    set (c := (s * inner)%nat).
    replace ((o * (n * s) + i * s) * inner)%nat
      with (o * (n * c) + i * c)%nat by (unfold c; lia).
    rewrite <-drop_drop.
    rewrite <-(take_drop (n * c) (drop (o * (n * c)) C)).
    assert (∀ o' t', (o' < outer)%nat → t' ∈ ts →
              length (Torch.slab t' d o' 0 s) = c) as Hslab.
    { intros o' t' Ho' Ht'.
      destruct (Hts' t' Ht') as (Hs' & Hwf' & Hd' & _).
      rewrite slab_length; rewrite ?Hs'; [done..|by fold outer|].
      by fold s. }
    assert (∀ o', o' ∈ seq 0 outer →
              length (t' ← ts; Torch.slab t' d o' 0 s) = (n * c)%nat)
      as Hrow.
    { intros o' Ho'%elem_of_seq. apply length_bind_const.
      intros t' Ht'. apply Hslab; [lia|done]. }
    rewrite take_drop_app_l.
    2:{ rewrite length_take, length_drop. unfold C.
        rewrite (length_bind_const _ (n * c)%nat) by done.
        rewrite length_seq. nia. }
    unfold C. rewrite (bind_block _ (n * c)%nat _ o o);
      [|done|apply lookup_seq_lt; lia].
    rewrite (bind_block _ c _ i (Torch.mk dt S data)); [done| |done].
    intros t' Ht'. apply Hslab; [lia|done].
Qed.

End same_shape.

Section layerwise.

Lemma mapM_tensors (ts : list Torch.Tensor) :
  mapM (λ v, match v with VTensor t => Some t | VObject _ => None end)
    (VTensor <$> ts) = Some ts.
Proof.
  induction ts as [|t ts IH]; [done|]. rewrite fmap_cons. cbn [mapM].
  by rewrite IH.
Qed.



End layerwise.

Section per_layer.
Import StateMappingTemplate.






End per_layer.

Section per_layer_conversion.
Import StateMappingTemplate.




End per_layer_conversion.

Section round_trip.
Implicit Types t : Torch.Tensor.

Lemma replicate_fmap_seq {A} (x : A) n : ∀ j,
  replicate n x = (λ _, x) <$> seq j n.
Proof. induction n as [|n IH]; intros j; [done|]. simpl. by rewrite <-IH. Qed.

Lemma split_with_sizes_app t d sizes1 : ∀ start sizes2,
  split_with_sizes t d start (sizes1 ++ sizes2)
  = split_with_sizes t d start sizes1
    ++ split_with_sizes t d (start + sum_list sizes1) sizes2.
Proof.
  induction sizes1 as [|size sizes1 IH]; intros start sizes2; simpl.
  - by rewrite Nat.add_0_r.
  - by rewrite IH, Nat.add_assoc.
Qed.

Lemma split_with_sizes_replicate t d n size : ∀ start,
  split_with_sizes t d start (replicate n size)
  = (λ i, Torch.narrow t d (start + i * size) size) <$> seq 0 n.
Proof.
  induction n as [|n IH]; intros start; [done|].
  cbn [replicate split_with_sizes seq]. rewrite fmap_cons, IH.
  f_equal; [by rewrite Nat.add_0_r|].
  rewrite <-fmap_S_seq, <-list_fmap_compose.
  apply list_fmap_ext. intros _ i _. simpl. f_equal. lia.
Qed.

(** [torch.chunk] cuts the dimension in consecutive parts that cover it;
    when the dimension is not empty, no part is empty. *)
Lemma chunk_split t chunks dim d pieces :
  Torch.chunk t chunks dim = Ok pieces →
  Torch.wrap_dim (Torch.ndim t) dim = Some d →
  ∃ sizes,
    pieces = split_with_sizes t d 0 sizes
    ∧ sizes ≠ []
    ∧ sum_list sizes = Torch.shape t !!! d
    ∧ ((0 < Torch.shape t !!! d)%nat → Forall (λ size, 0 < size)%nat sizes).
Proof.
  unfold Torch.chunk. case_bool_decide; [done|].
  case_bool_decide as Hchunks; [done|]. intros Hpieces Hdim.
  rewrite Hdim in Hpieces. set (size := Torch.shape t !!! d) in *.
  set (split := ((size + chunks - 1) / chunks)%nat) in *.
  case_bool_decide as Hsplit.
  - injection Hpieces as <-. exists (replicate chunks 0%nat).
    assert (size = 0%nat) as Hsize.
    { pose proof (Nat.div_mod_eq (size + chunks - 1) chunks) as Hdiv.
      pose proof (Nat.mod_upper_bound (size + chunks - 1) chunks Hchunks).
      fold split in Hdiv. rewrite Hsplit in Hdiv. lia. }
    split; [|split; [|split]].
    + rewrite split_with_sizes_replicate, (replicate_fmap_seq _ _ 0).
      apply list_fmap_ext. intros _ i _. by f_equal.
    + destruct chunks; [done|]. done.
    + rewrite sum_list_replicate. lia.
    + lia.
  - injection Hpieces as <-.
    set (k := Nat.max ((size + split - 1) / split) 1).
    exists (replicate (k - 1) split ++ [(size - split * (k - 1))%nat]).
    assert (0 < size)%nat as Hsize.
    { destruct size; [|lia]. exfalso. apply Hsplit. unfold split.
      apply Nat.div_small. lia. }
    assert (split * (k - 1) < size)%nat as Hlast.
    { unfold k. pose proof (Nat.div_mod_eq (size + split - 1) split) as Hdiv.
      pose proof (Nat.mod_upper_bound (size + split - 1) split Hsplit).
      destruct (Nat.max_spec ((size + split - 1) / split) 1) as [[? ->]|[? ->]];
        [lia|]. nia. }
    assert (1 ≤ k)%nat as Hk by (unfold k; lia). clearbody k.
    split; [|split; [|split]].
    + rewrite split_with_sizes_app, split_with_sizes_replicate.
      rewrite sum_list_replicate. simpl.
      assert (seq 0 k = seq 0 (k - 1) ++ [(k - 1)%nat]) as ->.
      { replace k with (S (k - 1)) at 1 by lia. by rewrite seq_S. }
      rewrite fmap_app. simpl. f_equal.
      * apply list_fmap_ext. intros j i Hi%lookup_seq. simpl.
        rewrite bool_decide_eq_true_2 by lia. done.
      * rewrite bool_decide_eq_false_2 by lia. do 2 f_equal.
    + by destruct (replicate _ _).
    + rewrite sum_list_with_app, sum_list_replicate. simpl. lia.
    + intros _. apply Forall_app. split.
      * apply Forall_replicate. lia.
      * apply Forall_singleton. lia.
Qed.

Lemma sum_list_elem_le (x : nat) (l : list nat) :
  x ∈ l → (x ≤ sum_list l)%nat.
Proof.
  induction l as [|y l IH]; intros Hx; [by apply elem_of_nil in Hx|].
  change (sum_list (y :: l)) with (y + sum_list l)%nat.
  apply elem_of_cons in Hx as [->|Hx]; [lia|]. specialize (IH Hx). lia.
Qed.

Lemma elem_of_split_with_sizes t d sizes p : ∀ start,
  p ∈ split_with_sizes t d start sizes →
  ∃ start' size, p = Torch.narrow t d start' size ∧ size ∈ sizes.
Proof.
  induction sizes as [|size sizes IH]; intros start Hp;
    [by apply elem_of_nil in Hp|].
  simpl in Hp. apply elem_of_cons in Hp as [->|Hp].
  - exists start, size. split; [done|by left].
  - destruct (IH _ Hp) as (start' & size' & -> & Hin).
    exists start', size'. split; [done|by right].
Qed.

Lemma split_with_sizes_sizes t d sizes : ∀ start,
  (d < Torch.ndim t)%nat →
  (λ p, Torch.shape p !!! d) <$> split_with_sizes t d start sizes = sizes.
Proof.
  induction sizes as [|size sizes IH]; intros start Hd; [done|].
  simpl. rewrite IH by done. f_equal. by apply insert_size.
Qed.

(** The slabs of consecutive parts make up the slab of the range the parts
    cover. *)
Lemma slabs_split_with_sizes t d o sizes : ∀ start,
  Torch.wf t → (d < Torch.ndim t)%nat →
  (o < Torch.numel (take d (Torch.shape t)))%nat →
  (start + sum_list sizes ≤ Torch.shape t !!! d)%nat →
  (p ← split_with_sizes t d start sizes;
   Torch.slab p d o 0 (Torch.shape p !!! d))
  = Torch.slab t d o start (sum_list sizes).
Proof.
  induction sizes as [|size sizes IH]; intros start Hwf Hd Ho Hle; [done|].
  cbn [split_with_sizes sum_list sum_list_with] in *. unfold id in *.
  fold (sum_list sizes) in *. rewrite bind_cons.
  rewrite IH by (done || lia).
  rewrite narrow_shape, insert_size by done.
  rewrite slab_narrow by (done || lia).
  rewrite Nat.add_0_r. apply slab_app.
Qed.

(** Concatenating consecutive parts that cover a dimension gives the tensor
    back. *)
Lemma cat_split_with_sizes t dim d sizes :
  Torch.wf t → Torch.shape t ≠ [] →
  Torch.wrap_dim (Torch.ndim t) dim = Some d →
  sizes ≠ [] → sum_list sizes = Torch.shape t !!! d →
  ((0 < Torch.shape t !!! d)%nat → Forall (λ size, 0 < size)%nat sizes) →
  Torch.cat (split_with_sizes t d 0 sizes) dim = Ok t.
Proof.
  intros Hwf HS Hdim Hsizes Hsum Hpos.
  assert (0 < Torch.ndim t)%nat as Hndim.
  { unfold Torch.ndim. destruct (Torch.shape t); [done|simpl; lia]. }
  pose proof (wrap_dim_lt _ _ _ Hdim Hndim) as Hd.
  set (pieces := split_with_sizes t d 0 sizes).
  assert (∀ p, p ∈ pieces →
            ∃ size, Torch.shape p = <[d := size]> (Torch.shape t)
                    ∧ size ∈ sizes) as Hshapes.
  { intros p (start & size & -> & Hin)%elem_of_split_with_sizes.
    by exists size. }
  assert (∀ p, p ∈ pieces → Torch.dtype p = Torch.dtype t) as Hdtype.
  { by intros p (start & size & -> & Hin)%elem_of_split_with_sizes. }
  unfold Torch.cat. rewrite bool_decide_eq_false_2.
  2:{ intros (p & Hp & Hnil)%Exists_exists.
      destruct (Hshapes p Hp) as (size & Hshape & _).
      apply (f_equal length) in Hshape.
      rewrite Hnil, length_insert in Hshape. unfold Torch.ndim in Hndim.
      simpl in Hshape. lia. }
  destruct sizes as [|size0 sizes']; [done|].
  destruct (decide (Torch.shape t = [0%nat])) as [Hzero|Hzero].
  - (* the empty vector: every part is skipped *)
    cbn [pieces split_with_sizes].
    rewrite (result_type_same _ _ (Torch.dtype t));
      [|done|apply Forall_forall; intros p Hp; apply Hdtype; by right].
    rewrite (filter_none (λ p, Torch.shape p ≠ [0%nat])).
    + by rewrite (wf_empty t Hwf), Hzero by by rewrite Hzero.
    + apply Forall_forall. intros p Hp.
      destruct (Hshapes p Hp) as (size & Hshape & Hin).
      assert (size = 0%nat) as ->.
      { apply sum_list_elem_le in Hin. rewrite Hsum, Hzero in Hin.
        unfold Torch.ndim in Hd. rewrite Hzero in Hd. simpl in Hd.
        assert (d = 0%nat) as -> by lia. simpl in Hin. lia. }
      rewrite Hshape, Hzero. unfold Torch.ndim in Hd. rewrite Hzero in Hd.
      simpl in Hd. assert (d = 0%nat) as -> by lia. simpl. naive_solver.
  - rewrite (filter_all (λ p, Torch.shape p ≠ [0%nat])).
    2:{ apply Forall_forall. intros p Hp.
        destruct (Hshapes p Hp) as (size & Hshape & Hin).
        rewrite Hshape. intros Heq.
        pose proof (f_equal length Heq) as Hlen.
        rewrite length_insert in Hlen. simpl in Hlen.
        unfold Torch.ndim in Hd. assert (d = 0%nat) as -> by lia.
        destruct (Torch.shape t) as [|x [|??]]; simplify_eq/=.
        assert (Forall (λ size, 0 < size)%nat (size0 :: sizes')) as Hall.
        { apply Hpos. destruct (size0 + sum_list sizes')%nat; [done|lia]. }
        apply (proj1 (Forall_forall _ _) Hall) in Hin. lia. }
    cbn [pieces split_with_sizes].
    rewrite (result_type_same _ _ (Torch.dtype t));
      [|done|apply Forall_forall; intros p Hp; apply Hdtype; by right].
    fold (split_with_sizes t d 0 (size0 :: sizes')).
    fold pieces. unfold Torch.ndim at 1.
    rewrite narrow_shape, length_insert. fold (Torch.ndim t). rewrite Hdim.
    rewrite (proj2 (forallb_forall _ _)).
    2:{ intros p Hp%list_elem_of_In. unfold Torch.same_except.
        apply bool_decide_eq_true.
        destruct (Hshapes p Hp) as (size & -> & _).
        by rewrite !list_insert_insert_eq. }
    rewrite insert_outer, list_insert_insert_eq.
    change (Torch.narrow t d 0 size0
            :: split_with_sizes t d (0 + size0) sizes')
      with (split_with_sizes t d 0 (size0 :: sizes')).
    rewrite split_with_sizes_sizes, Hsum by done.
    rewrite list_insert_id by by apply list_lookup_lookup_total_lt.
    f_equal.
    transitivity (Torch.mk (Torch.dtype t) (Torch.shape t) (Torch.data t));
      [|by destruct t].
    f_equal. rewrite <-(narrow_whole_data t d Hwf Hd).
    apply bind_ext_in. intros o Ho%elem_of_seq.
    rewrite <-Hsum.
    rewrite <-(slabs_split_with_sizes t d o (size0 :: sizes') 0)
      by (done || lia).
    apply bind_ext_in. intros p Hp. by rewrite (to_dtype p) by by apply Hdtype.
Qed.

(** Splitting a tensor with [torch.chunk] and concatenating the pieces
    along the same dimension gives the tensor back, also when the pieces are
    unequal. *)
Lemma cat_chunk t chunks dim dim' d pieces :
  Torch.wf t → Torch.shape t ≠ [] →
  Torch.wrap_dim (Torch.ndim t) dim = Some d →
  Torch.wrap_dim (Torch.ndim t) dim' = Some d →
  Torch.chunk t chunks dim = Ok pieces →
  Torch.cat pieces dim' = Ok t.
Proof.
  intros Hwf HS Hdim Hdim' Hpieces.
  destruct (chunk_split t chunks dim d pieces Hpieces Hdim)
    as (sizes & -> & Hne & Hsum & Hpos).
  by apply cat_split_with_sizes.
Qed.

End round_trip.

Section split_merge.

Lemma write_items_zip (keys : list string) (values : list value)
    (acc : gmap string value) :
  NoDup keys → length keys = length values →
  Forall2 (λ k v, write_items (zip keys values) acc !! k = Some v)
    keys values.
Proof.
  intros Hnd Hlen. apply Forall2_same_length_lookup_2; [done|].
  intros i k v Hk Hv. apply write_items_NoDup.
  - rewrite fst_zip by lia. done.
  - apply (list_elem_of_lookup_2 _ i). apply lookup_zip_with_Some.
    by exists k, v.
Qed.

(** X20. Splitting and merging back. A mapping that splits the tensor under
    one source key over several distinct destination keys, followed by a
    mapping that merges these keys into one key along the same dimension,
    restores the tensor (both mappings without transform): for a tensor with
    at least one dimension, for which the dimensions of the mappings are in
    range, when [torch.chunk] returns as many pieces as the split has
    destination keys, also unequal ones, the iteration for the split writes
    the pieces to a dictionary from which the iteration for the merge writes
    the tensor itself. *)
Theorem split_merge_round_trip sd mid out unused unused' split merge
    (h : store) d acc k k' t dd pieces :
  h !! sd = Some d → h !! mid = Some ∅ → h !! out = Some acc → out ≠ mid →
  source_keys split = [k] → NoDup (dest_keys split) →
  unflatten_dim split = None → dims_permutation split = None →
  flatten_dims split = None →
  source_keys merge = dest_keys split → dest_keys merge = [k'] →
  unflatten_dim merge = None → dims_permutation merge = None →
  flatten_dims merge = None →
  d !! k = Some (VTensor t) → Torch.wf t → Torch.shape t ≠ [] →
  is_Some (Torch.wrap_dim (Torch.ndim t) (source_concat_dim split)) →
  Torch.wrap_dim (Torch.ndim t) (dest_chunk_dim split) = Some dd →
  Torch.wrap_dim (Torch.ndim t) (source_concat_dim merge) = Some dd →
  is_Some (Torch.wrap_dim (Torch.ndim t) (dest_chunk_dim merge)) →
  Torch.chunk t (length (dest_keys split)) (dest_chunk_dim split)
  = Ok pieces →
  length pieces = length (dest_keys split) →
  ∃ h1 h2,
    StateConverter.convert_mapping sd mid unused split h
    = (h1, Ok (unused ∖ list_to_set (source_keys split)))
    ∧ h1 !! mid
      = Some (write_items (zip (dest_keys split) (VTensor <$> pieces)) ∅)
    ∧ StateConverter.convert_mapping mid out unused' merge h1
      = (h2, Ok (unused' ∖ list_to_set (source_keys merge)))
    ∧ h2 !! out = Some (<[k' := VTensor t]> acc).
Proof.
  intros Hsd Hmid Hout Hne Hsource Hnd Hun Hperm Hflat Hsource' Hdest'
    Hun' Hperm' Hflat' Hk Hwf HS Hcat Hchunk Hcat' Hchunk' Hpieces Hlen.
  set (d1 := write_items (zip (dest_keys split) (VTensor <$> pieces)) ∅).
  exists (<[mid := d1]> h), (<[out := <[k' := VTensor t]> acc]> (<[mid := d1]> h)).
  assert (mapping_output d split
          = Ok (zip (dest_keys split) (VTensor <$> pieces))) as Hsplit.
  { unfold mapping_output, StateConverter.transform.
    rewrite Hsource, Hun, Hperm, Hflat. simpl.
    rewrite (proj2 (lookup_key_Ok d k (VTensor t)) Hk). simpl.
    unfold torch_cat. simpl. rewrite (cat_single t _ Hwf HS Hcat). simpl.
    rewrite Hpieces. simpl. by rewrite list_fmap_compose, list_fmap_id. }
  assert (Forall2 (λ key v, d1 !! key = Some v) (dest_keys split)
            (VTensor <$> pieces)) as Hd1.
  { apply write_items_zip; [done|]. by rewrite length_fmap. }
  assert (mapping_output d1 merge = Ok [(k', VTensor t)]) as Hmerge.
  { unfold mapping_output, StateConverter.transform.
    rewrite Hsource', Hdest', Hun', Hperm', Hflat'.
    rewrite (proj2 (mapM_lookup_key_Ok d1 _ _) Hd1).
    pose proof (chunk_length _ _ _ _ Hpieces) as [Hpos _].
    destruct pieces as [|p pieces']; [simpl in Hpos; lia|].
    rewrite fmap_cons in Hd1 |- *.
    destruct (dest_keys split) as [|key keys]; [done|].
    apply Forall2_cons_1 in Hd1 as [Hkey _].
    rewrite (proj2 (lookup_key_Ok d1 key _) Hkey).
    cbn [mbind result_bind]. unfold torch_cat.
    rewrite <-fmap_cons, mapM_tensors.
    rewrite (cat_chunk t _ _ _ dd _ Hwf HS Hchunk Hcat' Hpieces).
    cbn [mbind result_bind length].
    by rewrite (chunk_single t _ Hwf HS Hchunk'). }
  split; [|split; [|split]].
  - rewrite (convert_mapping_run _ _ _ _ _ ∅ Hmid), (deref_Some _ _ _ Hsd).
    by rewrite Hsplit.
  - by rewrite lookup_insert_eq.
  - rewrite (convert_mapping_run _ _ _ _ _ acc).
    + unfold deref. rewrite lookup_insert_eq. simpl. by rewrite Hmerge.
    + by rewrite lookup_insert_ne.
  - by rewrite lookup_insert_eq.
Qed.

End split_merge.

Section merge_split.
Implicit Types t : Torch.Tensor.
Implicit Types ts : list Torch.Tensor.

(** The concatenation of well-formed tensors of one element type and one
    shape is well-formed and has as many dimensions. *)
Lemma cat_same_shape_wf ts dt (S : list nat) dim d T :
  ts ≠ [] → Forall (λ t, Torch.wf t ∧ Torch.shape t = S) ts →
  Forall (λ t, Torch.dtype t = dt) ts → S ≠ [] →
  Torch.wrap_dim (length S) dim = Some d →
  Torch.cat ts dim = Ok T →
  Torch.wf T ∧ Torch.ndim T = length S.
Proof.
  intros Hts Hall Hdtype HS Hdim HT.
  assert (Forall (λ t, Torch.shape t = S) ts) as Hshape.
  { eapply Forall_impl; [exact Hall|]. by intros t [_ ?]. }
  assert (d < length S)%nat as Hd.
  { apply (wrap_dim_lt _ dim); [done|]. destruct S; [done|simpl; lia]. }
  destruct (decide (S = [0%nat])) as [->|HS0].
  { unfold Torch.cat in HT. rewrite bool_decide_eq_false_2 in HT.
    2:{ intros (t & Ht & Hnil)%Exists_exists.
        apply (proj1 (Forall_forall _ _) Hshape) in Ht. congruence. }
    destruct ts as [|t0 ts']; [done|].
    rewrite (filter_none (λ t, Torch.shape t ≠ [0%nat])) in HT.
    2:{ eapply Forall_impl; [exact Hshape|]. intros t ->. naive_solver. }
    by injection HT as <-. }
  rewrite (cat_same_shape ts dt S dim d) in HT by done. injection HT as <-.
  split; [|unfold Torch.ndim; simpl; by rewrite length_insert].
  unfold Torch.wf. simpl.
  rewrite (numel_split (<[d := _]> S) d) by by rewrite length_insert.
  rewrite insert_outer, insert_inner, insert_size by done.
  rewrite (length_bind_const _
             (length ts * (S !!! d * Torch.numel (drop (Datatypes.S d) S)))%nat).
  { rewrite length_seq. lia. }
  intros o Ho%elem_of_seq. apply length_bind_const. intros t Ht.
  apply (proj1 (Forall_forall _ _) Hall) in Ht as [Hwf Hs].
  rewrite slab_length; rewrite ?Hs; try done; [|lia].
  unfold Torch.ndim. by rewrite Hs.
Qed.

(** X21. Merging and splitting back. A mapping that merges the tensors under
    several source keys into one key, followed by a mapping that splits this
    key over as many keys along the same dimension, restores the tensors
    (both mappings without transform): when the source keys hold tensors of
    one element type and one shape with at least one dimension, the
    iteration for the merge writes one tensor to a dictionary from which the
    iteration for the split writes the i-th tensor under its i-th
    destination key. *)
Theorem merge_split_round_trip sd mid out unused unused' merge split
    (h : store) d acc k ts dt (S : list nat) dd :
  h !! sd = Some d → h !! mid = Some ∅ → h !! out = Some acc → out ≠ mid →
  dest_keys merge = [k] → unflatten_dim merge = None →
  dims_permutation merge = None → flatten_dims merge = None →
  source_keys split = [k] →
  length (dest_keys split) = length (source_keys merge) →
  unflatten_dim split = None → dims_permutation split = None →
  flatten_dims split = None →
  Forall2 (λ key t, d !! key = Some (VTensor t)) (source_keys merge) ts →
  ts ≠ [] → Forall (λ t, Torch.wf t ∧ Torch.shape t = S) ts →
  Forall (λ t, Torch.dtype t = dt) ts → S ≠ [] →
  Torch.wrap_dim (length S) (source_concat_dim merge) = Some dd →
  is_Some (Torch.wrap_dim (length S) (dest_chunk_dim merge)) →
  is_Some (Torch.wrap_dim (length S) (source_concat_dim split)) →
  Torch.wrap_dim (length S) (dest_chunk_dim split) = Some dd →
  ∃ h1 h2 T,
    StateConverter.convert_mapping sd mid unused merge h
    = (h1, Ok (unused ∖ list_to_set (source_keys merge)))
    ∧ h1 !! mid = Some {[ k := VTensor T ]}
    ∧ StateConverter.convert_mapping mid out unused' split h1
      = (h2, Ok (unused' ∖ list_to_set (source_keys split)))
    ∧ h2 !! out
      = Some (write_items (zip (dest_keys split) (VTensor <$> ts)) acc).
Proof.
  intros Hsd Hmid Hout Hne Hdest Hun Hperm Hflat Hsource' Hlen Hun' Hperm'
    Hflat' Hsource Hts Hall Hdtype HS Hcat Hchunk Hcat' Hchunk'.
  destruct (chunk_cat_same_shape ts dt S _ _ dd Hts Hall Hdtype HS Hcat
              Hchunk')
    as (T & HT & Hpieces).
  destruct (cat_same_shape_wf ts dt S _ dd T Hts Hall Hdtype HS Hcat HT)
    as [HwfT HndimT].
  assert (Torch.shape T ≠ []) as HST.
  { intros Hnil. unfold Torch.ndim in HndimT. rewrite Hnil in HndimT.
    by destruct S. }
  pose proof (Forall2_length _ _ _ Hsource) as Hlen'.
  assert (mapping_output d merge = Ok [(k, VTensor T)]) as Hmerge.
  { unfold mapping_output, StateConverter.transform.
    rewrite Hdest, Hun, Hperm, Hflat.
    rewrite (proj2 (mapM_lookup_key_Ok d (source_keys merge)
                      (VTensor <$> ts))) by by apply Forall2_fmap_r.
    destruct Hsource as [|key t keys ts' Hkey _]; [done|].
    rewrite (proj2 (lookup_key_Ok d key (VTensor t)) Hkey).
    cbn [mbind result_bind]. unfold torch_cat. rewrite mapM_tensors, HT.
    cbn [mbind result_bind length].
    rewrite (chunk_single T); [done..|]. by rewrite HndimT. }
  assert (mapping_output {[ k := VTensor T ]} split
          = Ok (zip (dest_keys split) (VTensor <$> ts))) as Hsplit.
  { unfold mapping_output, StateConverter.transform.
    rewrite Hsource', Hun', Hperm', Hflat', Hlen, Hlen'.
    rewrite (proj2 (mapM_lookup_key_Ok {[ k := VTensor T ]} [k]
                      (VTensor <$> [T]))).
    2:{ repeat constructor. apply lookup_singleton_eq. }
    rewrite (proj2 (lookup_key_Ok {[ k := VTensor T ]} k (VTensor T)))
      by apply lookup_singleton_eq.
    cbn [mbind result_bind]. unfold torch_cat. rewrite mapM_tensors.
    rewrite (cat_single T); [|done..|by rewrite HndimT].
    cbn [mbind result_bind].
    rewrite Hpieces. simpl. by rewrite list_fmap_compose, list_fmap_id. }
  exists (<[mid := {[ k := VTensor T ]}]> h),
    (<[out := write_items (zip (dest_keys split) (VTensor <$> ts)) acc]>
       (<[mid := {[ k := VTensor T ]}]> h)), T.
  split; [|split; [|split]].
  - rewrite (convert_mapping_run _ _ _ _ _ ∅ Hmid), (deref_Some _ _ _ Hsd).
    by rewrite Hmerge.
  - by rewrite lookup_insert_eq.
  - rewrite (convert_mapping_run _ _ _ _ _ acc).
    + unfold deref. rewrite lookup_insert_eq. simpl. by rewrite Hsplit.
    + by rewrite lookup_insert_ne.
  - by rewrite lookup_insert_eq.
Qed.

End merge_split.

Section even_split.
Implicit Types t : Torch.Tensor.

(** [torch.chunk] on a dimension whose size is a multiple of the number of
    chunks: as many pieces as asked for, of one size. *)
Lemma chunk_even t (n : nat) dim d (s : nat) :
  Torch.shape t ≠ [] → (0 < n)%nat →
  Torch.wrap_dim (Torch.ndim t) dim = Some d →
  Torch.shape t !!! d = (n * s)%nat →
  Torch.chunk t n dim
  = Ok ((λ i, Torch.narrow t d (i * s) s) <$> seq 0 n).
Proof.
  intros HS Hn Hdim Hsize. unfold Torch.chunk.
  rewrite !bool_decide_eq_false_2.
  2:{ lia. }
  2:{ unfold Torch.ndim. destruct (Torch.shape t); [done|simpl; lia]. }
  rewrite Hdim, Hsize, div_ceil_mul by done.
  case_bool_decide as Hs.
  - subst s. f_equal. rewrite (replicate_fmap_seq _ _ 0).
    apply list_fmap_ext. intros _ i _. f_equal; lia.
  - rewrite div_ceil_mul' by lia. rewrite Nat.max_l by lia.
    f_equal. apply list_fmap_ext. intros _ i _. f_equal.
    case_bool_decide; nia.
Qed.

(** X22. An even split. A mapping with one source key and no transform
    whose tensor has, along the chunk dimension, a size that is a multiple
    [n * s] of the number [n] of its destination keys, writes every
    destination key: the i-th key gets the i-th part of size [s] of the
    tensor along that dimension. The concatenation and the chunk dimension
    of the mapping are in range for the tensor. *)
Theorem even_split_writes_all sd out unused m (h : store) d acc k t dd
    (s : nat) :
  h !! sd = Some d → h !! out = Some acc →
  source_keys m = [k] → dest_keys m ≠ [] →
  unflatten_dim m = None → dims_permutation m = None →
  flatten_dims m = None →
  d !! k = Some (VTensor t) → Torch.wf t → Torch.shape t ≠ [] →
  is_Some (Torch.wrap_dim (Torch.ndim t) (source_concat_dim m)) →
  Torch.wrap_dim (Torch.ndim t) (dest_chunk_dim m) = Some dd →
  Torch.shape t !!! dd = (length (dest_keys m) * s)%nat →
  ∃ acc',
    StateConverter.convert_mapping sd out unused m h
    = (<[out := acc']> h, Ok (unused ∖ list_to_set (source_keys m)))
    ∧ dom acc' = dom acc ∪ list_to_set (dest_keys m)
    ∧ (NoDup (dest_keys m) →
       ∀ (i : nat) key, dest_keys m !! i = Some key →
         acc' !! key = Some (VTensor (Torch.narrow t dd (i * s) s)))
    ∧ ∀ key, key ∉ dest_keys m → acc' !! key = acc !! key.
Proof.
  intros Hsd Hout Hsource Hdest Hun Hperm Hflat Hk Hwf HS Hcat Hchunk Hsize.
  set (n := length (dest_keys m)) in *.
  set (pieces := (λ i, Torch.narrow t dd (i * s) s) <$> seq 0 n).
  assert (0 < n)%nat as Hn.
  { unfold n. destruct (dest_keys m); [done|simpl; lia]. }
  assert (mapping_output d m = Ok (zip (dest_keys m) (VTensor <$> pieces)))
    as Hitems.
  { unfold mapping_output, StateConverter.transform.
    rewrite Hsource, Hun, Hperm, Hflat. simpl.
    rewrite (proj2 (lookup_key_Ok d k (VTensor t)) Hk). simpl.
    unfold torch_cat. simpl. rewrite (cat_single t _ Hwf HS Hcat). simpl.
    fold n. rewrite (chunk_even t n _ dd s) by done. simpl.
    by rewrite list_fmap_compose, list_fmap_id. }
  assert (length (VTensor <$> pieces) = n) as Hlen.
  { unfold pieces. by rewrite !length_fmap, length_seq. }
  assert ((zip (dest_keys m) (VTensor <$> pieces)).*1 = dest_keys m)
    as Hkeys.
  { apply fst_zip. rewrite Hlen. done. }
  exists (write_items (zip (dest_keys m) (VTensor <$> pieces)) acc).
  split; [|split; [|split]].
  - rewrite (convert_mapping_run _ _ _ _ _ acc Hout), (deref_Some _ _ _ Hsd).
    by rewrite Hitems.
  - rewrite dom_write_items, Hkeys. done.
  - intros Hnd i key Hi. apply write_items_NoDup; [by rewrite Hkeys|].
    apply (list_elem_of_lookup_2 _ i), lookup_zip_with_Some.
    eexists _, _. split; [done|]. split; [done|].
    unfold pieces. rewrite !list_lookup_fmap, lookup_seq_lt.
    + done.
    + apply lookup_lt_Some in Hi. done.
  - intros key Hkey. apply write_items_lookup_ne. by rewrite Hkeys.
Qed.

End even_split.

Section elements.
Implicit Types t : Torch.Tensor.
Implicit Types ts : list Torch.Tensor.

Lemma numel_Permutation (s1 s2 : list nat) :
  s1 ≡ₚ s2 → Torch.numel s1 = Torch.numel s2.
Proof.
  induction 1 as [|x s1 s2 _ IH|x y s|s1 s2 s3 _ IH1 _ IH2]; simpl;
    [done|by rewrite IH|lia|congruence].
Qed.

Lemma numel_insert (s : list nat) d (x : nat) :
  (d < length s)%nat →
  Torch.numel (<[d := x]> s)
  = (Torch.numel (take d s) * (x * Torch.numel (drop (S d) s)))%nat.
Proof.
  intros Hd. rewrite (numel_split (<[d := x]> s) d)
    by by rewrite length_insert.
  by rewrite insert_outer, insert_inner, insert_size.
Qed.

(** *** Views *)

Lemma infer_numel (q : nat) (sizes : list Z) :
  Forall (λ n, -1 ≤ n) sizes →
  Torch.numel ((λ n : Z, if bool_decide (n = -1)%Z then q else Z.to_nat n)
                 <$> sizes)
  = (q ^ length (filter (λ n : Z, n = -1)%Z sizes)
     * Torch.numel (Z.to_nat <$> filter (λ n : Z, 0 ≤ n)%Z sizes))%nat.
Proof.
  induction 1 as [|n sizes Hn _ IH]; [done|].
  rewrite fmap_cons, !filter_cons. cbn [Torch.numel foldr].
  fold (Torch.numel ((λ n : Z, if bool_decide (n = -1)%Z then q else Z.to_nat n)
                       <$> sizes)).
  rewrite IH. case_bool_decide; repeat case_decide; try lia; simpl.
  - by rewrite Nat.mul_assoc.
  - apply Nat.mul_shuffle3.
Qed.

Lemma infer_size_numel sizes size sizes' :
  Torch.infer_size sizes size = Some sizes' → Torch.numel sizes' = size.
Proof.
  unfold Torch.infer_size. case_bool_decide as Hlow; [done|].
  assert (Forall (λ n, -1 ≤ n) sizes) as Hall.
  { apply Forall_forall. intros n Hn.
    destruct (decide (n < -1)) as [Hlt|]; [|lia].
    destruct Hlow. apply Exists_exists. by exists n. }
  destruct (length (filter (λ n, n = -1) sizes)) as [|[|c]] eqn:Hc;
    [| |done].
  - case_bool_decide; [|done]. by intros [= <-].
  - case_bool_decide as Hdiv; [|done]. intros [= <-].
    rewrite infer_numel, Hc by done. destruct Hdiv as [Hpos Hmod].
    set (k := Torch.numel _) in *.
    pose proof (Nat.div_mod_eq size k). simpl. lia.
Qed.

Lemma unflatten_numel t dim sizes t' :
  Torch.unflatten t dim sizes = Ok t' →
  Torch.numel (Torch.shape t') = Torch.numel (Torch.shape t).
Proof.
  unfold Torch.unflatten.
  destruct sizes as [|n sizes]; [done|].
  destruct (Torch.wrap_dim _ _) as [d|]; [|done].
  destruct (Torch.shape t !! d) as [size|] eqn:Hsize; [|done].
  destruct (Torch.infer_size _ _) as [sizes'|] eqn:Hinfer; [|done].
  intros [= <-]. simpl. apply infer_size_numel in Hinfer.
  rewrite !numel_app, Hinfer.
  rewrite (numel_split (Torch.shape t) d) by by eapply lookup_lt_Some.
  by rewrite (list_lookup_total_correct _ _ _ Hsize).
Qed.

Lemma flatten_numel t start_dim end_dim t' :
  Torch.flatten t start_dim end_dim = Ok t' →
  Torch.numel (Torch.shape t') = Torch.numel (Torch.shape t).
Proof.
  unfold Torch.flatten.
  destruct (Torch.wrap_dim _ start_dim) as [s|]; [|done].
  destruct (Torch.wrap_dim _ end_dim) as [e|]; [|done].
  case_bool_decide as Hes; [done|].
  case_bool_decide as Hndim.
  - intros [= <-]. simpl. unfold Torch.ndim in Hndim.
    by destruct (Torch.shape t).
  - intros [= <-]. simpl. rewrite numel_app. cbn [Torch.numel foldr].
    fold (Torch.numel (drop (S e) (Torch.shape t))).
    rewrite <-(take_drop s (Torch.shape t)) at 4.
    rewrite <-(take_drop (S e - s) (drop s (Torch.shape t))) at 2.
    rewrite !numel_app, drop_drop. repeat f_equal. lia.
Qed.

(** *** Permutations *)

Lemma fmap_lookup_total_seq (s : list nat) :
  (λ d, s !!! d) <$> seq 0 (length s) = s.
Proof.
  apply list_eq_same_length with (length s);
    [done|by rewrite length_fmap, length_seq|].
  intros i x y Hi Hx Hy.
  rewrite list_lookup_fmap, lookup_seq_lt in Hx by done.
  injection Hx as <-. by apply list_lookup_total_correct.
Qed.

(** The dimensions the loop of [permute] returns are the given ones,
    wrapped, and pairwise distinct. *)
Lemma permute_dims_Ok n dims : ∀ seen ds,
  Torch.permute_dims n dims seen = Ok ds →
  Forall2 (λ dim d, Torch.wrap_dim n dim = Some d) dims ds
  ∧ NoDup ds ∧ ∀ d, d ∈ ds → d ∉ seen.
Proof.
  induction dims as [|dim dims IH]; intros seen ds; simpl.
  { intros [= <-]. split; [constructor|]. split; [constructor|].
    by intros d ?%elem_of_nil. }
  destruct (Torch.wrap_dim n dim) as [d|] eqn:Hdim; [|done].
  case_bool_decide as Hseen; [done|].
  destruct (Torch.permute_dims n dims (d :: seen)) as [ds'|] eqn:Hds;
    simpl; [|done].
  intros [= <-]. destruct (IH _ _ Hds) as (Hwrap & Hnd & Hfresh).
  split; [by constructor|]. split.
  - apply NoDup_cons. split; [|done]. intros Hd. apply (Hfresh d Hd).
    by left.
  - intros d' [->|Hd']%elem_of_cons; [done|].
    intros Hin. apply (Hfresh d' Hd'). by right.
Qed.

Lemma permute_numel t dims t' :
  Torch.permute t dims = Ok t' →
  Torch.numel (Torch.shape t') = Torch.numel (Torch.shape t).
Proof.
  unfold Torch.permute. case_bool_decide; [done|].
  case_bool_decide as Hlen; [done|].
  destruct (Torch.permute_dims _ _ _) as [ds|] eqn:Hds; simpl; [|done].
  intros [= <-]. simpl.
  apply permute_dims_Ok in Hds as (Hds & Hnd & _).
  pose proof (Forall2_length _ _ _ Hds) as Hlen'.
  transitivity (Torch.numel ((λ d, Torch.shape t !!! d)
                               <$> seq 0 (length (Torch.shape t))));
    [|by rewrite fmap_lookup_total_seq].
  apply numel_Permutation.
  apply fmap_Permutation, submseteq_length_Permutation.
  - apply NoDup_submseteq; [done|]. intros d [i Hi]%list_elem_of_lookup.
    destruct (Forall2_lookup_r _ _ _ _ _ Hds Hi) as (dim & Hdim & Hwrap).
    apply elem_of_seq. split; [lia|]. simpl.
    apply (wrap_dim_lt _ dim); [done|].
    apply lookup_lt_Some in Hdim. unfold Torch.ndim in *. lia.
  - rewrite length_seq. unfold Torch.ndim in *. lia.
Qed.

Lemma transform_numel m t t' :
  StateConverter.transform m t = Ok t' →
  Torch.numel (Torch.shape t') = Torch.numel (Torch.shape t).
Proof.
  unfold StateConverter.transform.
  destruct (match unflatten_dim m with Some _ => _ | None => _ end)
    as [t1|] eqn:H1; [|done]. cbn [mbind result_bind].
  destruct (match dims_permutation m with Some _ => _ | None => _ end)
    as [t2|] eqn:H2; [|done]. cbn [mbind result_bind].
  intros H3.
  assert (Torch.numel (Torch.shape t1) = Torch.numel (Torch.shape t)) as <-.
  { destruct (unflatten_dim m) as [[dim sizes]|];
      [by eapply unflatten_numel|congruence]. }
  assert (Torch.numel (Torch.shape t2) = Torch.numel (Torch.shape t1)) as <-.
  { destruct (dims_permutation m) as [dims|];
      [by eapply permute_numel|congruence]. }
  destruct (flatten_dims m) as [[start_dim end_dim]|];
    [by eapply flatten_numel|congruence].
Qed.

(** *** Concatenation and chunking *)

Lemma total_numel_filter (P : Torch.Tensor → Prop)
    `{∀ t, Decision (P t)} ts :
  (∀ t, t ∈ ts → ¬ P t → Torch.numel (Torch.shape t) = 0%nat) →
  total_numel (filter P ts) = total_numel ts.
Proof.
  unfold total_numel. induction ts as [|t ts IH]; intros Hzero; [done|].
  rewrite filter_cons. destruct (decide (P t)) as [Ht|Ht].
  - rewrite !fmap_cons. cbn [sum_list sum_list_with]. rewrite IH; [done|].
    intros t' Ht'. apply Hzero. by right.
  - rewrite fmap_cons. cbn [sum_list sum_list_with].
    rewrite (Hzero t) by (done || by left). rewrite IH; [done|].
    intros t' Ht'. apply Hzero. by right.
Qed.

Lemma same_except_numel d (s0 s : list nat) :
  Torch.same_except d s0 s = true → (d < length s0)%nat →
  Torch.numel s
  = (Torch.numel (take d s0)
     * (s !!! d * Torch.numel (drop (S d) s0)))%nat.
Proof.
  unfold Torch.same_except. intros Heq%bool_decide_eq_true Hd.
  assert (length s = length s0) as Hlen.
  { apply (f_equal length) in Heq. by rewrite !length_insert in Heq. }
  rewrite (numel_split s d) by lia.
  rewrite <-(insert_outer s d 0), <-(insert_inner s d 0), <-Heq.
  by rewrite insert_outer, insert_inner.
Qed.

Lemma same_shape_sum ts (outer inner d : nat) :
  (∀ t, t ∈ ts →
     Torch.numel (Torch.shape t)
     = (outer * (Torch.shape t !!! d * inner))%nat) →
  (outer * (sum_list ((λ t, Torch.shape t !!! d) <$> ts) * inner))%nat
  = total_numel ts.
Proof.
  unfold total_numel. induction ts as [|t ts IH]; intros Hall; [simpl; lia|].
  rewrite !fmap_cons.
  change (outer * ((Torch.shape t !!! d
                    + sum_list ((λ t, Torch.shape t !!! d) <$> ts)) * inner)
          = Torch.numel (Torch.shape t)
            + sum_list ((λ t, Torch.numel (Torch.shape t)) <$> ts))%nat.
  rewrite <-IH, (Hall t); [lia|by left|].
  intros t' Ht'. apply Hall. by right.
Qed.

Lemma cat_numel ts dim T :
  Torch.cat ts dim = Ok T →
  Torch.numel (Torch.shape T) = total_numel ts.
Proof.
  unfold Torch.cat. case_bool_decide as Hzero; [done|].
  destruct ts as [|t1 ts']; [done|]. set (ts := t1 :: ts') in *.
  rewrite <-(total_numel_filter (λ t, Torch.shape t ≠ [0%nat]) ts).
  2:{ intros t _ Ht. apply dec_stable in Ht. by rewrite Ht. }
  destruct (filter _ ts) as [|t0 kept'] eqn:Hkept; [by intros [= <-]|].
  set (kept := t0 :: kept') in *.
  destruct (Torch.wrap_dim _ _) as [d|] eqn:Hdim; [|done].
  destruct (forallb _ kept) eqn:Hsame; [|done]. intros [= <-].
  cbn [Torch.shape].
  assert (d < length (Torch.shape t0))%nat as Hd.
  { apply (wrap_dim_lt _ dim); [done|].
    assert (t0 ∈ ts) as Ht0.
    { eapply (list_elem_of_filter (λ t, Torch.shape t ≠ [0%nat])).
      rewrite Hkept. by left. }
    unfold Torch.ndim. destruct (Torch.shape t0) eqn:Hs; [|simpl; lia].
    destruct Hzero. apply Exists_exists. by exists t0. }
  rewrite numel_insert by done.
  rewrite forallb_forall in Hsame.
  assert (∀ t, t ∈ kept →
            Torch.numel (Torch.shape t)
            = (Torch.numel (take d (Torch.shape t0))
               * (Torch.shape t !!! d
                  * Torch.numel (drop (S d) (Torch.shape t0))))%nat) as Hall.
  { intros t Ht. apply same_except_numel; [|done].
    apply Hsame. by apply list_elem_of_In. }
  by apply (same_shape_sum kept).
Qed.

Lemma split_with_sizes_numel t d sizes : ∀ start,
  (d < Torch.ndim t)%nat →
  total_numel (split_with_sizes t d start sizes)
  = (Torch.numel (take d (Torch.shape t))
     * (sum_list sizes * Torch.numel (drop (S d) (Torch.shape t))))%nat.
Proof.
  unfold total_numel.
  induction sizes as [|size sizes IH]; intros start Hd; [simpl; lia|].
  cbn [split_with_sizes]. rewrite fmap_cons.
  change (Torch.numel (Torch.shape (Torch.narrow t d start size))
          + sum_list ((λ t, Torch.numel (Torch.shape t))
                        <$> split_with_sizes t d (start + size) sizes)
          = Torch.numel (take d (Torch.shape t))
            * ((size + sum_list sizes)
               * Torch.numel (drop (S d) (Torch.shape t))))%nat.
  rewrite IH by done.
  rewrite narrow_shape, numel_insert by done. lia.
Qed.

Lemma chunk_numel t chunks dim pieces :
  Torch.chunk t chunks dim = Ok pieces →
  total_numel pieces = Torch.numel (Torch.shape t).
Proof.
  intros Hpieces.
  assert (∃ d, Torch.wrap_dim (Torch.ndim t) dim = Some d
               ∧ (0 < Torch.ndim t)%nat) as (d & Hdim & Hndim).
  { unfold Torch.chunk in Hpieces. case_bool_decide; [done|].
    case_bool_decide; [done|].
    destruct (Torch.wrap_dim _ _) as [d|]; [|done]. exists d.
    split; [done|lia]. }
  pose proof (wrap_dim_lt _ _ _ Hdim Hndim) as Hd.
  destruct (chunk_split t chunks dim d pieces Hpieces Hdim)
    as (sizes & -> & _ & Hsum & _).
  rewrite split_with_sizes_numel, Hsum by done.
  symmetry. by apply numel_split.
Qed.

(** X23. An iteration of the loop of [convert] writes as many elements as it
    reads: when it does not raise, every source key of the mapping holds a
    tensor, the values it writes are tensors, one per written key, and the
    numbers of elements of the written tensors add up to the numbers of
    elements of the tensors under the source keys. The optional unflatten,
    permute and flatten steps keep the number of elements. *)
Theorem iteration_conserves_elements sd out unused m (h h' : store) d acc
    unused' :
  h !! sd = Some d → h !! out = Some acc →
  StateConverter.convert_mapping sd out unused m h = (h', Ok unused') →
  ∃ ts pieces,
    Forall2 (λ k t, d !! k = Some (VTensor t)) (source_keys m) ts
    ∧ h' = <[out := write_items
                      (zip (dest_keys m) (VTensor <$> pieces)) acc]> h
    ∧ (length pieces ≤ length (dest_keys m))%nat
    ∧ total_numel pieces = total_numel ts.
Proof.
  intros Hsd Hout.
  rewrite (convert_mapping_run _ _ _ _ _ acc Hout), (deref_Some _ _ _ Hsd).
  destruct (mapping_output d m) as [items|] eqn:Hitems; [|done].
  intros [= <- <-]. unfold mapping_output in Hitems.
  destruct (match source_keys m with [] => _ | _ => _ end) as [[t0|n]|];
    simpl in Hitems; [|done..].
  destruct (mapM _ (source_keys m)) as [states|] eqn:Hstates;
    simpl in Hitems; [|done].
  unfold torch_cat in Hitems.
  destruct (mapM _ states) as [ts|] eqn:Hts; simpl in Hitems; [|done].
  destruct (Torch.cat ts _) as [T|] eqn:HT; simpl in Hitems; [|done].
  destruct (StateConverter.transform m T) as [T'|] eqn:HT';
    simpl in Hitems; [|done].
  destruct (Torch.chunk T' _ _) as [pieces|] eqn:Hpieces; simpl in Hitems;
    [|done].
  injection Hitems as <-. exists ts, pieces.
  split; [|split; [|split]].
  - apply mapM_lookup_key_Ok in Hstates. apply mapM_Some_1 in Hts.
    apply Forall2_same_length_lookup_2.
    { rewrite (Forall2_length _ _ _ Hstates). by eapply Forall2_length. }
    intros i k t Hk Ht.
    destruct (Forall2_lookup_l _ _ _ _ _ Hstates Hk) as (v & Hv & Hkv).
    destruct (Forall2_lookup_l _ _ _ _ _ Hts Hv) as (t' & Ht' & Hvt).
    destruct v; [|done]. congruence.
  - by rewrite list_fmap_compose, list_fmap_id.
  - by apply chunk_length in Hpieces as [_ ?].
  - rewrite (chunk_numel _ _ _ _ Hpieces), (transform_numel _ _ _ HT').
    by eapply cat_numel.
Qed.

End elements.

(** ** The further properties on concrete inputs *)

(** X1 on a template that unflattens by the number of experts. *)
Lemma to_mapping_parameters_witness :
  let m := StateMapping.mk ["experts.w"] ["mlp.w"] 0 (Some (0, [4; -1]))
             (Some [1; 0; 2]) (Some (0, 1)) 1 in
  source_concat_dim m = 0
  ∧ dims_permutation m = Some [1; 0; 2]
  ∧ flatten_dims m = Some (0, 1)
  ∧ dest_chunk_dim m = 1
  ∧ ∃ shape',
      unflatten_dim m = Some (0, shape')
      ∧ Forall2 (λ entry n,
                   match entry with
                   | DimInt k => n = k
                   | DimPlaceholder p => Py.get p [(EXPERT, 4)] = Some n
                   end) [DimPlaceholder EXPERT; DimInt (-1)] shape'.
Proof.
  apply (to_mapping_parameters experts_unflatten_template
           [(EXPERT, None)] [(EXPERT, 4)]).
  vm_compute. reflexivity.
Defined.

(** X2 on the per-layer attention template. *)
Lemma expansion_keys_witness :
  let m := plain_mapping ["blocks.0.attn.w_q"; "blocks.1.attn.w_q"]
             ["model.layers.0.self_attn.q_proj.weight";
              "model.layers.1.self_attn.q_proj.weight"] in
  ∃ s bound,
    StateMappingTemplate.source_template_keys attn_q_template = KeyStr s
    ∧ Py.contains (token LAYER) s = true
    ∧ Py.get LAYER [(LAYER, @None Z)] = Some None
    ∧ Py.get LAYER [(LAYER, 2)] = Some bound
    ∧ StateMappingTemplate.fill_keys
        ((λ i, Py.replace (token LAYER) (Py.str i) s) <$> Py.range bound)
        [(LAYER, None)] = Some (source_keys m)
    ∧ length (source_keys m) = Z.to_nat bound.
Proof.
  apply (proj1 (expansion_keys attn_q_template [(LAYER, None)] [(LAYER, 2)]
                  (plain_mapping ["blocks.0.attn.w_q"; "blocks.1.attn.w_q"]
                     ["model.layers.0.self_attn.q_proj.weight";
                      "model.layers.1.self_attn.q_proj.weight"])
                  ltac:(vm_compute; reflexivity)) LAYER).
  reflexivity.
Defined.

(** X3 on a template that expands over a placeholder its string does not
    hold. *)
Lemma post_init_assertion_witness :
  (∃ p s, StateMappingTemplate.source_key_per_placeholder no_token_template
          = Some p
          ∧ StateMappingTemplate.source_template_keys no_token_template
            = KeyStr s
          ∧ Py.contains (token p) s = false
          ∧ Py.get p [(LAYER, @None Z)] = Some None)
  ∨ (∃ p s, StateMappingTemplate.dest_key_per_placeholder no_token_template
            = Some p
            ∧ StateMappingTemplate.dest_template_keys no_token_template
              = KeyStr s
            ∧ Py.contains (token p) s = false
            ∧ Py.get p [(LAYER, @None Z)] = Some None).
Proof.
  apply (post_init_assertion no_token_template [(LAYER, None)] [(LAYER, 2)]).
  - reflexivity.
  - vm_compute. reflexivity.
Defined.

(** X4 on the layer placeholder. *)
Lemma expansion_injective_witness :
  NoDup ((λ i, Py.replace (token LAYER) (Py.str i) "blocks.[layer].w")
           <$> Py.range 3).
Proof.
  apply (proj2 (expansion_injective LAYER "blocks.[layer].w" eq_refl) 3).
Defined.

(** X5 on the per-layer attention converter. *)
Lemma get_mappings_characterised_witness :
  let h : store := {[ 1%positive := attn_source_extra ]} in
  let ms := [plain_mapping ["blocks.0.attn.w_q"; "blocks.1.attn.w_q"]
               ["model.layers.0.self_attn.q_proj.weight";
                "model.layers.1.self_attn.q_proj.weight"]] in
  (plain_mapping ["blocks.0.attn.w_q"; "blocks.1.attn.w_q"]
     ["model.layers.0.self_attn.q_proj.weight";
      "model.layers.1.self_attn.q_proj.weight"]) ∈ ms
  ↔ (∃ t c, t ∈ StateConverter.mapping_templates attn_converter
            ∧ c ∈ StateConverter.placeholder_value_combinations [(LAYER, 2)]
            ∧ StateMappingTemplate.to_mapping t c [(LAYER, 2)]
              = Ok (Some (plain_mapping
                            ["blocks.0.attn.w_q"; "blocks.1.attn.w_q"]
                            ["model.layers.0.self_attn.q_proj.weight";
                             "model.layers.1.self_attn.q_proj.weight"])))
    ∧ ∀ k, k ∈ ["blocks.0.attn.w_q"; "blocks.1.attn.w_q"] →
           k ∈ dom attn_source_extra.
Proof.
  apply (get_mappings_characterised attn_converter 1%positive [(LAYER, 2)]
           {[ 1%positive := attn_source_extra ]} attn_source_extra
           [plain_mapping ["blocks.0.attn.w_q"; "blocks.1.attn.w_q"]
              ["model.layers.0.self_attn.q_proj.weight";
               "model.layers.1.self_attn.q_proj.weight"]]).
  - reflexivity.
  - vm_compute. reflexivity.
Defined.


(** X8 on the two attention weights. *)
Lemma convert_output_witness :
  let d : gmap string value :=
    {[ "blocks.0.attn.w_q" := VTensor (vec [1; 2]);
       "blocks.1.attn.w_q" := VTensor (vec [3; 4]) ]} in
  let h : store := {[ 1%positive := d ]} in
  let ms := [plain_mapping ["blocks.0.attn.w_q"; "blocks.1.attn.w_q"]
               ["model.layers.0.self_attn.q_proj.weight";
                "model.layers.1.self_attn.q_proj.weight"]] in
  ∃ acc,
    (StateConverter.convert attn_converter 1%positive [(LAYER, 2)] h).1
      !! 2%positive = Some acc
    ∧ ∀ k v, acc !! k = Some v →
        (∃ t, v = VTensor t) ∧ ∃ m, m ∈ ms ∧ k ∈ dest_keys m.
Proof.
  apply (convert_output attn_converter 1%positive [(LAYER, 2)]
           {[ 1%positive :=
                {[ "blocks.0.attn.w_q" := VTensor (vec [1; 2]);
                   "blocks.1.attn.w_q" := VTensor (vec [3; 4]) ]} ]}
           {[ "blocks.0.attn.w_q" := VTensor (vec [1; 2]);
              "blocks.1.attn.w_q" := VTensor (vec [3; 4]) ]}).
  - reflexivity.
  - vm_compute. reflexivity.
  - vm_compute. reflexivity.
Defined.

(** X9 on the per-layer attention converter. *)
Lemma discovered_keys_clean_witness :
  Py.contains (token LAYER) "model.layers.1.self_attn.q_proj.weight" = false.
Proof.
  apply (discovered_keys_clean attn_converter 1%positive [(LAYER, 2)]
           {[ 1%positive := attn_source_extra ]}
           [plain_mapping ["blocks.0.attn.w_q"; "blocks.1.attn.w_q"]
              ["model.layers.0.self_attn.q_proj.weight";
               "model.layers.1.self_attn.q_proj.weight"]]
           (plain_mapping ["blocks.0.attn.w_q"; "blocks.1.attn.w_q"]
              ["model.layers.0.self_attn.q_proj.weight";
               "model.layers.1.self_attn.q_proj.weight"])).
  - vm_compute. reflexivity.
  - apply list_elem_of_here.
  - simpl. do 3 apply list_elem_of_further. apply list_elem_of_here.
  - apply list_elem_of_here.
Defined.

(** X10 on the per-layer attention converter with no layer. *)
Lemma empty_expansion_raises_witness :
  let h : store := {[ 1%positive := attn_source_extra ]} in
  let m := plain_mapping [] [] in
  source_keys m = [] ∧ m ∈ [m]
  ∧ (∃ e, (StateConverter.convert attn_converter 1%positive [(LAYER, 0)] h).2
          = Raise e)
  ∧ (∀ pre post,
       [m] = pre ++ m :: post →
       (∀ m', m' ∈ pre → applies attn_source_extra m') →
       (StateConverter.convert attn_converter 1%positive [(LAYER, 0)] h).2
       = Raise IndexError).
Proof.
  apply (empty_expansion_raises attn_converter 1%positive [(LAYER, 0)]
           {[ 1%positive := attn_source_extra ]} attn_source_extra
           [plain_mapping [] []] attn_q_template [(LAYER, None)]
           (plain_mapping [] []) LAYER 0).
  - reflexivity.
  - vm_compute. reflexivity.
  - apply list_elem_of_here.
  - apply list_elem_of_here.
  - vm_compute. reflexivity.
  - reflexivity.
  - reflexivity.
  - lia.
Defined.

(** The exception of the conversion with no layer. *)
Example convert_no_layer :
  (StateConverter.convert attn_converter 1%positive [(LAYER, 0)]
     {[ 1%positive := attn_source_extra ]}).2 = Raise IndexError.
Proof. vm_compute. reflexivity. Qed.

(** X12 on a 2x2 tensor. *)
Lemma one_to_one_copies_witness :
  let t := float32 [2; 2]%nat [1; 2; 3; 4] in
  let h : store := {[ 1%positive := {[ "a" := VTensor t ]}; 2%positive := ∅ ]} in
  StateConverter.convert_mapping 1%positive 2%positive {[ "a" ]}
    (plain_mapping ["a"] ["c"]) h
  = (<[2%positive := <["c" := VTensor t]> ∅]> h, Ok ({[ "a" ]} ∖ {[ "a" ]})).
Proof.
  apply (one_to_one_copies 1%positive 2%positive {[ "a" ]}
           (plain_mapping ["a"] ["c"]) _
           {[ "a" := VTensor (float32 [2; 2]%nat [1; 2; 3; 4]) ]});
    first [reflexivity | discriminate | by eexists].
Defined.

(** X13 on a renaming, with bounds for the layers and the experts. *)
Lemma one_to_one_template_witness :
  let h : store := {[ 1%positive := {[ "a" := VTensor (vec [1; 2]) ]} ]} in
  StateConverter.get_mappings copy_converter 1%positive
    [(LAYER, 2); (EXPERT, 3)] h
  = (h, Ok (if bool_decide ("a" ∈ dom ({[ "a" := VTensor (vec [1; 2]) ]}
                                        : gmap string value))
            then [plain_mapping ["a"] ["c"]] else [])).
Proof.
  apply (one_to_one_template (plain_template (KeyStr "a") (KeyStr "c") None None)
           "a" "c" 1%positive [(LAYER, 2); (EXPERT, 3)]
           {[ 1%positive := {[ "a" := VTensor (vec [1; 2]) ]} ]}
           {[ "a" := VTensor (vec [1; 2]) ]}); try reflexivity.
  - intros p _. by destruct p.
  - apply (bool_decide_unpack _). vm_compute. exact I.
Defined.

(** X15 on two renamings. *)
Lemma rename_converter_witness :
  let renames := [("a", "x"); ("b", "y")] in
  let d : gmap string value :=
    {[ "a" := VTensor (vec [1; 2]); "b" := VTensor (vec [3]) ]} in
  let h : store := {[ 1%positive := d ]} in
  ∃ h' out acc,
    StateConverter.convert
      (StateConverter.mk
         ((λ r, plain_template (KeyStr r.1) (KeyStr r.2) None None)
            <$> renames)) 1%positive [(LAYER, 2)] h = (h', Ok out)
    ∧ h !! out = None
    ∧ h' !! out = Some acc
    ∧ (∀ k, k ∈ dom acc ↔ k ∈ renames.*2)
    ∧ (∀ k v, acc !! k = Some v →
         ∃ r, r ∈ renames ∧ r.2 = k ∧ d !! r.1 = Some v)
    ∧ (NoDup renames.*2 → ∀ r, r ∈ renames → acc !! r.2 = d !! r.1).
Proof.
  apply (rename_converter [("a", "x"); ("b", "y")] 1%positive [(LAYER, 2)]
           {[ 1%positive :=
                {[ "a" := VTensor (vec [1; 2]); "b" := VTensor (vec [3]) ]} ]}
           {[ "a" := VTensor (vec [1; 2]); "b" := VTensor (vec [3]) ]}).
  - reflexivity.
  - apply (bool_decide_unpack _). vm_compute. exact I.
  - intros r p Hr Hp. apply list_elem_of_singleton in Hp. subst p.
    apply elem_of_cons in Hr as [->|Hr]; [by split|].
    apply list_elem_of_singleton in Hr. subst r. by split.
  - intros r Hr. apply elem_of_cons in Hr as [->|Hr].
    { exists (vec [1; 2]). split; [reflexivity|]. by split. }
    apply list_elem_of_singleton in Hr. subst r.
    exists (vec [3]). split; [reflexivity|]. by split.
  - intros k Hk. rewrite dom_insert_L, dom_singleton_L in Hk.
    apply elem_of_union in Hk as [Hk|Hk]; apply elem_of_singleton in Hk;
      subst k; [apply list_elem_of_here|].
    apply list_elem_of_further, list_elem_of_here.
Defined.

(** The converter of the two renamings on its input. *)
Example rename_converter_run :
  let r := StateConverter.convert
             (StateConverter.mk
                [plain_template (KeyStr "a") (KeyStr "x") None None;
                 plain_template (KeyStr "b") (KeyStr "y") None None])
             1%positive [(LAYER, 2)]
             {[ 1%positive :=
                  {[ "a" := VTensor (vec [1; 2]);
                     "b" := VTensor (vec [3]) ]} ]} in
  r.2 = Ok 2%positive
  ∧ r.1 !! 2%positive
    = Some {[ "x" := VTensor (vec [1; 2]); "y" := VTensor (vec [3]) ]}.
Proof. vm_compute. split; reflexivity. Qed.

(** X16 on a tensor of size 5 split over four keys: [torch.chunk] returns
    three pieces, and the fourth key is not written. *)
Lemma iteration_writes_prefix_witness :
  let m := plain_mapping ["w"] ["a"; "b"; "c"; "d"] in
  let h : store := {[ 1%positive := split4_source; 2%positive := ∅ ]} in
  let h' := <[2%positive :=
                {[ "a" := VTensor (vec [0; 1]); "b" := VTensor (vec [2; 3]);
                   "c" := VTensor (vec [4]) ]}]> h in
  (∅ : gset string) = {[ "w" ]} ∖ list_to_set (source_keys m)
  ∧ dest_keys m ≠ []
  ∧ ∃ items,
      h' = <[2%positive := write_items items ∅]> h
      ∧ items ≠ [] ∧ items.*1 `prefix_of` dest_keys m
      ∧ Forall (λ kv, ∃ t, kv.2 = VTensor t) items.
Proof.
  apply (iteration_writes_prefix 1%positive 2%positive {[ "w" ]}
           (plain_mapping ["w"] ["a"; "b"; "c"; "d"])
           {[ 1%positive := split4_source; 2%positive := ∅ ]}
           (<[2%positive :=
                {[ "a" := VTensor (vec [0; 1]); "b" := VTensor (vec [2; 3]);
                   "c" := VTensor (vec [4]) ]}]>
              {[ 1%positive := split4_source; 2%positive := ∅ ]})
           split4_source ∅ ∅).
  - reflexivity.
  - reflexivity.
  - vm_compute. reflexivity.
Defined.

(** X17 on a dictionary whose only key no template reads. *)
Lemma convert_no_mappings_witness :
  let d : gmap string value := {[ "b" := VTensor (vec [1; 2]) ]} in
  let h : store := {[ 1%positive := d ]} in
  StateConverter.convert copy_converter 1%positive [] h
  = (<[fresh (dom h) := ∅]> h,
     if bool_decide (d = ∅) then Ok (fresh (dom h))
     else Raise (KeysNotConverted (Py.sorted (dom d)))).
Proof.
  apply (convert_no_mappings copy_converter 1%positive []
           {[ 1%positive := {[ "b" := VTensor (vec [1; 2]) ]} ]}
           {[ "b" := VTensor (vec [1; 2]) ]}).
  - reflexivity.
  - vm_compute. reflexivity.
Defined.



(** X20 on a tensor of size 5 split over three keys, in pieces of sizes 2, 2
    and 1, and merged back. *)
Lemma split_merge_round_trip_witness :
  let t := vec [0; 1; 2; 3; 4] in
  let split := plain_mapping ["w"] ["a"; "b"; "c"] in
  let merge := plain_mapping ["a"; "b"; "c"] ["v"] in
  let pieces := [vec [0; 1]; vec [2; 3]; vec [4]] in
  let h : store :=
    {[ 1%positive := split4_source; 2%positive := ∅; 3%positive := ∅ ]} in
  ∃ h1 h2,
    StateConverter.convert_mapping 1%positive 2%positive {[ "w" ]} split h
    = (h1, Ok ({[ "w" ]} ∖ list_to_set (source_keys split)))
    ∧ h1 !! 2%positive
      = Some (write_items (zip (dest_keys split) (VTensor <$> pieces)) ∅)
    ∧ StateConverter.convert_mapping 2%positive 3%positive
        {[ "a"; "b"; "c" ]} merge h1
      = (h2, Ok ({[ "a"; "b"; "c" ]} ∖ list_to_set (source_keys merge)))
    ∧ h2 !! 3%positive = Some (<["v" := VTensor t]> ∅).
Proof.
  apply (split_merge_round_trip 1%positive 2%positive 3%positive {[ "w" ]}
           {[ "a"; "b"; "c" ]} (plain_mapping ["w"] ["a"; "b"; "c"])
           (plain_mapping ["a"; "b"; "c"] ["v"])
           {[ 1%positive := split4_source; 2%positive := ∅;
              3%positive := ∅ ]}
           split4_source ∅ "w" "v" (vec [0; 1; 2; 3; 4]) 0%nat
           [vec [0; 1]; vec [2; 3]; vec [4]]);
    first [reflexivity | discriminate | by eexists | idtac].
  apply (bool_decide_unpack _). vm_compute. exact I.
Defined.

(** X21 on two vectors merged into one and split back. *)
Lemma merge_split_round_trip_witness :
  let ts := [vec [1; 2]; vec [3; 4]] in
  let merge := plain_mapping ["blocks.0.attn.w_q"; "blocks.1.attn.w_q"]
                 ["w"] in
  let split := plain_mapping ["w"] ["a"; "b"] in
  let h : store :=
    {[ 1%positive := attn_source_extra; 2%positive := ∅; 3%positive := ∅ ]} in
  ∃ h1 h2 T,
    StateConverter.convert_mapping 1%positive 2%positive
      (dom attn_source_extra) merge h
    = (h1, Ok (dom attn_source_extra ∖ list_to_set (source_keys merge)))
    ∧ h1 !! 2%positive = Some {[ "w" := VTensor T ]}
    ∧ StateConverter.convert_mapping 2%positive 3%positive {[ "w" ]} split h1
      = (h2, Ok ({[ "w" ]} ∖ list_to_set (source_keys split)))
    ∧ h2 !! 3%positive
      = Some (write_items (zip (dest_keys split) (VTensor <$> ts)) ∅).
Proof.
  apply (merge_split_round_trip 1%positive 2%positive 3%positive
           (dom attn_source_extra) {[ "w" ]}
           (plain_mapping ["blocks.0.attn.w_q"; "blocks.1.attn.w_q"] ["w"])
           (plain_mapping ["w"] ["a"; "b"])
           {[ 1%positive := attn_source_extra; 2%positive := ∅;
              3%positive := ∅ ]}
           attn_source_extra ∅ "w" [vec [1; 2]; vec [3; 4]] Torch.Float32
           [2%nat] 0%nat);
    first [reflexivity | discriminate | by eexists | idtac].
  - repeat constructor.
  - repeat constructor.
  - repeat constructor.
Defined.

(** X22 on a vector of size 6 split over three keys. *)
Lemma even_split_writes_all_witness :
  let t := vec [0; 1; 2; 3; 4; 5] in
  let m := plain_mapping ["w"] ["a"; "b"; "c"] in
  let h : store := {[ 1%positive := {[ "w" := VTensor t ]}; 2%positive := ∅ ]} in
  ∃ acc',
    StateConverter.convert_mapping 1%positive 2%positive {[ "w" ]} m h
    = (<[2%positive := acc']> h, Ok ({[ "w" ]} ∖ list_to_set (source_keys m)))
    ∧ dom acc' = dom (∅ : gmap string value) ∪ list_to_set (dest_keys m)
    ∧ (NoDup (dest_keys m) →
       ∀ (i : nat) key, dest_keys m !! i = Some key →
         acc' !! key = Some (VTensor (Torch.narrow t 0 (i * 2) 2)))
    ∧ ∀ key, key ∉ dest_keys m → acc' !! key = (∅ : gmap string value) !! key.
Proof.
  apply (even_split_writes_all 1%positive 2%positive {[ "w" ]}
           (plain_mapping ["w"] ["a"; "b"; "c"])
           {[ 1%positive := {[ "w" := VTensor (vec [0; 1; 2; 3; 4; 5]) ]};
              2%positive := ∅ ]}
           {[ "w" := VTensor (vec [0; 1; 2; 3; 4; 5]) ]} ∅ "w"
           (vec [0; 1; 2; 3; 4; 5]) 0%nat 2%nat);
    first [reflexivity | discriminate | by eexists].
Defined.

(** X23 on a matrix that is unflattened, permuted, flattened and split in
    two. *)
Lemma iteration_conserves_elements_witness :
  let t := float32 [4; 2]%nat [0; 1; 2; 3; 4; 5; 6; 7] in
  let m := StateMapping.mk ["w"] ["a"; "b"] 0 (Some (0, [2; -1]))
             (Some [1; 0; 2]) (Some (0, 1)) 0 in
  let d : gmap string value := {[ "w" := VTensor t ]} in
  let h : store := {[ 1%positive := d; 2%positive := ∅ ]} in
  ∃ ts pieces,
    Forall2 (λ k t, d !! k = Some (VTensor t)) (source_keys m) ts
    ∧ (StateConverter.convert_mapping 1%positive 2%positive {[ "w" ]} m h).1
      = <[2%positive := write_items
                          (zip (dest_keys m) (VTensor <$> pieces)) ∅]> h
    ∧ (length pieces ≤ length (dest_keys m))%nat
    ∧ total_numel pieces = total_numel ts.
Proof.
  apply (iteration_conserves_elements 1%positive 2%positive {[ "w" ]}
           (StateMapping.mk ["w"] ["a"; "b"] 0 (Some (0, [2; -1]))
              (Some [1; 0; 2]) (Some (0, 1)) 0)
           {[ 1%positive :=
                {[ "w" := VTensor (float32 [4; 2]%nat
                                     [0; 1; 2; 3; 4; 5; 6; 7]) ]};
              2%positive := ∅ ]}
           _ {[ "w" := VTensor (float32 [4; 2]%nat
                                  [0; 1; 2; 3; 4; 5; 6; 7]) ]} ∅ ∅).
  - reflexivity.
  - reflexivity.
  - vm_compute. reflexivity.
Defined.

(** The iteration of the last example. *)
Example transform_iteration_run :
  let t := float32 [4; 2]%nat [0; 1; 2; 3; 4; 5; 6; 7] in
  let m := StateMapping.mk ["w"] ["a"; "b"] 0 (Some (0, [2; -1]))
             (Some [1; 0; 2]) (Some (0, 1)) 0 in
  (StateConverter.convert_mapping 1%positive 2%positive {[ "w" ]} m
     {[ 1%positive := {[ "w" := VTensor t ]}; 2%positive := ∅ ]}).1
    !! 2%positive
  = Some {[ "a" := VTensor (float32 [2; 2]%nat [0; 1; 4; 5]);
            "b" := VTensor (float32 [2; 2]%nat [2; 3; 6; 7]) ]}.
Proof. vm_compute. reflexivity. Qed.
